(** * Signaling relay for two-party video calls

    A shallow embedding of the coordination logic of the repository:

    - the polling binding: the serverless handlers [api/sendSignal] and
      [api/getSignals] over a key-value list store, and the browser client
      of [script.js] ([handleIncomingSignals], [createAndSendOffer]);
    - the live-channel binding: the Socket.IO server of [server.js] and the
      browser client of [public/script.js].

    Identifiers and room names are JavaScript strings; they are embedded as
    [string], and [<] on two strings is the lexicographic order on their
    characters ([String.ltb]), which is JavaScript's on strings of
    characters below 128.  External collaborators (the [JSON] builtin,
    [RTCPeerConnection]) enter through type classes, so that every theorem
    holds for any behaviour of theirs.

    A function of the scripts is embedded twice: as one step that runs
    the call to its end ([Eff]), and turn by turn ([Async]), where every
    [await] hands control back to the event loop and the turns of other
    calls may come in between.  The second is proved to refine to the
    first when no other turn comes in between; the theorems say which of
    the two they are about.  The handler of [api/getSignals] is likewise
    split at the [await] between its two commands on the store. *)

From Stdlib Require Import String Ascii ZArith List Bool Lia DecimalString.
From stdpp Require Import gmap strings list.

Set Warnings "-register-all,-clear-no-such-hyp".

Local Open Scope string_scope.
Local Open Scope list_scope.

(** ** JavaScript values *)

(** The values that travel through the relay: what [JSON.parse] can return.
    A number is kept as the decimal [m * 10^e] it was written as. *)
Inductive JsValue : Type :=
| JNull
| JBool (b : bool)
| JNum (m e : Z)
| JStr (s : string)
| JArr (items : list JsValue)
| JObj (fields : list (string * JsValue)).

(** [e !== null] *)
Definition not_null (e : JsValue) : bool :=
  match e with
  | JNull => false
  | _ => true
  end.

(** Truthiness of a string-valued property that may be absent:
    [undefined] and the empty string are falsy. *)
Definition truthy (o : option string) : bool :=
  match o with
  | Some s => negb (String.eqb s "")
  | None => false
  end.

(** [x === undefined] for an optional property. *)
Definition is_undefined {A : Type} (o : option A) : bool :=
  match o with
  | Some _ => false
  | None => true
  end.

(** [a < b] on two strings: the lexicographic order on their characters.
    JavaScript compares UTF-16 code units; on strings of characters below
    128 (the ids that [generateId] makes are of [0-9a-z]) that is the
    order on the bytes, which [String.ltb] compares. *)
Definition js_lt (a b : string) : bool := String.ltb a b.

(** Every character of the string is below 128. *)
Fixpoint is_ascii (s : string) : bool :=
  match s with
  | EmptyString => true
  | String c rest => Nat.ltb (nat_of_ascii c) 128 && is_ascii rest
  end.

(** The builtin [JSON] object. [JSON_parse] returns [None] where
    [JSON.parse] throws a [SyntaxError]. *)
Class JSONBuiltin : Type := {
  JSON_parse : string -> option JsValue;
  JSON_stringify : JsValue -> string
}.

(** [String(v)], the string that [JSON.parse] and the other builtins take
    an argument for that is not a string: an object is [[object Object]],
    an array its elements joined by commas ([null] gives nothing), and a
    number is written as [JSON.stringify] writes it. *)
Fixpoint to_string `{JSONBuiltin} (v : JsValue) : string :=
  match v with
  | JNull => "null"
  | JBool true => "true"
  | JBool false => "false"
  | JNum _ _ => JSON_stringify v
  | JStr s => s
  | JArr items =>
      String.concat ","
        (map (fun item => match item with
                          | JNull => ""
                          | _ => to_string item
                          end) items)
  | JObj _ => "[object Object]"
  end.

(** The builtin [RTCPeerConnection]. Every asynchronous method returns the
    connection after the call and, where it resolved, its result; [None]
    or [false] is a rejected promise or a thrown exception (the
    [RTCSessionDescription] and [RTCIceCandidate] constructors included). *)
Class RTCPeerConnection : Type := {
  PC : Type;
  createOffer : PC -> option JsValue * PC;
  createAnswer : PC -> option JsValue * PC;
  setLocalDescription : JsValue -> PC -> bool * PC;
  setRemoteDescription : JsValue -> PC -> bool * PC;
  addIceCandidate : JsValue -> PC -> bool * PC
}.

(** The calls a client makes on its connection object. *)
Inductive PcCall : Type :=
| CreateOffer
| CreateAnswer
| SetLocalDescription (description : JsValue)
| SetRemoteDescription (description : JsValue)
| AddIceCandidate (candidate : JsValue)
| Close.

(** What a client does that its environment can observe: a call on the
    connection object or a message handed to the network. *)
Inductive Action (Msg : Type) : Type :=
| Pc (c : PcCall)
| Net (m : Msg).

Arguments Pc {Msg} c.
Arguments Net {Msg} m.

(** ** Client code: state, exceptions and the trace of actions *)

Inductive Outcome (A : Type) : Type :=
| Done (a : A)
| Thrown.

Arguments Done {A} a.
Arguments Thrown {A}.

(** A computation over the script's global variables [S]: it returns or
    throws, leaves a new state and the actions it performed. *)
Definition Eff (S E A : Type) : Type := S -> Outcome A * S * list E.

Definition ret {S E A : Type} (a : A) : Eff S E A :=
  fun s => (Done a, s, []).

Definition bind {S E A B : Type} (c : Eff S E A) (k : A -> Eff S E B)
  : Eff S E B :=
  fun s =>
    match c s with
    | (Done a, s1, t1) =>
        match k a s1 with
        | (r, s2, t2) => (r, s2, t1 ++ t2)
        end
    | (Thrown, s1, t1) => (Thrown, s1, t1)
    end.

(** [try { c } catch (err) { console.error(...) }] *)
Definition try_catch {S E : Type} (c : Eff S E unit) : Eff S E unit :=
  fun s =>
    match c s with
    | (Done _, s1, t1) => (Done tt, s1, t1)
    | (Thrown, s1, t1) => (Done tt, s1, t1)
    end.

Definition get {S E : Type} : Eff S E S :=
  fun s => (Done s, s, []).

Definition modify {S E : Type} (f : S -> S) : Eff S E unit :=
  fun s => (Done tt, f s, []).

Definition emit {S E : Type} (e : E) : Eff S E unit :=
  fun s => (Done tt, s, [e]).

(** [if (b) { c }] *)
Definition when {S E : Type} (b : bool) (c : Eff S E unit) : Eff S E unit :=
  if b then c else ret tt.

(** [for (const x of l) { body }]; a throw leaves the loop. *)
Fixpoint for_each {S E A : Type} (body : A -> Eff S E unit) (l : list A)
  : Eff S E unit :=
  match l with
  | [] => ret tt
  | x :: rest => bind (body x) (fun _ => for_each body rest)
  end.

(** [x ← c; k] and [c;; k] sequence two computations. *)
#[global] Instance eff_ret {S E : Type} : MRet (Eff S E) :=
  fun A a => ret a.

#[global] Instance eff_bind {S E : Type} : MBind (Eff S E) :=
  fun A B k c => bind c k.

(** The trace of a computation and the state it leaves. *)
Definition trace_of {S E A : Type} (c : Eff S E A) (s : S) : list E :=
  snd (c s).

Definition state_of {S E A : Type} (c : Eff S E A) (s : S) : S :=
  snd (fst (c s)).

(** [c] respects the relation [R] between the state before, the state
    after and the trace, whether it returns or throws. *)
Definition respects {S E A : Type} (R : S -> S -> list E -> Prop)
           (c : Eff S E A) : Prop :=
  forall s, R s (state_of c s) (trace_of c s).

(** ** Asynchronous functions, turn by turn

    An [async] function runs on the script's variables in turns of the
    event loop: synchronous code up to the [await] of an operation
    outside the script (a method of the connection object, a [fetch]),
    and, once that operation has settled, the code after it in a later
    turn. Between two turns of one function the event loop may run turns
    of others. *)
Inductive Async (S E A : Type) : Type :=
| Turn (run : S -> Paused S E A)
with Paused (S E A : Type) : Type :=
| Finished (r : Outcome A) (s : S) (t : list E)
| Awaiting (s : S) (t : list E) (rest : Async S E A).

Arguments Turn {S E A} run.
Arguments Finished {S E A} r s t.
Arguments Awaiting {S E A} s t rest.

Scheme Async_mut := Induction for Async Sort Prop
  with Paused_mut := Induction for Paused Sort Prop.

(** Synchronous code: it runs within the turn. *)
Definition sync {S E A : Type} (c : Eff S E A) : Async S E A :=
  Turn (fun s => let '(r, s1, t) := c s in Finished r s1 t).

(** [await c()], for an operation [c] outside the script: it is started
    within the turn, and the function goes on with its result, or with
    its exception, in a later turn. *)
Definition await {S E A : Type} (c : Eff S E A) : Async S E A :=
  Turn (fun s =>
          let '(r, s1, t) := c s in
          Awaiting s1 t (Turn (fun s2 => Finished r s2 []))).

Definition prepend {S E A : Type} (t : list E) (p : Paused S E A)
  : Paused S E A :=
  match p with
  | Finished r s t1 => Finished r s (t ++ t1)
  | Awaiting s t1 rest => Awaiting s (t ++ t1) rest
  end.

(** Sequencing: what follows a function that has returned runs in the
    turn in which it returned. *)
Fixpoint abind {S E A B : Type} (c : Async S E A) (k : A -> Async S E B)
  : Async S E B :=
  match c with
  | Turn run => Turn (fun s => abind_paused (run s) k)
  end
with abind_paused {S E A B : Type} (p : Paused S E A) (k : A -> Async S E B)
  : Paused S E B :=
  match p with
  | Finished (Done a) s t =>
      match k a with
      | Turn run => prepend t (run s)
      end
  | Finished Thrown s t => Finished Thrown s t
  | Awaiting s t rest => Awaiting s t (abind rest k)
  end.

(** [try { c } catch (err) { console.error(...) }] around asynchronous
    code. *)
Fixpoint atry {S E : Type} (c : Async S E unit) : Async S E unit :=
  match c with
  | Turn run => Turn (fun s => atry_paused (run s))
  end
with atry_paused {S E : Type} (p : Paused S E unit) : Paused S E unit :=
  match p with
  | Finished _ s t => Finished (Done tt) s t
  | Awaiting s t rest => Awaiting s t (atry rest)
  end.

(** [if (b) { c }] *)
Definition awhen {S E : Type} (b : bool) (c : Async S E unit)
  : Async S E unit :=
  if b then c else sync (ret tt).

(** [for (const x of l) { body }] with [await]s in the body. *)
Fixpoint afor_each {S E A : Type} (body : A -> Async S E unit) (l : list A)
  : Async S E unit :=
  match l with
  | [] => sync (ret tt)
  | x :: rest => abind (body x) (fun _ => afor_each body rest)
  end.

(** The function run with no turn of another in between. *)
Fixpoint uninterrupted {S E A : Type} (c : Async S E A) : Eff S E A :=
  match c with
  | Turn run => fun s => finish (run s)
  end
with finish {S E A : Type} (p : Paused S E A) : Outcome A * S * list E :=
  match p with
  | Finished r s t => (r, s, t)
  | Awaiting s t rest =>
      let '(r, s1, t1) := uninterrupted rest s in (r, s1, t ++ t1)
  end.

(** What wakes the event loop: an asynchronous function is called (a
    timer fires, a response arrives), or the operation that the [i]-th
    function in flight awaits has settled. *)
Inductive Wake (S E : Type) : Type :=
| Call (c : Async S E unit)
| Settle (i : nat).

Arguments Call {S E} c.
Arguments Settle {S E} i.

Definition take_turn {S E A : Type} (c : Async S E A) (s : S)
  : Paused S E A :=
  match c with
  | Turn run => run s
  end.

(** The event loop: each wake runs one turn on the variables as they are
    then. It yields the variables, the actions in the order in which
    they happened, and the functions still in flight. *)
Fixpoint event_loop {S E : Type} (wakes : list (Wake S E))
         (in_flight : list (Async S E unit)) (s : S)
  : S * list E * list (Async S E unit) :=
  match wakes with
  | [] => (s, [], in_flight)
  | Call c :: rest =>
      match take_turn c s with
      | Finished _ s1 t1 =>
          let '(s2, t2, pending) := event_loop rest in_flight s1 in
          (s2, t1 ++ t2, pending)
      | Awaiting s1 t1 c1 =>
          let '(s2, t2, pending) := event_loop rest (in_flight ++ [c1]) s1 in
          (s2, t1 ++ t2, pending)
      end
  | Settle i :: rest =>
      match in_flight !! i with
      | None => event_loop rest in_flight s
      | Some c =>
          match take_turn c s with
          | Finished _ s1 t1 =>
              let '(s2, t2, pending) := event_loop rest (delete i in_flight) s1 in
              (s2, t1 ++ t2, pending)
          | Awaiting s1 t1 c1 =>
              let '(s2, t2, pending) :=
                event_loop rest (<[i := c1]> in_flight) s1 in
              (s2, t1 ++ t2, pending)
          end
      end
  end.


(** ** The key-value list store ([@vercel/kv]) *)

Module KV.

(** A Redis index: a negative one counts from the tail. *)
Definition index_of (len i : Z) : Z :=
  if (i <? 0)%Z then (len + i)%Z else i.

(** [kv.lpush(key, value)], for a [value] that is a string: it is stored
    as it is, and becomes the head. *)
Definition lpush (key value : string) (kv : gmap string (list string))
  : gmap string (list string) :=
  <[key := value :: kv !!! key]> kv.

Section Client.

Context `{JSONBuiltin}.

(** What the client hands back for a stored text. It deserializes what it
    reads: the text comes back as the value it denotes as JSON, and as
    the text itself where it denotes none; a number whose text is not the
    one that [String] gives it comes back as the text too. *)
Definition deserialize (text : string) : JsValue :=
  match JSON_parse text with
  | Some (JNum m e) =>
      if String.eqb (to_string (JNum m e)) text then JNum m e else JStr text
  | Some v => v
  | None => JStr text
  end.

(** [kv.lrange(key, start, stop)]: the elements between two inclusive
    indices, each as the client hands it back; a missing key is the empty
    list. *)
Definition lrange (key : string) (start stop : Z)
           (kv : gmap string (list string)) : list JsValue :=
  let l := kv !!! key in
  let len := Z.of_nat (length l) in
  let s := Z.max 0 (index_of len start) in
  let e := Z.min (len - 1) (index_of len stop) in
  if (e <? s)%Z then []
  else deserialize <$> take (Z.to_nat (e - s + 1)) (drop (Z.to_nat s) l).

End Client.

(** [kv.del(key)] *)
Definition del (key : string) (kv : gmap string (list string))
  : gmap string (list string) :=
  delete key kv.

End KV.

(** ** The polling binding: the serverless functions ([api/]) *)

Module Api.

(** The message [{ roomId, fromPeer, type, data }] a client posts; as the
    body of a request every property may be absent. *)
Record Message : Type := {
  msg_roomId : option string;
  msg_fromPeer : option string;
  msg_type : option string;
  msg_data : option JsValue
}.

Record Request : Type := {
  method : string;
  query_roomId : option string;
  body : option Message
}.

Inductive ResponseBody : Type :=
| ErrorBody (error : string)
| ErrorSignalsBody (error : string) (signals : list JsValue)
| SignalsBody (signals : list JsValue)
| OkBody.

Record Response : Type := {
  status : Z;
  json : ResponseBody
}.

(** The template literal [`signals:${roomId}`]. *)
Definition signals_key (room : string) : string := "signals:" +:+ room.

(** The message of the [TypeError] raised by destructuring an absent body. *)
Definition destructure_error : string :=
  "Cannot destructure property 'roomId' of 'req.body' as it is undefined.".

Definition missing_error : string :=
  "Missing one of {roomId, fromPeer, type, data}".

(** A body that lacks one of the four properties. *)
Definition lacks_field (b : Message) : bool :=
  is_undefined (msg_roomId b) || is_undefined (msg_fromPeer b)
  || is_undefined (msg_type b) || is_undefined (msg_data b).

(** [{ fromPeer, type, data, timestamp: Date.now() }] *)
Definition make_envelope (from type : string) (data : JsValue) (now : Z)
  : JsValue :=
  JObj [("fromPeer", JStr from); ("type", JStr type);
        ("data", data); ("timestamp", JNum now 0)].

Section Handlers.

Context `{JSONBuiltin}.

(** The [try] block of [api/sendSignal]; [inl msg] is [throw new Error(msg)]. *)
Definition sendSignal_try (now : Z) (req : Request)
           (kv : gmap string (list string))
  : string + gmap string (list string) :=
  match body req with
  | None => inl destructure_error
  | Some b =>
      if negb (truthy (msg_roomId b)) || negb (truthy (msg_fromPeer b))
         || negb (truthy (msg_type b)) || is_undefined (msg_data b)
      then inl missing_error
      else
        match msg_roomId b, msg_fromPeer b, msg_type b, msg_data b with
        | Some room, Some from, Some type, Some data =>
            let envelope := make_envelope from type data now in
            inr (KV.lpush (signals_key room) (JSON_stringify envelope) kv)
        | _, _, _, _ => inl missing_error
        end
  end.

(** [api/sendSignal]: [handler(req, res)], with [Date.now()] as [now]. *)
Definition sendSignal (now : Z) (req : Request)
           (kv : gmap string (list string))
  : gmap string (list string) * Response :=
  if negb (String.eqb (method req) "POST")
  then (kv, {| status := 405; json := ErrorBody "Only POST is allowed" |})
  else
    match sendSignal_try now req kv with
    | inr kv' => (kv', {| status := 200; json := OkBody |})
    | inl msg => (kv, {| status := 400; json := ErrorBody msg |})
    end.

(** [str => { try { return JSON.parse(str) } catch { return null } }],
    on an element of [rawList] as the store hands it back: [JSON.parse]
    reads the string that its argument converts to. *)
Definition parse_or_null (element : JsValue) : JsValue :=
  match JSON_parse (to_string element) with
  | Some v => v
  | None => JNull
  end.

(** [rawList.map(...).filter(e => e !== null)] *)
Definition parse_envelopes (rawList : list JsValue) : list JsValue :=
  List.filter not_null (List.map parse_or_null rawList).

(** The handler of [api/getSignals] runs two commands on the store, each
    behind an [await]: [kv.lrange], and later [kv.del]. [Drain] is the
    handler between the two: it has answered already, or it has the
    answer ready and the key still to delete. *)
Inductive Drain : Type :=
| Answered (res : Response)
| Deleting (key : string) (res : Response).

(** [api/getSignals] up to [await kv.del(key)], on the store as
    [kv.lrange] finds it. *)
Definition getSignals_read (req : Request) (kv : gmap string (list string))
  : Drain :=
  if negb (String.eqb (method req) "GET")
  then Answered {| status := 405; json := ErrorBody "Only GET is allowed" |}
  else
    match query_roomId req with
    | Some room =>
        if negb (truthy (Some room))
        then Answered {| status := 400;
                         json := ErrorSignalsBody "Missing roomId" [] |}
        else
          let key := signals_key room in
          let rawList := KV.lrange key 0 (-1) kv in
          if Nat.eqb (length rawList) 0
          then Answered {| status := 200; json := SignalsBody [] |}
          else
            let envelopes := parse_envelopes rawList in
            Deleting key {| status := 200; json := SignalsBody envelopes |}
    | None => Answered {| status := 400;
                          json := ErrorSignalsBody "Missing roomId" [] |}
    end.

(** The rest of the handler, on the store as [kv.del] finds it. *)
Definition getSignals_finish (d : Drain) (kv : gmap string (list string))
  : gmap string (list string) * Response :=
  match d with
  | Answered res => (kv, res)
  | Deleting key res => (KV.del key kv, res)
  end.

(** [api/getSignals]: [handler(req, res)], with no other command on the
    store between its two. *)
Definition getSignals (req : Request) (kv : gmap string (list string))
  : gmap string (list string) * Response :=
  getSignals_finish (getSignals_read req kv) kv.

(** What a drain returns for one queue entry: what the handler's
    [JSON.parse] yields for the entry as the store hands it back, unless
    it throws or yields [null]. *)
Definition returned_for (text : string) : option JsValue :=
  match JSON_parse (to_string (KV.deserialize text)) with
  | Some JNull => None
  | Some v => Some v
  | None => None
  end.

(** *** Runs of the two endpoints *)

Inductive Call : Type :=
| CallSendSignal (now : Z) (req : Request)
| CallGetSignals (req : Request).

Definition serve (c : Call) (kv : gmap string (list string))
  : gmap string (list string) * Response :=
  match c with
  | CallSendSignal now req => sendSignal now req kv
  | CallGetSignals req => getSignals req kv
  end.

(** Serve the calls one after the other; keep each call with its response. *)
Fixpoint run (calls : list Call) (kv : gmap string (list string))
  : gmap string (list string) * list (Call * Response) :=
  match calls with
  | [] => (kv, [])
  | c :: rest =>
      let '(kv1, r) := serve c kv in
      let '(kv2, log) := run rest kv1 in
      (kv2, (c, r) :: log)
  end.

(** The envelopes that the drains of [room] returned, latest drain first. *)
Fixpoint delivered (room : string) (log : list (Call * Response))
  : list JsValue :=
  match log with
  | [] => []
  | (CallGetSignals req, {| status := _; json := SignalsBody l |}) :: rest =>
      if decide (query_roomId req = Some room)
      then delivered room rest ++ l
      else delivered room rest
  | _ :: rest => delivered room rest
  end.

(** *** Requests as the script and its peers make them *)

(** The condition under which the handler stores a message: the three
    strings are truthy and [data] is not [undefined] ([null] is allowed). *)
Definition well_formed (b : Message) : bool :=
  truthy (msg_roomId b) && truthy (msg_fromPeer b) && truthy (msg_type b)
  && negb (is_undefined (msg_data b)).

(** [fetch('/api/sendSignal', { method: 'POST', body: JSON.stringify(b) })] *)
Definition post (now : Z) (b : Message) : Call :=
  CallSendSignal now
    {| method := "POST"; query_roomId := None; body := Some b |}.

(** [fetch(`/api/getSignals?roomId=${room}`)] *)
Definition drain (room : string) : Call :=
  CallGetSignals
    {| method := "GET"; query_roomId := Some room; body := None |}.

(** A message for [room] with all its properties. *)
Definition message_for (room from type : string) (data : JsValue) : Message :=
  {| msg_roomId := Some room; msg_fromPeer := Some from;
     msg_type := Some type; msg_data := Some data |}.

(** What a peer pushes: sender, type, payload and the time of arrival. *)
Record Push : Type := {
  push_from : string;
  push_type : string;
  push_data : JsValue;
  push_now : Z
}.

Definition push_call (room : string) (p : Push) : Call :=
  post (push_now p)
       (message_for room (push_from p) (push_type p) (push_data p)).

Definition push_envelope (p : Push) : JsValue :=
  make_envelope (push_from p) (push_type p) (push_data p) (push_now p).

(** The call names [room]: a push into it or a drain of it. *)
Definition concerns (room : string) (c : Call) : bool :=
  match c with
  | CallSendSignal _ req =>
      match body req with
      | Some b => bool_decide (msg_roomId b = Some room)
      | None => false
      end
  | CallGetSignals req => bool_decide (query_roomId req = Some room)
  end.

End Handlers.

End Api.

(** ** The polling binding: the browser client ([script.js]) *)

Module Script.

Import Api.

(** An envelope as the client destructures it: [{ fromPeer, type, data }]. *)
Record Envelope : Type := {
  fromPeer : string;
  type : string;
  data : JsValue;
  timestamp : Z
}.

Section Client.

Context `{RTCPeerConnection}.

(** The script's state variables once [joinRoom] has run. *)
Record Client : Type := {
  roomId : string;
  clientId : string;
  peerConnection : PC;
  peersInRoom : list string;
  hasSentOffer : bool
}.

Definition set_peerConnection (pc : PC) (c : Client) : Client :=
  {| roomId := roomId c; clientId := clientId c; peerConnection := pc;
     peersInRoom := peersInRoom c; hasSentOffer := hasSentOffer c |}.

Definition set_peersInRoom (l : list string) (c : Client) : Client :=
  {| roomId := roomId c; clientId := clientId c;
     peerConnection := peerConnection c;
     peersInRoom := l; hasSentOffer := hasSentOffer c |}.

Definition set_hasSentOffer (b : bool) (c : Client) : Client :=
  {| roomId := roomId c; clientId := clientId c;
     peerConnection := peerConnection c;
     peersInRoom := peersInRoom c; hasSentOffer := b |}.

(** [Set.prototype.add]: insertion order, no duplicates. *)
Definition set_add (x : string) (l : list string) : list string :=
  if decide (x ∈ l) then l else l ++ [x].

(** A call on [peerConnection] that resolves to a value. *)
Definition pc_value (call : PcCall) (f : PC -> option JsValue * PC)
  : Eff Client (Action Message) JsValue :=
  fun c =>
    match f (peerConnection c) with
    | (Some v, pc) => (Done v, set_peerConnection pc c, [Pc call])
    | (None, pc) => (Thrown, set_peerConnection pc c, [Pc call])
    end.

(** A call on [peerConnection] that resolves to nothing. *)
Definition pc_unit (call : PcCall) (f : PC -> bool * PC)
  : Eff Client (Action Message) unit :=
  fun c =>
    match f (peerConnection c) with
    | (true, pc) => (Done tt, set_peerConnection pc c, [Pc call])
    | (false, pc) => (Thrown, set_peerConnection pc c, [Pc call])
    end.

(** [sendSignal(message)]: the POST is handed to the network; a failed
    [fetch] is caught and logged inside. *)
Definition sendSignal (message : Message) : Eff Client (Action Message) unit :=
  emit (Net message).

Definition message (c : Client) (type : string) (data : JsValue) : Message :=
  {| msg_roomId := Some (roomId c); msg_fromPeer := Some (clientId c);
     msg_type := Some type; msg_data := Some data |}.

(** [createAndSendOffer(otherPeerId)] *)
Definition createAndSendOffer (otherPeerId : string)
  : Eff Client (Action Message) unit :=
  try_catch
    (offer ← pc_value CreateOffer createOffer;
     pc_unit (SetLocalDescription offer) (setLocalDescription offer);;
     c ← get;
     sendSignal (message c "offer" offer)).

(** The branch [if (type === 'join')]. *)
Definition on_join (from : string) : Eff Client (Action Message) unit :=
  (modify (fun c => set_peersInRoom (set_add from (peersInRoom c)) c);;
   c ← get;
   when (negb (hasSentOffer c) && Nat.eqb (length (peersInRoom c)) 1)
     match peersInRoom c with
     | otherPeerId :: _ =>
         when (js_lt (clientId c) otherPeerId)
           (createAndSendOffer otherPeerId;;
            modify (set_hasSentOffer true))
     | [] => ret tt
     end).

(** The branch [if (type === 'offer')]. *)
Definition on_offer (data : JsValue) : Eff Client (Action Message) unit :=
  (pc_unit (SetRemoteDescription data) (setRemoteDescription data);;
   answer ← pc_value CreateAnswer createAnswer;
   pc_unit (SetLocalDescription answer) (setLocalDescription answer);;
   c ← get;
   sendSignal (message c "answer" answer);;
   modify (set_hasSentOffer true)).

(** The branch [if (type === 'answer')]. *)
Definition on_answer (data : JsValue) : Eff Client (Action Message) unit :=
  pc_unit (SetRemoteDescription data) (setRemoteDescription data).

(** The branch [if (type === 'ice-candidate')]. *)
Definition on_ice_candidate (data : JsValue)
  : Eff Client (Action Message) unit :=
  try_catch (pc_unit (AddIceCandidate data) (addIceCandidate data)).

(** The body of the loop of [handleIncomingSignals]. *)
Definition handle_envelope (env : Envelope)
  : Eff Client (Action Message) unit :=
  (c ← get;
   if String.eqb (fromPeer env) (clientId c)
   then ret tt
   else
     (when (String.eqb (type env) "join") (on_join (fromPeer env));;
      when (String.eqb (type env) "offer") (on_offer (data env));;
      when (String.eqb (type env) "answer") (on_answer (data env));;
      when (String.eqb (type env) "ice-candidate")
        (on_ice_candidate (data env)))).

(** [handleIncomingSignals(envelopes)] *)
Definition handleIncomingSignals (envelopes : list Envelope)
  : Eff Client (Action Message) unit :=
  for_each handle_envelope (rev envelopes).

(** One tick of the interval of [startPolling], given the [signals] of the
    response. *)
Definition poll (signals : list Envelope) : Eff Client (Action Message) unit :=
  try_catch
    (if Nat.eqb (length signals) 0 then ret tt
     else handleIncomingSignals signals).

(** The ticks of the interval, one after the other. *)
Definition polling (batches : list (list Envelope))
  : Eff Client (Action Message) unit :=
  for_each poll batches.

(** *** The same functions, turn by turn

    The functions above run each call to its end in one step. Here they
    are as the event loop runs them: every [await] of a method of the
    connection object, and of the [fetch] in [sendSignal], ends a turn. *)

(** [sendSignal(message)] *)
Definition sendSignal_turns (message : Message)
  : Async Client (Action Message) unit :=
  atry (await (emit (Net message))).

(** [createAndSendOffer(otherPeerId)] *)
Definition createAndSendOffer_turns (otherPeerId : string)
  : Async Client (Action Message) unit :=
  atry
    (abind (await (pc_value CreateOffer createOffer)) (fun offer =>
     abind (await (pc_unit (SetLocalDescription offer)
                           (setLocalDescription offer))) (fun _ =>
     abind (sync get) (fun c =>
     sendSignal_turns (message c "offer" offer))))).

(** The branch [if (type === 'join')]: the latch is set in the turn in
    which [createAndSendOffer] returns. *)
Definition on_join_turns (from : string)
  : Async Client (Action Message) unit :=
  abind
    (sync (modify (fun c => set_peersInRoom (set_add from (peersInRoom c)) c)))
    (fun _ =>
     abind (sync get) (fun c =>
       awhen (negb (hasSentOffer c) && Nat.eqb (length (peersInRoom c)) 1)
         match peersInRoom c with
         | otherPeerId :: _ =>
             awhen (js_lt (clientId c) otherPeerId)
               (abind (createAndSendOffer_turns otherPeerId) (fun _ =>
                sync (modify (set_hasSentOffer true))))
         | [] => sync (ret tt)
         end)).

(** The branch [if (type === 'offer')]. *)
Definition on_offer_turns (data : JsValue)
  : Async Client (Action Message) unit :=
  abind (await (pc_unit (SetRemoteDescription data)
                        (setRemoteDescription data))) (fun _ =>
  abind (await (pc_value CreateAnswer createAnswer)) (fun answer =>
  abind (await (pc_unit (SetLocalDescription answer)
                        (setLocalDescription answer))) (fun _ =>
  abind (sync get) (fun c =>
  abind (sendSignal_turns (message c "answer" answer)) (fun _ =>
  sync (modify (set_hasSentOffer true))))))).

(** The branch [if (type === 'answer')]. *)
Definition on_answer_turns (data : JsValue)
  : Async Client (Action Message) unit :=
  await (pc_unit (SetRemoteDescription data) (setRemoteDescription data)).

(** The branch [if (type === 'ice-candidate')]. *)
Definition on_ice_candidate_turns (data : JsValue)
  : Async Client (Action Message) unit :=
  atry (await (pc_unit (AddIceCandidate data) (addIceCandidate data))).

(** The body of the loop of [handleIncomingSignals]. *)
Definition handle_envelope_turns (env : Envelope)
  : Async Client (Action Message) unit :=
  abind (sync get) (fun c =>
    if String.eqb (fromPeer env) (clientId c)
    then sync (ret tt)
    else
      abind (awhen (String.eqb (type env) "join")
                   (on_join_turns (fromPeer env))) (fun _ =>
      abind (awhen (String.eqb (type env) "offer")
                   (on_offer_turns (data env))) (fun _ =>
      abind (awhen (String.eqb (type env) "answer")
                   (on_answer_turns (data env))) (fun _ =>
      awhen (String.eqb (type env) "ice-candidate")
            (on_ice_candidate_turns (data env)))))).

(** [handleIncomingSignals(envelopes)] *)
Definition handleIncomingSignals_turns (envelopes : list Envelope)
  : Async Client (Action Message) unit :=
  afor_each handle_envelope_turns (rev envelopes).

(** The callback of the interval of [startPolling], from the [signals]
    of the response on: [setInterval] calls it again when the interval
    has passed, whether or not the call before has returned. *)
Definition poll_turns (signals : list Envelope)
  : Async Client (Action Message) unit :=
  atry
    (if Nat.eqb (length signals) 0 then sync (ret tt)
     else handleIncomingSignals_turns signals).

(** The script when [joinRoom] has run: no peer seen, no offer sent. *)
Definition joined (room id : string) (pc : PC) : Client :=
  {| roomId := room; clientId := id; peerConnection := pc;
     peersInRoom := []; hasSentOffer := false |}.

(** The envelope of the [join] message that [from] posted at 4.6. *)
Definition join_envelope (from : string) (now : Z) : Envelope :=
  {| fromPeer := from; type := "join"; data := JNull; timestamp := now |}.

(** The offers among the actions of a trace. *)
Definition is_offer (a : Action Message) : bool :=
  match a with
  | Net m => bool_decide (msg_type m = Some "offer")
  | Pc _ => false
  end.

Definition offers_sent (t : list (Action Message)) : nat :=
  length (List.filter is_offer t).

(** Whether the client set out to make an offer: the first step of
    [createAndSendOffer]. *)
Definition is_createOffer (a : Action Message) : bool :=
  match a with
  | Pc CreateOffer => true
  | _ => false
  end.

Definition elected (t : list (Action Message)) : bool :=
  existsb is_createOffer t.

(** The offers that the latch still allows. *)
Definition budget (c : Client) : nat :=
  if hasSentOffer c then 0 else 1.

(** [fromPeer !== clientId] *)
Definition foreign (id : string) (env : Envelope) : bool :=
  negb (String.eqb (fromPeer env) id).

(** A step keeps the script's identity and pays its offers from the
    budget. *)
Definition within_budget (c c' : Client) (t : list (Action Message)) : Prop :=
  clientId c' = clientId c /\ (offers_sent t + budget c' <= budget c)%nat.

(** *** The other listeners of the script, and its life *)

(** 4.4: the listener of [icecandidate]; [event.candidate] is [null] when
    the gathering ends. *)
Definition on_icecandidate (candidate : option JsValue)
  : Eff Client (Action Message) unit :=
  match candidate with
  | Some found => c ← get; sendSignal (message c "ice-candidate" found)
  | None => ret tt
  end.

(** 4.6: announce our presence. *)
Definition announce : Eff Client (Action Message) unit :=
  c ← get; sendSignal (message c "join" JNull).

(** What happens to the script once its connection object exists: the
    interval fires and reads [signals], or a candidate is gathered. *)
Inductive Event : Type :=
| Tick (signals : list Envelope)
| IceCandidateFound (candidate : option JsValue).

Definition react (e : Event) : Eff Client (Action Message) unit :=
  match e with
  | Tick signals => poll signals
  | IceCandidateFound candidate => on_icecandidate candidate
  end.

(** [initializeMediaAndConnection] from 4.6 on: the announcement, then
    the events as they come. *)
Definition session (events : list Event) : Eff Client (Action Message) unit :=
  announce;; for_each react events.

(** The message is the script's own: for its room, under its id, with a
    type and a payload. *)
Definition signed (c : Client) (m : Message) : Prop :=
  exists type data,
    type ≠ "" /\ m = message c type data.

(** What a step may do to the variables and what it may send: the room
    and the id stay, the latch is never cleared, the set of peers only
    grows, keeps its elements distinct and never takes the script's own
    id, and every message sent is the script's own. *)
Definition orderly (c c' : Client) (t : list (Action Message)) : Prop :=
  roomId c' = roomId c
  /\ clientId c' = clientId c
  /\ (hasSentOffer c = true -> hasSentOffer c' = true)
  /\ (exists more, peersInRoom c' = peersInRoom c ++ more)
  /\ (NoDup (peersInRoom c) -> NoDup (peersInRoom c'))
  /\ (clientId c ∉ peersInRoom c -> clientId c ∉ peersInRoom c')
  /\ (forall m, Net m ∈ t -> signed c m).

End Client.

End Script.

(** ** The live-channel binding: the Socket.IO server ([server.js]) *)

Module Server.

(** What a client emits to the server. [targetId] is [null] where the
    sending script has no counterpart yet. *)
Inductive ClientEvent : Type :=
| JoinRoom (roomId : string)
| OfferTo (targetId : option string) (offer : JsValue)
| AnswerTo (targetId : option string) (answer : JsValue)
| IceCandidateTo (targetId : option string) (candidate : JsValue).

(** What the server emits to a client. *)
Inductive ServerEvent : Type :=
| NewParticipant (socketId : string)
| Offer (callerId : string) (offer : JsValue)
| Answer (responderId : string) (answer : JsValue)
| IceCandidate (fromId : string) (candidate : JsValue)
| PeerDisconnected (socketId : string).

(** What happens to the server: a socket connects, one of its events
    arrives, or it disconnects. *)
Inductive Input : Type :=
| Connect (socket : string)
| FromClient (socket : string) (e : ClientEvent)
| Disconnect (socket : string).

(** The state held by [io]: the adapter's rooms (a room name to the ids of
    the sockets in it; every socket is in the room of its own id), and for
    every connected socket the [roomId] of each run of its [join-room]
    handler, that is, of each set of [offer], [answer], [ice-candidate] and
    [disconnect] listeners registered on it. *)
Record State : Type := {
  rooms : gmap string (gset string);
  listeners : gmap string (list string)
}.

Definition init : State := {| rooms := ∅; listeners := ∅ |}.

(** One emitted event: the receiving socket and what it receives. *)
Definition Delivery : Type := string * ServerEvent.

(** [socket.join(room)] *)
Definition join (socket room : string) (r : gmap string (gset string))
  : gmap string (gset string) :=
  <[room := {[socket]} ∪ r !!! room]> r.

(** The socket leaves every room when its connection closes. *)
Definition leave_all (socket : string) (r : gmap string (gset string))
  : gmap string (gset string) :=
  (fun members => members ∖ {[socket]}) <$> r.

(** [io.to(room).emit(e)]: to every socket in the room; [null] names no
    room. *)
Definition io_to (r : gmap string (gset string)) (room : option string)
           (e : ServerEvent) : list Delivery :=
  match room with
  | Some name => (fun t => (t, e)) <$> elements (r !!! name)
  | None => []
  end.

(** [socket.to(room).emit(e)]: to every socket in the room, except the
    sockets in the room named by the id of [socket]. The operator that
    [socket.to] makes leaves that one room out: it is how [socket] itself
    is left out, together with whoever else has joined the room of that
    name. [socket] is never among the receivers: it is in the room of its
    id from its connection on, and in no room when its [disconnect]
    listeners run. *)
Definition socket_to (r : gmap string (gset string)) (socket room : string)
           (e : ServerEvent) : list Delivery :=
  (fun t => (t, e)) <$> elements (r !!! room ∖ ({[socket]} ∪ r !!! socket)).

(** An event other than [join-room] runs every listener registered for it,
    one per earlier [join-room] of this socket. *)
Definition relay (r : gmap string (gset string)) (socket : string)
           (registered : list string) (e : ClientEvent) : list Delivery :=
  match e with
  | JoinRoom _ => []
  | OfferTo targetId offer =>
      concat ((fun _ => io_to r targetId (Offer socket offer)) <$> registered)
  | AnswerTo targetId answer =>
      concat ((fun _ => io_to r targetId (Answer socket answer)) <$> registered)
  | IceCandidateTo targetId candidate =>
      concat ((fun _ => io_to r targetId (IceCandidate socket candidate))
                <$> registered)
  end.

(** One step of the server. A socket id connects once, and events of a
    socket that is not connected do not occur; the step ignores both. *)
Definition step (st : State) (i : Input) : State * list Delivery :=
  match i with
  | Connect socket =>
      match listeners st !! socket with
      | Some _ => (st, [])
      | None =>
          ({| rooms := join socket socket (rooms st);
              listeners := <[socket := []]> (listeners st) |}, [])
      end
  | FromClient socket e =>
      match listeners st !! socket with
      | None => (st, [])
      | Some registered =>
          match e with
          | JoinRoom roomId =>
              let rooms' := join socket roomId (rooms st) in
              ({| rooms := rooms';
                  listeners := <[socket := registered ++ [roomId]]>
                                 (listeners st) |},
               socket_to rooms' socket roomId (NewParticipant socket))
          | _ => (st, relay (rooms st) socket registered e)
          end
      end
  | Disconnect socket =>
      match listeners st !! socket with
      | None => (st, [])
      | Some registered =>
          let rooms' := leave_all socket (rooms st) in
          ({| rooms := rooms'; listeners := delete socket (listeners st) |},
           concat ((fun roomId =>
                      socket_to rooms' socket roomId (PeerDisconnected socket))
                     <$> registered))
      end
  end.

(** The server fed a sequence of inputs: the last state and everything it
    emitted, in order. *)
Fixpoint run (st : State) (inputs : list Input) : State * list Delivery :=
  match inputs with
  | [] => (st, [])
  | i :: rest =>
      let '(st1, out1) := step st i in
      let '(st2, out2) := run st1 rest in
      (st2, out1 ++ out2)
  end.

(** The events that reached one socket. *)
Definition inbox (socket : string) (out : list Delivery) : list ServerEvent :=
  snd <$> List.filter (fun d => bool_decide (fst d = socket)) out.

(** The socket is connected. *)
Definition connected (st : State) (socket : string) : Prop :=
  is_Some (listeners st !! socket).

(** The socket is connected and has emitted [join-room] for [room]. *)
Definition has_joined (st : State) (socket room : string) : Prop :=
  exists registered,
    listeners st !! socket = Some registered /\ room ∈ registered.

(** Every connected socket is in the room of its own id. *)
Definition own_rooms (st : State) : Prop :=
  forall socket, connected st socket -> socket ∈ rooms st !!! socket.

(** The [targetId] of a signaling message. *)
Definition targetId_of (e : ClientEvent) : option string :=
  match e with
  | JoinRoom _ => None
  | OfferTo targetId _ => targetId
  | AnswerTo targetId _ => targetId
  | IceCandidateTo targetId _ => targetId
  end.

(** The server, in state [st], relays the message [e] of [sender] to
    [target] as [ev]: [target] receives [ev], nothing else is emitted and
    nobody outside the room named [target] receives it; the state stays. *)
Definition relayed_to (st : State) (sender target : string)
           (e : ClientEvent) (ev : ServerEvent) : Prop :=
  fst (step st (FromClient sender e)) = st
  /\ (target, ev) ∈ snd (step st (FromClient sender e))
  /\ forall d, d ∈ snd (step st (FromClient sender e)) ->
                snd d = ev /\ fst d ∈ rooms st !!! target.

(** Every member of a room is a connected socket. *)
Definition members_connected (st : State) : Prop :=
  forall room t, t ∈ rooms st !!! room -> connected st t.

(** The [join-room] events of [socket] among the inputs. *)
Definition is_join_room_of (socket : string) (i : Input) : bool :=
  match i with
  | FromClient s (JoinRoom _) => bool_decide (s = socket)
  | _ => false
  end.

Definition joins (socket : string) (inputs : list Input) : nat :=
  length (List.filter (is_join_room_of socket) inputs).

End Server.

(** ** The live-channel binding: the browser client ([public/script.js]) *)

Module PublicScript.

Import Server.

(** The text of [statusDisplay]. *)
Inductive Status : Type :=
| Connecting
| Connected
| Disconnected
| PeerLeft.

Section Client.

Context `{RTCPeerConnection}.

(** The script's global variables; [None] is [null]. *)
Record Client : Type := {
  roomId : option string;
  peerConnection : option PC;
  otherPeerId : option string;
  statusDisplay : Status
}.

Definition set_peerConnection (pc : option PC) (c : Client) : Client :=
  {| roomId := roomId c; peerConnection := pc;
     otherPeerId := otherPeerId c; statusDisplay := statusDisplay c |}.

Definition set_otherPeerId (id : option string) (c : Client) : Client :=
  {| roomId := roomId c; peerConnection := peerConnection c;
     otherPeerId := id; statusDisplay := statusDisplay c |}.

Definition set_statusDisplay (s : Status) (c : Client) : Client :=
  {| roomId := roomId c; peerConnection := peerConnection c;
     otherPeerId := otherPeerId c; statusDisplay := s |}.

(** A method call on [peerConnection] that resolves to a value; on [null]
    it is a [TypeError] and nothing is called. *)
Definition pc_value (call : PcCall) (f : PC -> option JsValue * PC)
  : Eff Client (Action ClientEvent) JsValue :=
  fun c =>
    match peerConnection c with
    | None => (Thrown, c, [])
    | Some pc =>
        match f pc with
        | (Some v, pc') => (Done v, set_peerConnection (Some pc') c, [Pc call])
        | (None, pc') => (Thrown, set_peerConnection (Some pc') c, [Pc call])
        end
    end.

(** A method call on [peerConnection] that resolves to nothing. *)
Definition pc_unit (call : PcCall) (f : PC -> bool * PC)
  : Eff Client (Action ClientEvent) unit :=
  fun c =>
    match peerConnection c with
    | None => (Thrown, c, [])
    | Some pc =>
        match f pc with
        | (true, pc') => (Done tt, set_peerConnection (Some pc') c, [Pc call])
        | (false, pc') => (Thrown, set_peerConnection (Some pc') c, [Pc call])
        end
    end.

(** [socket.emit(...)] *)
Definition socket_emit (e : ClientEvent) : Eff Client (Action ClientEvent) unit :=
  emit (Net e).

(** [createAndSendOffer()] *)
Definition createAndSendOffer : Eff Client (Action ClientEvent) unit :=
  try_catch
    (offer ← pc_value CreateOffer createOffer;
     pc_unit (SetLocalDescription offer) (setLocalDescription offer);;
     c ← get;
     socket_emit (OfferTo (otherPeerId c) offer)).

(** [socket.on("new-participant", (socketId) => ...)] *)
Definition on_new_participant (socketId : string)
  : Eff Client (Action ClientEvent) unit :=
  c ← get;
  when (negb (truthy (otherPeerId c)))
    (modify (set_otherPeerId (Some socketId));;
     createAndSendOffer).

(** [socket.on("offer", async ({ callerId, offer }) => ...)] *)
Definition on_offer (callerId : string) (offer : JsValue)
  : Eff Client (Action ClientEvent) unit :=
  modify (set_otherPeerId (Some callerId));;
  try_catch
    (pc_unit (SetRemoteDescription offer) (setRemoteDescription offer);;
     answer ← pc_value CreateAnswer createAnswer;
     pc_unit (SetLocalDescription answer) (setLocalDescription answer);;
     c ← get;
     socket_emit (AnswerTo (otherPeerId c) answer)).

(** [socket.on("answer", async ({ responderId, answer }) => ...)] *)
Definition on_answer (responderId : string) (answer : JsValue)
  : Eff Client (Action ClientEvent) unit :=
  try_catch
    (pc_unit (SetRemoteDescription answer) (setRemoteDescription answer)).

(** [socket.on("ice-candidate", async ({ fromId, candidate }) => ...)] *)
Definition on_ice_candidate (fromId : string) (candidate : JsValue)
  : Eff Client (Action ClientEvent) unit :=
  try_catch (pc_unit (AddIceCandidate candidate) (addIceCandidate candidate)).

(** [socket.on("peer-disconnected", (socketId) => ...)] *)
Definition on_peer_disconnected (socketId : string)
  : Eff Client (Action ClientEvent) unit :=
  c ← get;
  when (bool_decide (Some socketId = otherPeerId c))
    (modify (set_statusDisplay PeerLeft);;
     match peerConnection c with
     | Some pc =>
         emit (Pc Close);;
         modify (set_peerConnection None)
     | None => ret tt
     end;;
     modify (set_otherPeerId None)).

(** The listener that an event of the server runs. *)
Definition handle (e : ServerEvent) : Eff Client (Action ClientEvent) unit :=
  match e with
  | NewParticipant socketId => on_new_participant socketId
  | Offer callerId offer => on_offer callerId offer
  | Answer responderId answer => on_answer responderId answer
  | IceCandidate fromId candidate => on_ice_candidate fromId candidate
  | PeerDisconnected socketId => on_peer_disconnected socketId
  end.

Definition handle_all (events : list ServerEvent)
  : Eff Client (Action ClientEvent) unit :=
  for_each handle events.

(** The offers among the actions of a trace. *)
Definition is_offer (a : Action ClientEvent) : bool :=
  match a with
  | Net (OfferTo _ _) => true
  | _ => false
  end.

Definition offers_sent (t : list (Action ClientEvent)) : nat :=
  length (List.filter is_offer t).

(** Whether the client set out to make an offer: [createAndSendOffer] ran. *)
Definition is_createOffer (a : Action ClientEvent) : bool :=
  match a with
  | Pc CreateOffer => true
  | _ => false
  end.

Definition elected (t : list (Action ClientEvent)) : bool :=
  existsb is_createOffer t.

(** The offers that the script can still send: one while it has a
    connection object and no counterpart, none otherwise. *)
Definition budget (c : Client) : nat :=
  match peerConnection c with
  | Some _ => if truthy (otherPeerId c) then 0 else 1
  | None => 0
  end.

Definition within_budget (c c' : Client) (t : list (Action ClientEvent))
  : Prop :=
  (offers_sent t + budget c' <= budget c)%nat.

(** The identifiers that an event of the server carries are socket ids:
    they are not empty. *)
Definition carries_socket_id (e : ServerEvent) : Prop :=
  match e with
  | NewParticipant socketId => socketId ≠ ""
  | Offer callerId _ => callerId ≠ ""
  | Answer responderId _ => responderId ≠ ""
  | IceCandidate fromId _ => fromId ≠ ""
  | PeerDisconnected socketId => socketId ≠ ""
  end.

(** The script after [initMediaAndConnection] succeeded and before any
    event of the server. *)
Definition joined (room : string) (pc : PC) : Client :=
  {| roomId := Some room; peerConnection := Some pc;
     otherPeerId := None; statusDisplay := Connecting |}.

(** What the script does with the events that reached [socket]. *)
Definition reaction (socket room : string) (pc : PC) (out : list Delivery)
  : list (Action ClientEvent) :=
  trace_of (handle_all (inbox socket out)) (joined room pc).

(** The [icecandidate] listener of [peerConnection]; the event that ends
    the gathering carries no candidate. *)
Definition on_icecandidate (candidate : option JsValue)
  : Eff Client (Action ClientEvent) unit :=
  match candidate with
  | Some found =>
      c ← get;
      socket_emit (IceCandidateTo (otherPeerId c) found)
  | None => ret tt
  end.

(** The messages among the actions of [socket]'s script, as they arrive at
    the server. *)
Definition sent (socket : string) (t : list (Action ClientEvent))
  : list Input :=
  omap (fun a => match a with
                 | Net m => Some (FromClient socket m)
                 | Pc _ => None
                 end) t.

Definition set_roomId (id : option string) (c : Client) : Client :=
  {| roomId := id; peerConnection := peerConnection c;
     otherPeerId := otherPeerId c; statusDisplay := statusDisplay c |}.

(** [joinRoom(id)], with the [initMediaAndConnection()] that it ends in.
    [granted] is the connection object that [initMediaAndConnection] makes
    once [getUserMedia] has resolved; it is [None] where the media were
    refused or the constructor threw, and the [catch] takes over. *)
Definition joinRoom (id : string) (granted : option PC)
  : Eff Client (Action ClientEvent) unit :=
  modify (set_roomId (Some id));;
  modify (set_statusDisplay Connecting);;
  try_catch
    (match granted with
     | Some pc =>
         modify (set_peerConnection (Some pc));;
         socket_emit (JoinRoom id)
     | None => fun c => (Thrown, c, [])
     end).

(** *** The listeners, turn by turn

    The listeners above run to their end in one step. Here they are as
    the event loop runs them: every [await] of a method of the connection
    object ends a turn, and the variables are read as they are in the
    turn that reads them. *)

(** [await peerConnection.m(...)]: on [null] the call is a [TypeError],
    thrown within the turn; otherwise the operation is started and the
    listener goes on in a later turn. *)
Definition await_pc {A : Type} (c : Eff Client (Action ClientEvent) A)
  : Async Client (Action ClientEvent) A :=
  Turn (fun s =>
          match peerConnection s with
          | None => take_turn (sync c) s
          | Some _ => take_turn (await c) s
          end).

(** [createAndSendOffer()]: [otherPeerId] is read when the offer is
    emitted, two [await]s after the call. *)
Definition createAndSendOffer_turns : Async Client (Action ClientEvent) unit :=
  atry
    (abind (await_pc (pc_value CreateOffer createOffer)) (fun offer =>
     abind (await_pc (pc_unit (SetLocalDescription offer)
                              (setLocalDescription offer))) (fun _ =>
     abind (sync get) (fun c =>
     sync (socket_emit (OfferTo (otherPeerId c) offer)))))).

Definition on_new_participant_turns (socketId : string)
  : Async Client (Action ClientEvent) unit :=
  abind (sync get) (fun c =>
    awhen (negb (truthy (otherPeerId c)))
      (abind (sync (modify (set_otherPeerId (Some socketId)))) (fun _ =>
       createAndSendOffer_turns))).

Definition on_offer_turns (callerId : string) (offer : JsValue)
  : Async Client (Action ClientEvent) unit :=
  abind (sync (modify (set_otherPeerId (Some callerId)))) (fun _ =>
  atry
    (abind (await_pc (pc_unit (SetRemoteDescription offer)
                              (setRemoteDescription offer))) (fun _ =>
     abind (await_pc (pc_value CreateAnswer createAnswer)) (fun answer =>
     abind (await_pc (pc_unit (SetLocalDescription answer)
                              (setLocalDescription answer))) (fun _ =>
     abind (sync get) (fun c =>
     sync (socket_emit (AnswerTo (otherPeerId c) answer)))))))).

Definition on_answer_turns (responderId : string) (answer : JsValue)
  : Async Client (Action ClientEvent) unit :=
  atry (await_pc (pc_unit (SetRemoteDescription answer)
                          (setRemoteDescription answer))).

Definition on_ice_candidate_turns (fromId : string) (candidate : JsValue)
  : Async Client (Action ClientEvent) unit :=
  atry (await_pc (pc_unit (AddIceCandidate candidate)
                          (addIceCandidate candidate))).

(** The listener that an event of the server calls. *)
Definition handle_turns (e : ServerEvent)
  : Async Client (Action ClientEvent) unit :=
  match e with
  | NewParticipant socketId => on_new_participant_turns socketId
  | Offer callerId offer => on_offer_turns callerId offer
  | Answer responderId answer => on_answer_turns responderId answer
  | IceCandidate fromId candidate => on_ice_candidate_turns fromId candidate
  | PeerDisconnected socketId => sync (on_peer_disconnected socketId)
  end.

(** What wakes the script: the server's event calls its listener (the
    event carries socket ids), or an operation that a listener in flight
    awaits has settled. *)
Definition from_server (w : Wake Client (Action ClientEvent)) : Prop :=
  match w with
  | Call c => exists e, carries_socket_id e /\ c = handle_turns e
  | Settle _ => True
  end.




(** The offers that a function in flight can still emit: [owes n c] when,
    on whatever variables its turns find, the offers that [c] emits and
    the budget that it leaves are within [n] and the budget that it
    found. *)
Fixpoint owes {A : Type} (n : nat) (c : Async Client (Action ClientEvent) A)
  : Prop :=
  match c with
  | Turn run => forall s, owes_paused n s (run s)
  end
with owes_paused {A : Type} (n : nat) (s : Client)
       (p : Paused Client (Action ClientEvent) A) : Prop :=
  match p with
  | Finished _ s1 t => (offers_sent t + budget s1 <= n + budget s)%nat
  | Awaiting s1 t rest =>
      exists m, (offers_sent t + budget s1 + m <= n + budget s)%nat
                /\ owes m rest
  end.

(** What happens to the script once it has joined: an event of the
    server arrives, or its connection object has gathered a candidate. *)
Inductive Event : Type :=
| FromServer (e : ServerEvent)
| IceCandidateFound (candidate : option JsValue).

Definition react (e : Event) : Eff Client (Action ClientEvent) unit :=
  match e with
  | FromServer e => handle e
  | IceCandidateFound candidate => on_icecandidate candidate
  end.

Definition session (events : list Event)
  : Eff Client (Action ClientEvent) unit :=
  for_each react events.

(** The server has named the socket [id] to the script: as a new
    participant or as the caller of an offer. *)
Definition named (events : list Event) (id : string) : Prop :=
  FromServer (NewParticipant id) ∈ events
  \/ exists offer, FromServer (Offer id offer) ∈ events.

End Client.

(** Two sockets connect and join one room, [first] before [second]. *)
Definition two_joins (first second room : string) : list Input :=
  [Connect first; FromClient first (JoinRoom room);
   Connect second; FromClient second (JoinRoom room)].

End PublicScript.

(** ** The polling binding, end to end

    The two endpoints over one store, and the pages of the peers, each
    with its script: a page announces itself when it has joined, and the
    callback of its interval drains the room and handles what the drain
    returned. Every turn here runs to its end before the next begins. *)

Module Polling.

Section World.

Context `{JSONBuiltin} `{RTCPeerConnection}.

(** The property [name] of an object: the last one of that name. *)
Definition property (name : string) (fields : list (string * JsValue))
  : option JsValue :=
  snd <$> List.find (fun f => String.eqb (fst f) name) (rev fields).

(** An element of [json.signals] as [handleIncomingSignals] destructures
    it. The push endpoint stores envelopes whose [fromPeer] and [type]
    are strings; on a value without them no branch of the handler
    applies. The script never reads [timestamp]. *)
Definition envelope_of (v : JsValue) : option Script.Envelope :=
  match v with
  | JObj fields =>
      match property "fromPeer" fields, property "type" fields with
      | Some (JStr from), Some (JStr type) =>
          Some {| Script.fromPeer := from;
                  Script.type := type;
                  Script.data := default JNull (property "data" fields);
                  Script.timestamp :=
                    match property "timestamp" fields with
                    | Some (JNum m _) => m
                    | _ => 0%Z
                    end |}
      | _, _ => None
      end
  | _ => None
  end.

(** [json.signals] of a response. *)
Definition signals_of (res : Api.Response) : list JsValue :=
  match Api.json res with
  | Api.SignalsBody signals => signals
  | Api.ErrorSignalsBody _ signals => signals
  | _ => []
  end.

Record World : Type := {
  store : gmap string (list string);
  pages : gmap string Script.Client
}.

Definition empty : World := {| store := ∅; pages := ∅ |}.

(** A page whose [joinRoom] has run announces itself, or the interval of
    the page with the given client id fires. *)
Inductive Turn : Type :=
| Open (c : Script.Client)
| Tick (id : string).

(** The messages among the actions reach the push endpoint at [now]. *)
Definition post_all (now : Z) (t : list (Action Api.Message))
           (kv : gmap string (list string)) : gmap string (list string) :=
  fold_left (fun kv a =>
               match a with
               | Net m => fst (Api.serve (Api.post now m) kv)
               | Pc _ => kv
               end) t kv.

(** One turn, with what the page did. *)
Definition step (now : Z) (turn : Turn) (w : World)
  : World * list (string * Action Api.Message) :=
  match turn with
  | Open c =>
      let '(_, c1, t) := Script.announce c in
      ({| store := post_all now t (store w);
          pages := <[Script.clientId c := c1]> (pages w) |},
       (fun a => (Script.clientId c, a)) <$> t)
  | Tick id =>
      match pages w !! id with
      | None => (w, [])
      | Some c =>
          let '(kv1, res) := Api.serve (Api.drain (Script.roomId c))
                                       (store w) in
          let '(_, c1, t) :=
            Script.poll (omap envelope_of (signals_of res)) c in
          ({| store := post_all now t kv1; pages := <[id := c1]> (pages w) |},
           (fun a => (id, a)) <$> t)
      end
  end.

Fixpoint run (turns : list (Z * Turn)) (w : World)
  : World * list (string * Action Api.Message) :=
  match turns with
  | [] => (w, [])
  | (now, turn) :: rest =>
      let '(w1, log1) := step now turn w in
      let '(w2, log2) := run rest w1 in
      (w2, log1 ++ log2)
  end.

(** The pages that set out to make an offer. *)
Definition elected (log : list (string * Action Api.Message)) : list string :=
  fst <$> List.filter (fun e => Script.is_createOffer (snd e)) log.

End World.

End Polling.

(** ** An executable reading of the [JSON] builtin

    Texts and strings are sequences of bytes (UTF-8); a number keeps its
    decimal mantissa and exponent.  The handlers above never depend on
    it: it instantiates [JSONBuiltin] where a closed example needs one. *)

Module Json.

Definition quote : ascii := "034"%char.
Definition backslash : ascii := "092"%char.

Definition is_ws (c : ascii) : bool :=
  let n := N_of_ascii c in
  N.eqb n 32 || N.eqb n 9 || N.eqb n 10 || N.eqb n 13.

Fixpoint skip_ws (s : string) : string :=
  match s with
  | String c rest => if is_ws c then skip_ws rest else s
  | EmptyString => s
  end.

Fixpoint strip_prefix (p s : string) : option string :=
  match p, s with
  | EmptyString, _ => Some s
  | String a p', String b s' => if Ascii.eqb a b then strip_prefix p' s' else None
  | String _ _, EmptyString => None
  end.

Definition digit_of (c : ascii) : option Z :=
  let n := N_of_ascii c in
  if N.leb 48 n && N.leb n 57 then Some (Z.of_N (n - 48)) else None.

(** Read digits onto the accumulator; count how many were read. *)
Fixpoint digits (s : string) (acc : Z) (count : Z) : Z * Z * string :=
  match s with
  | String c rest =>
      match digit_of c with
      | Some d => digits rest (10 * acc + d)%Z (count + 1)%Z
      | None => (acc, count, s)
      end
  | EmptyString => (acc, count, s)
  end.

Definition parse_int_part (s : string) : option (Z * string) :=
  match s with
  | String "0" rest => Some (0%Z, rest)
  | _ =>
      match digits s 0 0 with
      | (v, n, rest) => if (n =? 0)%Z then None else Some (v, rest)
      end
  end.

Definition parse_frac_part (m : Z) (s : string) : option (Z * Z * string) :=
  match s with
  | String "." rest =>
      match digits rest m 0 with
      | (v, n, rest') => if (n =? 0)%Z then None else Some (v, n, rest')
      end
  | _ => Some (m, 0%Z, s)
  end.

Definition parse_exp_digits (sign : Z) (s : string) : option (Z * string) :=
  match digits s 0 0 with
  | (v, n, rest) => if (n =? 0)%Z then None else Some ((sign * v)%Z, rest)
  end.

Definition parse_exp_part (s : string) : option (Z * string) :=
  match s with
  | String c rest =>
      if Ascii.eqb c "e" || Ascii.eqb c "E"
      then
        match rest with
        | String "-" rest' => parse_exp_digits (-1) rest'
        | String "+" rest' => parse_exp_digits 1 rest'
        | _ => parse_exp_digits 1 rest
        end
      else Some (0%Z, s)
  | EmptyString => Some (0%Z, s)
  end.

Definition parse_number (s : string) : option (JsValue * string) :=
  let '(sign, s1) :=
    match s with
    | String "-" rest => ((-1)%Z, rest)
    | _ => (1%Z, s)
    end in
  '(i, s2) ← parse_int_part s1;
  '(m, n, s3) ← parse_frac_part i s2;
  '(e, s4) ← parse_exp_part s3;
  Some (JNum (sign * m) (e - n), s4).

Definition hex_of (c : ascii) : option N :=
  let n := N_of_ascii c in
  if N.leb 48 n && N.leb n 57 then Some (n - 48)%N
  else if N.leb 65 n && N.leb n 70 then Some (n - 55)%N
  else if N.leb 97 n && N.leb n 102 then Some (n - 87)%N
  else None.

Definition byte (n : N) : string := String (ascii_of_N n) EmptyString.

(** The UTF-8 bytes of a code unit written [\uXXXX]. *)
Definition utf8 (cp : N) : string :=
  if N.ltb cp 128 then byte cp
  else if N.ltb cp 2048 then byte (192 + cp / 64) +:+ byte (128 + cp mod 64)
  else byte (224 + cp / 4096) +:+ byte (128 + (cp / 64) mod 64)
       +:+ byte (128 + cp mod 64).

Definition prepend (p : string) (r : option (string * string))
  : option (string * string) :=
  '(s, rest) ← r; Some (p +:+ s, rest).

Definition unescape (c : ascii) : option string :=
  if Ascii.eqb c quote then Some (byte 34)
  else if Ascii.eqb c backslash then Some (byte 92)
  else if Ascii.eqb c "/" then Some "/"
  else if Ascii.eqb c "b" then Some (byte 8)
  else if Ascii.eqb c "f" then Some (byte 12)
  else if Ascii.eqb c "n" then Some (byte 10)
  else if Ascii.eqb c "r" then Some (byte 13)
  else if Ascii.eqb c "t" then Some (byte 9)
  else None.

(** The characters of a string literal after its opening quote, and what
    follows the closing quote. *)
Fixpoint parse_chars (s : string) : option (string * string) :=
  match s with
  | EmptyString => None
  | String c rest =>
      if Ascii.eqb c quote then Some (EmptyString, rest)
      else if Ascii.eqb c backslash then
        match rest with
        | String "u" (String h1 (String h2 (String h3 (String h4 rest')))) =>
            match hex_of h1, hex_of h2, hex_of h3, hex_of h4 with
            | Some a, Some b, Some c', Some d =>
                prepend (utf8 (a * 4096 + b * 256 + c' * 16 + d)%N)
                        (parse_chars rest')
            | _, _, _, _ => None
            end
        | String e rest' =>
            match unescape e with
            | Some p => prepend p (parse_chars rest')
            | None => None
            end
        | EmptyString => None
        end
      else if N.ltb (N_of_ascii c) 32 then None
      else prepend (String c EmptyString) (parse_chars rest)
  end.

(** A value, and after [_[_] the elements of an array, after [{] the
    members of an object. *)
Fixpoint parse_value (fuel : nat) (s : string) {struct fuel}
  : option (JsValue * string) :=
  match fuel with
  | O => None
  | S fuel' =>
      let s := skip_ws s in
      match s with
      | String c rest =>
          if Ascii.eqb c quote then
            '(str, rest') ← parse_chars rest; Some (JStr str, rest')
          else if Ascii.eqb c "[" then
            match skip_ws rest with
            | String "]" rest' => Some (JArr [], rest')
            | _ => '(l, rest') ← parse_elements fuel' rest; Some (JArr l, rest')
            end
          else if Ascii.eqb c "{" then
            match skip_ws rest with
            | String "}" rest' => Some (JObj [], rest')
            | _ => '(l, rest') ← parse_members fuel' rest; Some (JObj l, rest')
            end
          else if Ascii.eqb c "n" then
            rest' ← strip_prefix "null" s; Some (JNull, rest')
          else if Ascii.eqb c "t" then
            rest' ← strip_prefix "true" s; Some (JBool true, rest')
          else if Ascii.eqb c "f" then
            rest' ← strip_prefix "false" s; Some (JBool false, rest')
          else parse_number s
      | EmptyString => None
      end
  end
with parse_elements (fuel : nat) (s : string) {struct fuel}
  : option (list JsValue * string) :=
  match fuel with
  | O => None
  | S fuel' =>
      '(v, rest) ← parse_value fuel' s;
      match skip_ws rest with
      | String "," rest' =>
          '(l, rest'') ← parse_elements fuel' rest'; Some (v :: l, rest'')
      | String "]" rest' => Some ([v], rest')
      | _ => None
      end
  end
with parse_members (fuel : nat) (s : string) {struct fuel}
  : option (list (string * JsValue) * string) :=
  match fuel with
  | O => None
  | S fuel' =>
      match skip_ws s with
      | String c rest =>
          if Ascii.eqb c quote then
            '(key, rest1) ← parse_chars rest;
            match skip_ws rest1 with
            | String ":" rest2 =>
                '(v, rest3) ← parse_value fuel' rest2;
                match skip_ws rest3 with
                | String "," rest4 =>
                    '(l, rest5) ← parse_members fuel' rest4;
                    Some ((key, v) :: l, rest5)
                | String "}" rest4 => Some ([(key, v)], rest4)
                | _ => None
                end
            | _ => None
            end
          else None
      | EmptyString => None
      end
  end.

(** [JSON.parse(text)] *)
Definition parse (text : string) : option JsValue :=
  '(v, rest) ← parse_value (2 * String.length text + 2) text;
  match skip_ws rest with
  | EmptyString => Some v
  | String _ _ => None
  end.

Definition hex_digit (n : N) : string :=
  if N.ltb n 10 then byte (48 + n) else byte (87 + n).

Definition escape (c : ascii) : string :=
  let n := N_of_ascii c in
  if Ascii.eqb c quote then String backslash (byte 34)
  else if Ascii.eqb c backslash then String backslash (byte 92)
  else if N.eqb n 8 then String backslash "b"
  else if N.eqb n 12 then String backslash "f"
  else if N.eqb n 10 then String backslash "n"
  else if N.eqb n 13 then String backslash "r"
  else if N.eqb n 9 then String backslash "t"
  else if N.ltb n 32
       then String backslash "u00" +:+ hex_digit (n / 16) +:+ hex_digit (n mod 16)
       else String c EmptyString.

Fixpoint escape_all (s : string) : string :=
  match s with
  | EmptyString => EmptyString
  | String c rest => escape c +:+ escape_all rest
  end.

Definition quoted (s : string) : string :=
  String quote (escape_all s +:+ byte 34).

Definition decimal (z : Z) : string := NilZero.string_of_int (Z.to_int z).

(** [JSON.stringify(value)] *)
Fixpoint stringify (v : JsValue) : string :=
  match v with
  | JNull => "null"
  | JBool true => "true"
  | JBool false => "false"
  | JNum m e => if (e =? 0)%Z then decimal m else decimal m +:+ "e" +:+ decimal e
  | JStr s => quoted s
  | JArr items =>
      "[" +:+
      (fix elements (l : list JsValue) : string :=
         match l with
         | [] => EmptyString
         | [x] => stringify x
         | x :: rest => stringify x +:+ "," +:+ elements rest
         end) items +:+ "]"
  | JObj fields =>
      "{" +:+
      (fix members (l : list (string * JsValue)) : string :=
         match l with
         | [] => EmptyString
         | [(k, x)] => quoted k +:+ ":" +:+ stringify x
         | (k, x) :: rest =>
             quoted k +:+ ":" +:+ stringify x +:+ "," +:+ members rest
         end) fields +:+ "}"
  end.

End Json.

#[global] Instance json_builtin : JSONBuiltin :=
  {| JSON_parse := Json.parse; JSON_stringify := Json.stringify |}.

(** A connection object whose every call resolves. *)
Definition session_description (kind : string) : JsValue :=
  JObj [("type", JStr kind); ("sdp", JStr "v=0")].

#[global] Instance resolving_connection : RTCPeerConnection :=
  {| PC := unit;
     createOffer := fun pc => (Some (session_description "offer"), pc);
     createAnswer := fun pc => (Some (session_description "answer"), pc);
     setLocalDescription := fun _ pc => (true, pc);
     setRemoteDescription := fun _ pc => (true, pc);
     addIceCandidate := fun _ pc => (true, pc) |}.

(** A connection object whose every call is rejected. *)
Definition rejecting_connection : RTCPeerConnection :=
  {| PC := unit;
     createOffer := fun pc => (None, pc);
     createAnswer := fun pc => (None, pc);
     setLocalDescription := fun _ pc => (false, pc);
     setRemoteDescription := fun _ pc => (false, pc);
     addIceCandidate := fun _ pc => (false, pc) |}.

(** ** Concrete requests and stores *)

Module Examples.

Definition room : string := "abcd1234".

(** [GET /api/getSignals?roomId=abcd1234] *)
Definition drain : Api.Request :=
  {| Api.method := "GET"; Api.query_roomId := Some room; Api.body := None |}.

(** [POST /api/sendSignal] with the given body. *)
Definition post (b : Api.Message) : Api.Request :=
  {| Api.method := "POST"; Api.query_roomId := None; Api.body := Some b |}.

(** A [join] message without its [roomId]. *)
Definition join_without_room : Api.Message :=
  {| Api.msg_roomId := None; Api.msg_fromPeer := Some "ab12cd";
     Api.msg_type := Some "join"; Api.msg_data := Some JNull |}.

Definition join_of (from : string) : Api.Message :=
  {| Api.msg_roomId := Some room; Api.msg_fromPeer := Some from;
     Api.msg_type := Some "join"; Api.msg_data := Some JNull |}.

(** A queue holding the text [null], a text that is not JSON, a number,
    the envelope of a [join] and the text [true]. *)
Definition mixed_queue : gmap string (list string) :=
  {[ Api.signals_key room :=
       ["null"; "{oops"; "17";
        Json.stringify (Api.make_envelope "ab12cd" "join" JNull 17);
        "true"] ]}.

(** A queue holding only the text [null]. *)
Definition null_queue : gmap string (list string) :=
  {[ Api.signals_key room := ["null"] ]}.

(** Two peers push their [join], with a drain after each push. *)
Definition pushes_and_drains : list Api.Call :=
  [Api.CallSendSignal 17 (post (join_of "ab12cd")); Api.CallGetSignals drain;
   Api.CallSendSignal 18 (post (join_of "zz99yy")); Api.CallGetSignals drain;
   Api.CallGetSignals drain].

(** A script [aaaaaa] that has seen the peer [bbbbbb] and sent no offer, and
    the [join] of a third peer. *)
Definition script_with_peer : Script.Client :=
  {| Script.roomId := room; Script.clientId := "aaaaaa";
     Script.peerConnection := tt; Script.peersInRoom := ["bbbbbb"];
     Script.hasSentOffer := false |}.

Definition third_join : Script.Envelope := Script.join_envelope "cccccc" 19.

(** The server after the sockets [A] and [B] joined [room], [A] first. *)
Definition two_in_room : Server.State :=
  fst (Server.run Server.init (PublicScript.two_joins "A" "B" room)).

Definition offer : JsValue := session_description "offer".

(** The socket [A] alone in [room] sends an offer addressed to itself. *)
Definition offer_to_self : list Server.Input :=
  [Server.Connect "A"; Server.FromClient "A" (Server.JoinRoom room);
   Server.FromClient "A" (Server.OfferTo (Some "A") offer)].

(** [A] and [B] join [room], [B] once or twice, then [B] sends an offer
    to [A]. *)
Definition joined_once : list Server.Input :=
  PublicScript.two_joins "A" "B" room.

Definition joined_twice : list Server.Input :=
  PublicScript.two_joins "A" "B" room
  ++ [Server.FromClient "B" (Server.JoinRoom room)].

(** [A] and [B] join [room], and [B] joins the room named by the id of
    [A] as well. *)
Definition joined_by_id : list Server.Input :=
  PublicScript.two_joins "A" "B" room
  ++ [Server.FromClient "B" (Server.JoinRoom "A")].

Definition offer_from_B : Server.Input :=
  Server.FromClient "B" (Server.OfferTo (Some "A") offer).

(** [A] has joined [room] and [B] is connected. *)
Definition one_in_room : Server.State :=
  fst (Server.run Server.init
         [Server.Connect "A"; Server.FromClient "A" (Server.JoinRoom room);
          Server.Connect "B"]).

(** [A] is connected and has joined no room. *)
Definition one_connected : Server.State :=
  fst (Server.run Server.init [Server.Connect "A"]).

(** The same [join] read in two polls. *)
Definition repeated_join : list (list Script.Envelope) :=
  [[Script.join_envelope "zz99yy" 18]; [Script.join_envelope "zz99yy" 18]].

(** One call of the interval's callback, whose response holds the [join]
    of [zz99yy]. *)
Definition tick_reading_join
  : Async Script.Client (Action Api.Message) unit :=
  Script.poll_turns [Script.join_envelope "zz99yy" 18].

(** The callback is called twice before an operation of the first call
    has settled; then the operations settle, those of the first call
    first. Each call awaits three operations. *)
Definition overlapping_ticks
  : list (Wake Script.Client (Action Api.Message)) :=
  [Call tick_reading_join; Call tick_reading_join;
   Settle 0; Settle 0; Settle 0;
   Settle 0; Settle 0; Settle 0].

(** The callback is called again when the first call has returned. *)
Definition ticks_in_turn
  : list (Wake Script.Client (Action Api.Message)) :=
  [Call tick_reading_join; Settle 0; Settle 0; Settle 0;
   Call tick_reading_join].

(** Two pages open on [room], [ab12cd] then [zz99yy], and their
    intervals fire in turn, three times each. *)
Definition two_pages : list (Z * Polling.Turn) :=
  [(17, Polling.Open (Script.joined room "ab12cd" tt));
   (18, Polling.Open (Script.joined room "zz99yy" tt));
   (19, Polling.Tick "ab12cd"); (20, Polling.Tick "zz99yy");
   (21, Polling.Tick "ab12cd"); (22, Polling.Tick "zz99yy");
   (23, Polling.Tick "ab12cd"); (24, Polling.Tick "zz99yy")]%Z.

(** The same [new-participant] received twice. *)
Definition repeated_new_participant : list Server.ServerEvent :=
  [Server.NewParticipant "B"; Server.NewParticipant "B"].

(** The scripts of a peer that has just joined. *)
Definition script_joined : Script.Client := Script.joined room "ab12cd" tt.

Definition live_joined : PublicScript.Client := PublicScript.joined room tt.

(** A script [ab12cd] whose latch is set. *)
Definition script_latched : Script.Client :=
  {| Script.roomId := room; Script.clientId := "ab12cd";
     Script.peerConnection := tt; Script.peersInRoom := ["zz99yy"];
     Script.hasSentOffer := true |}.

(** A script that knows the counterpart [A]. *)
Definition script_knowing_A : PublicScript.Client :=
  {| PublicScript.roomId := Some room; PublicScript.peerConnection := Some tt;
     PublicScript.otherPeerId := Some "A";
     PublicScript.statusDisplay := PublicScript.Connected |}.

(** A [join] message whose [roomId] is the empty string. *)
Definition join_empty_room : Api.Message :=
  {| Api.msg_roomId := Some ""; Api.msg_fromPeer := Some "ab12cd";
     Api.msg_type := Some "join"; Api.msg_data := Some JNull |}.

(** Three pushes into [room]: a join, an offer and an ICE candidate. *)
Definition three_pushes : list Api.Push :=
  [{| Api.push_from := "ab12cd"; Api.push_type := "join";
      Api.push_data := JNull; Api.push_now := 17 |};
   {| Api.push_from := "ab12cd"; Api.push_type := "offer";
      Api.push_data := session_description "offer"; Api.push_now := 18 |};
   {| Api.push_from := "zz99yy"; Api.push_type := "ice-candidate";
      Api.push_data := JObj [("candidate", JStr "candidate:1 1 udp");
                             ("sdpMLineIndex", JNum 0 0)];
      Api.push_now := 19 |}].

(** A [join] that arrives while a drain is under way. *)
Definition late_push : Api.Push :=
  {| Api.push_from := "ab12cd"; Api.push_type := "join";
     Api.push_data := JNull; Api.push_now := 30 |}.

(** An offer from [zz99yy] in a response that the script reads. *)
Definition offer_envelope : Script.Envelope :=
  {| Script.fromPeer := "zz99yy"; Script.type := "offer";
     Script.data := offer; Script.timestamp := 20 |}.

(** A script whose connection object rejects every call. *)
Definition script_rejecting : @Script.Client rejecting_connection :=
  @Script.joined rejecting_connection room "ab12cd" tt.

(** The life of a script: it reads the [join] of [zz99yy], gathers a
    candidate, reads nothing, and gathering ends. *)
Definition script_life : list Script.Event :=
  [Script.Tick [Script.join_envelope "zz99yy" 18];
   Script.IceCandidateFound (Some (JStr "candidate:1 1 udp"));
   Script.Tick [];
   Script.IceCandidateFound None].

(** A [join] and a candidate from [zz99yy]. *)
Definition join_and_candidate : list Script.Envelope :=
  [{| Script.fromPeer := "zz99yy"; Script.type := "ice-candidate";
      Script.data := JStr "candidate:1 1 udp"; Script.timestamp := 21 |};
   Script.join_envelope "zz99yy" 18].

(** The live-channel script when the page has loaded, before [joinRoom]. *)
Definition live_loaded : PublicScript.Client :=
  {| PublicScript.roomId := None; PublicScript.peerConnection := None;
     PublicScript.otherPeerId := None;
     PublicScript.statusDisplay := PublicScript.Connecting |}.

(** The life of a live-channel script: it is told of [B], gathers a
    candidate, receives the answer of [B], and gathering ends. *)
Definition live_life : list PublicScript.Event :=
  [PublicScript.FromServer (Server.NewParticipant "B");
   PublicScript.IceCandidateFound (Some (JStr "candidate:1 1 udp"));
   PublicScript.FromServer (Server.Answer "B" (session_description "answer"));
   PublicScript.IceCandidateFound None].

(** [C] is in [room] when [A] joins it, and [B] joins after [A]; [C],
    told of [A], sends it an offer. *)
Definition three_join : list Server.Input :=
  [Server.Connect "C"; Server.FromClient "C" (Server.JoinRoom room);
   Server.Connect "A"; Server.FromClient "A" (Server.JoinRoom room);
   Server.Connect "B"; Server.FromClient "B" (Server.JoinRoom room);
   Server.FromClient "C" (Server.OfferTo (Some "A") offer)].

(** The script is told of [B]; the offer of [C] arrives before the
    [createOffer] that this started has settled. Then the operations
    settle, those of the first listener first. *)
Definition offer_overtakes
  : list (Wake PublicScript.Client (Action Server.ClientEvent)) :=
  [Call (PublicScript.handle_turns (Server.NewParticipant "B"));
   Call (PublicScript.handle_turns (Server.Offer "C" offer));
   Settle 0; Settle 0; Settle 0; Settle 0; Settle 0].

(** The same two events, the second when the listener of the first has
    returned. *)
Definition listeners_in_turn
  : list (Wake PublicScript.Client (Action Server.ClientEvent)) :=
  [Call (PublicScript.handle_turns (Server.NewParticipant "B"));
   Settle 0; Settle 0;
   Call (PublicScript.handle_turns (Server.Offer "C" offer));
   Settle 0; Settle 0; Settle 0].

End Examples.

(** * Properties *)

(** ** The store *)

Lemma lrange_all `{JSONBuiltin} (key : string)
      (kv : gmap string (list string)) :
  KV.lrange key 0 (-1) kv = KV.deserialize <$> kv !!! key.
Proof.
  unfold KV.lrange.
  set (l := kv !!! key). set (len := Z.of_nat (length l)).
  assert (H0 : KV.index_of len 0 = 0%Z) by reflexivity.
  assert (H1 : KV.index_of len (-1) = (len - 1)%Z) by (unfold KV.index_of; simpl; lia).
  rewrite H0, H1, Z.max_id, Z.min_id.
  destruct (Z.ltb_spec (len - 1) 0) as [Hlt|Hge].
  - destruct l; [done|]. subst len. simpl in Hlt. lia.
  - replace (Z.to_nat 0) with 0%nat by lia. rewrite drop_0.
    replace (Z.to_nat (len - 1 - 0 + 1)) with (length l) by (subst len; lia).
    by rewrite firstn_all.
Qed.

Lemma lpush_same (key value : string) (kv : gmap string (list string)) :
  KV.lpush key value kv !!! key = value :: kv !!! key.
Proof. unfold KV.lpush. apply lookup_total_insert_eq. Qed.

Lemma lpush_other (key key' value : string) (kv : gmap string (list string)) :
  key ≠ key' -> KV.lpush key value kv !!! key' = kv !!! key'.
Proof. intros Hne. unfold KV.lpush. by apply lookup_total_insert_ne. Qed.

Lemma del_same (key : string) (kv : gmap string (list string)) :
  KV.del key kv !!! key = [].
Proof. unfold KV.del. by rewrite lookup_total_delete_eq. Qed.

Lemma del_other (key key' : string) (kv : gmap string (list string)) :
  key ≠ key' -> KV.del key kv !!! key' = kv !!! key'.
Proof. intros Hne. unfold KV.del. by apply lookup_total_delete_ne. Qed.

Lemma signals_key_inj (r r' : string) :
  Api.signals_key r = Api.signals_key r' -> r = r'.
Proof. unfold Api.signals_key. simpl. intros Heq. by simplify_eq. Qed.

Lemma truthy_Some (s : string) : truthy (Some s) = true <-> s ≠ "".
Proof.
  unfold truthy. destruct (String.eqb_spec s ""); simpl; split; congruence.
Qed.

(** ** The serverless functions *)

Section ApiProperties.

Context `{JSONBuiltin}.

Lemma parse_envelopes_app (l1 l2 : list JsValue) :
  Api.parse_envelopes (l1 ++ l2)
  = Api.parse_envelopes l1 ++ Api.parse_envelopes l2.
Proof.
  unfold Api.parse_envelopes. by rewrite List.map_app, List.filter_app.
Qed.

(** Mapping to the [null] sentinel and filtering it out keeps, entry by
    entry, what [returned_for] says. *)
Lemma parse_envelopes_returned (queue : list string) :
  Api.parse_envelopes (KV.deserialize <$> queue)
  = omap Api.returned_for queue.
Proof.
  unfold Api.parse_envelopes.
  induction queue as [|text rest IH]; [done|].
  cbn [fmap list_fmap List.map List.filter omap list_omap].
  change (list_fmap string JsValue KV.deserialize rest)
    with (KV.deserialize <$> rest).
  rewrite IH. unfold Api.parse_or_null, Api.returned_for.
  destruct (JSON_parse (to_string (KV.deserialize text))) as [[]|];
    reflexivity.
Qed.

(** What a well-formed drain answers and leaves. *)
Lemma getSignals_GET (req : Api.Request) (kv : gmap string (list string))
      (room : string) :
  Api.method req = "GET" ->
  Api.query_roomId req = Some room ->
  room ≠ "" ->
  Api.getSignals req kv
  = (if Nat.eqb (length (kv !!! Api.signals_key room)) 0 then kv
     else KV.del (Api.signals_key room) kv,
     {| Api.status := 200;
        Api.json := Api.SignalsBody
                      (Api.parse_envelopes
                         (KV.deserialize <$> kv !!! Api.signals_key room)) |}).
Proof.
  intros Hm Hq Hne. unfold Api.getSignals, Api.getSignals_read.
  rewrite Hm, Hq. simpl negb at 1. cbv iota.
  apply truthy_Some in Hne. rewrite Hne. simpl negb. cbv iota zeta.
  rewrite lrange_all.
  destruct (kv !!! Api.signals_key room) as [|x l] eqn:E; reflexivity.
Qed.

Lemma getSignals_queue_after (req : Api.Request)
      (kv : gmap string (list string)) (room : string) :
  Api.method req = "GET" ->
  Api.query_roomId req = Some room ->
  room ≠ "" ->
  fst (Api.getSignals req kv) !!! Api.signals_key room = [].
Proof.
  intros Hm Hq Hne. rewrite (getSignals_GET req kv room) by done. simpl.
  destruct (kv !!! Api.signals_key room) as [|x l] eqn:E; simpl.
  - exact E.
  - apply del_same.
Qed.

(** A drain does not touch the queue of another room, whatever it answers. *)
Lemma getSignals_other_queue (req : Api.Request)
      (kv : gmap string (list string)) (room : string) :
  Api.query_roomId req ≠ Some room ->
  fst (Api.getSignals req kv) !!! Api.signals_key room
  = kv !!! Api.signals_key room.
Proof.
  intros Hq. unfold Api.getSignals, Api.getSignals_read.
  destruct (negb (String.eqb (Api.method req) "GET")); [done|].
  destruct (Api.query_roomId req) as [r|] eqn:E; [|done].
  destruct (negb (truthy (Some r))); [done|]. cbv zeta.
  destruct (Nat.eqb _ 0); [done|]. simpl.
  apply del_other. intros Hk. apply signals_key_inj in Hk. congruence.
Qed.

(** A push either is refused and changes nothing, or is accepted and
    stores the envelope at the head of the queue of its room. *)
Lemma sendSignal_cases (now : Z) (req : Api.Request)
      (kv : gmap string (list string)) :
  (exists code msg,
      Api.sendSignal now req kv
      = (kv, {| Api.status := code; Api.json := Api.ErrorBody msg |}))
  \/ (exists room from type data,
         Api.body req
         = Some {| Api.msg_roomId := Some room; Api.msg_fromPeer := Some from;
                   Api.msg_type := Some type; Api.msg_data := Some data |}
         /\ Api.sendSignal now req kv
            = (KV.lpush (Api.signals_key room)
                 (JSON_stringify (Api.make_envelope from type data now)) kv,
               {| Api.status := 200; Api.json := Api.OkBody |})).
Proof.
  unfold Api.sendSignal, Api.sendSignal_try.
  destruct (negb (String.eqb (Api.method req) "POST")); [left; eauto|].
  destruct (Api.body req) as [[r f t d]|]; [|left; eauto]. simpl.
  destruct (negb (truthy r) || negb (truthy f) || negb (truthy t)
            || is_undefined d); [left; eauto|].
  destruct r as [r|], f as [f|], t as [t|], d as [d|]; try (left; eauto; fail).
  right. exists r, f, t, d. done.
Qed.

End ApiProperties.

Section ApiClaims.

Context `{JSONBuiltin}.

(** C5. A POST whose body is absent or lacks one of [roomId], [fromPeer],
    [type], [data] is answered at once with status 400 and a non-empty
    error message, and the store is left as it was: nothing is appended to
    any queue. *)
Theorem sendSignal_missing_field (now : Z) (req : Api.Request)
        (kv : gmap string (list string)) :
  Api.method req = "POST" ->
  (Api.body req = None
   \/ exists b, Api.body req = Some b /\ Api.lacks_field b = true) ->
  exists msg,
    msg ≠ ""
    /\ Api.sendSignal now req kv
       = (kv, {| Api.status := 400; Api.json := Api.ErrorBody msg |}).
Proof.
  intros Hm Hb. unfold Api.sendSignal, Api.sendSignal_try. rewrite Hm. simpl.
  destruct Hb as [Hb|(b & Hb & Hl)]; rewrite Hb.
  - exists Api.destructure_error. done.
  - exists Api.missing_error. split; [done|].
    unfold Api.lacks_field in Hl.
    destruct b as [[r|] [f|] [t|] [d|]]; simpl in *;
      rewrite ?orb_true_r; try done.
Qed.

(** An entry that is not valid JSON comes back from the store as its
    text, on which the handler's [JSON.parse] throws. *)
Lemma returned_for_invalid (text : string) :
  JSON_parse text = None -> Api.returned_for text = None.
Proof.
  intros Hp. unfold Api.returned_for, KV.deserialize. rewrite Hp.
  cbn [to_string]. by rewrite Hp.
Qed.

(** An entry that denotes [null] comes back as [null], which the handler
    reads as [null] again, its own sentinel for a failed parse. *)
Lemma returned_for_null (text : string) :
  JSON_parse text = Some JNull ->
  JSON_parse "null" = Some JNull ->
  Api.returned_for text = None.
Proof.
  intros Hp Hnull. unfold Api.returned_for, KV.deserialize. rewrite Hp.
  cbn [to_string]. by rewrite Hnull.
Qed.

(** C10 (amended). A drain of a room answers 200, without an error, and
    removes the whole queue. Entry by entry, in the order in which they
    are stored, it returns what its [JSON.parse] yields for the entry as
    the store hands it back, and drops the entry when the parse throws or
    yields [null]: an entry that is not valid JSON is dropped, and so is
    an entry that is the JSON text [null]. *)
Theorem getSignals_discards_invalid_entries (req : Api.Request)
        (kv : gmap string (list string)) (room : string) :
  Api.method req = "GET" ->
  Api.query_roomId req = Some room ->
  room ≠ "" ->
  snd (Api.getSignals req kv)
  = {| Api.status := 200;
       Api.json := Api.SignalsBody
                     (omap Api.returned_for (kv !!! Api.signals_key room)) |}
  /\ fst (Api.getSignals req kv) !!! Api.signals_key room = []
  /\ (forall text, JSON_parse text = None -> Api.returned_for text = None)
  /\ (forall text,
         JSON_parse text = Some JNull ->
         JSON_parse "null" = Some JNull ->
         Api.returned_for text = None).
Proof.
  intros Hm Hq Hroom. split; [|split; [|split]].
  - rewrite (getSignals_GET req kv room) by done. simpl.
    by rewrite parse_envelopes_returned.
  - by apply getSignals_queue_after.
  - exact returned_for_invalid.
  - exact returned_for_null.
Qed.

End ApiClaims.

Lemma sendSignal_missing_field_witness :
  exists msg,
    msg ≠ ""
    /\ Api.sendSignal 17 (Examples.post Examples.join_without_room)
                      Examples.mixed_queue
       = (Examples.mixed_queue,
          {| Api.status := 400; Api.json := Api.ErrorBody msg |}).
Proof.
  apply (sendSignal_missing_field 17 (Examples.post Examples.join_without_room)).
  - reflexivity.
  - right. exists Examples.join_without_room. split; reflexivity.
Defined.

(** C3. A drain does not return the envelope that is queued. A [join]
    is posted and accepted: the queue of the room holds its envelope, a
    valid JSON text. The drain that follows answers 200 with no envelope
    at all and deletes the queue: the store hands the entry back as the
    object it denotes, the handler's [JSON.parse] throws on it, and the
    entry is dropped as [null]. *)
Theorem drain_drops_stored_envelope :
  snd (Api.sendSignal 17 (Examples.post (Examples.join_of "ab12cd")) ∅)
  = {| Api.status := 200; Api.json := Api.OkBody |}
  /\ omap JSON_parse
          (fst (Api.sendSignal 17 (Examples.post (Examples.join_of "ab12cd"))
                               ∅)
             !!! Api.signals_key Examples.room)
     = [Api.make_envelope "ab12cd" "join" JNull 17]
  /\ snd (Api.getSignals Examples.drain
            (fst (Api.sendSignal 17
                    (Examples.post (Examples.join_of "ab12cd")) ∅)))
     = {| Api.status := 200; Api.json := Api.SignalsBody [] |}
  /\ fst (Api.getSignals Examples.drain
            (fst (Api.sendSignal 17
                    (Examples.post (Examples.join_of "ab12cd")) ∅)))
       !!! Api.signals_key Examples.room
     = [].
Proof. vm_compute. repeat split. Qed.

Lemma getSignals_discards_invalid_entries_witness :
  snd (Api.getSignals Examples.drain Examples.mixed_queue)
  = {| Api.status := 200;
       Api.json := Api.SignalsBody [JNum 17 0; JBool true] |}
  /\ fst (Api.getSignals Examples.drain Examples.mixed_queue)
       !!! Api.signals_key Examples.room
     = []
  /\ Api.returned_for "{oops" = None
  /\ Api.returned_for "null" = None.
Proof.
  destruct (getSignals_discards_invalid_entries
              Examples.drain Examples.mixed_queue Examples.room)
    as (Hres & Hqueue & Hinvalid & Hnull);
    [reflexivity | reflexivity | discriminate |].
  split; [|split; [|split]].
  - rewrite Hres. vm_compute. reflexivity.
  - exact Hqueue.
  - apply Hinvalid. vm_compute. reflexivity.
  - apply Hnull; vm_compute; reflexivity.
Defined.

(** The text [null] parses as JSON, yet the drain does not return it: the
    answer is not the list of the entries that parse. *)
Lemma getSignals_null_entry_dropped :
  omap JSON_parse (Examples.null_queue !!! Api.signals_key Examples.room)
  = [JNull]
  /\ snd (Api.getSignals Examples.drain Examples.null_queue)
     = {| Api.status := 200; Api.json := Api.SignalsBody [] |}
  /\ Api.json (snd (Api.getSignals Examples.drain Examples.null_queue))
     ≠ Api.SignalsBody
         (omap JSON_parse
               (Examples.null_queue !!! Api.signals_key Examples.room)).
Proof. vm_compute. repeat split. discriminate. Qed.

(** ** Computations with state, exceptions and a trace *)

Section EffProperties.

Context {S E : Type}.

Lemma bind_run {A B : Type} (c : Eff S E A) (k : A -> Eff S E B) (s : S) :
  (c ≫= k) s
  = match c s with
    | (Done a, s1, t1) =>
        match k a s1 with
        | (r, s2, t2) => (r, s2, t1 ++ t2)
        end
    | (Thrown, s1, t1) => (Thrown, s1, t1)
    end.
Proof. reflexivity. Qed.

Lemma for_each_cons {A : Type} (body : A -> Eff S E unit) (x : A)
      (l : list A) (s : S) :
  for_each body (x :: l) s
  = match body x s with
    | (Done _, s1, t1) =>
        match for_each body l s1 with
        | (r, s2, t2) => (r, s2, t1 ++ t2)
        end
    | (Thrown, s1, t1) => (Thrown, s1, t1)
    end.
Proof. reflexivity. Qed.

(** A step that does nothing can be dropped from a loop. *)
Lemma for_each_skip {A : Type} (body : A -> Eff S E unit) (x : A)
      (l : list A) (s : S) :
  body x s = (Done tt, s, []) ->
  for_each body (x :: l) s = for_each body l s.
Proof.
  intros Hx. rewrite for_each_cons, Hx.
  by destruct (for_each body l s) as [[r s2] t2].
Qed.

Lemma bind_get_run {B : Type} (k : S -> Eff S E B) (s : S) :
  (get ≫= k) s = k s s.
Proof. rewrite bind_run. simpl. by destruct (k s s) as [[r s2] t2]. Qed.

Lemma bind_modify_run {B : Type} (f : S -> S) (k : unit -> Eff S E B) (s : S) :
  (modify f ≫= k) s = k tt (f s).
Proof. rewrite bind_run. simpl. by destruct (k tt (f s)) as [[r s2] t2]. Qed.

Lemma bind_ret_run {A B : Type} (a : A) (k : A -> Eff S E B) (s : S) :
  (ret a ≫= k) s = k a s.
Proof. rewrite bind_run. simpl. by destruct (k a s) as [[r s2] t2]. Qed.

Lemma bind_skip_run (c : Eff S E unit) (s : S) :
  (c ≫= fun _ => ret tt) s = c s.
Proof.
  rewrite bind_run. destruct (c s) as [[[[]|] s1] t1]; simpl; [|done].
  by rewrite app_nil_r.
Qed.

Lemma for_each_single {A : Type} (body : A -> Eff S E unit) (x : A) (s : S) :
  for_each body [x] s = body x s.
Proof. apply bind_skip_run. Qed.

(** Relations that hold of the empty step and compose along a trace are
    respected by every way of sequencing steps that respect them. *)
Section Respects.

Context (R : S -> S -> list E -> Prop).
Hypothesis R_refl : forall s, R s s [].
Hypothesis R_trans :
  forall s s1 s2 t1 t2, R s s1 t1 -> R s1 s2 t2 -> R s s2 (t1 ++ t2).

Lemma respects_ret {A : Type} (a : A) : respects R (ret a : Eff S E A).
Proof. intros s. apply R_refl. Qed.

Lemma respects_get : respects R (get : Eff S E S).
Proof. intros s. apply R_refl. Qed.

Lemma respects_bind {A B : Type} (c : Eff S E A) (k : A -> Eff S E B) :
  respects R c -> (forall a, respects R (k a)) -> respects R (c ≫= k).
Proof.
  intros Hc Hk s. specialize (Hc s).
  unfold state_of, trace_of in *. rewrite bind_run.
  destruct (c s) as [[[a|] s1] t1]; simpl in *; [|done].
  specialize (Hk a s1). unfold state_of, trace_of in Hk.
  destruct (k a s1) as [[r s2] t2]; simpl in *. by eapply R_trans.
Qed.

Lemma respects_when (b : bool) (c : Eff S E unit) :
  respects R c -> respects R (when b c).
Proof. destruct b; [done|]. intros _. apply respects_ret. Qed.

Lemma respects_try_catch (c : Eff S E unit) :
  respects R c -> respects R (try_catch c).
Proof.
  intros Hc s. specialize (Hc s). unfold state_of, trace_of, try_catch in *.
  by destruct (c s) as [[[[]|] s1] t1].
Qed.

Lemma respects_for_each {A : Type} (body : A -> Eff S E unit) (l : list A) :
  (forall x, respects R (body x)) -> respects R (for_each body l).
Proof.
  intros Hbody. induction l as [|x l IH].
  - apply respects_ret.
  - apply (respects_bind (body x) (fun _ => for_each body l)); [apply Hbody|].
    intros _. exact IH.
Qed.

End Respects.

End EffProperties.

(** Of two different strings exactly one is below the other. *)
Lemma js_lt_total (a b : string) : a ≠ b -> js_lt a b = negb (js_lt b a).
Proof.
  intros Hne. unfold js_lt, String.ltb.
  rewrite (String.compare_antisym b a).
  destruct (String.compare a b) eqn:E; simpl; try done.
  apply String.compare_eq_iff in E. done.
Qed.

(** ** The polling client *)

Section ScriptProperties.

Context `{RTCPeerConnection}.

Lemma offers_sent_app (t1 t2 : list (Action Api.Message)) :
  Script.offers_sent (t1 ++ t2)
  = (Script.offers_sent t1 + Script.offers_sent t2)%nat.
Proof.
  unfold Script.offers_sent. by rewrite List.filter_app, length_app.
Qed.

Lemma within_budget_refl (c : Script.Client) : Script.within_budget c c [].
Proof. split; [done|]. simpl. lia. Qed.

Lemma within_budget_trans (c c1 c2 : Script.Client)
      (t1 t2 : list (Action Api.Message)) :
  Script.within_budget c c1 t1 ->
  Script.within_budget c1 c2 t2 ->
  Script.within_budget c c2 (t1 ++ t2).
Proof.
  intros [Hid1 Hb1] [Hid2 Hb2]. split; [congruence|].
  rewrite offers_sent_app. lia.
Qed.

(** A call on the connection object changes nothing but that object, and
    appears in the trace whether it resolves or not. *)
Lemma pc_value_run (call : PcCall) (f : PC -> option JsValue * PC)
      (c : Script.Client) :
  exists r pc,
    Script.pc_value call f c = (r, Script.set_peerConnection pc c, [Pc call]).
Proof.
  unfold Script.pc_value. destruct (f (Script.peerConnection c)) as [[v|] pc];
    eauto.
Qed.

Lemma pc_unit_run (call : PcCall) (f : PC -> bool * PC) (c : Script.Client) :
  exists r pc,
    Script.pc_unit call f c = (r, Script.set_peerConnection pc c, [Pc call]).
Proof.
  unfold Script.pc_unit. destruct (f (Script.peerConnection c)) as [[] pc];
    eauto.
Qed.

(** [createAndSendOffer] always returns, starts by calling [createOffer],
    sends at most one offer and changes nothing but the connection
    object. *)
Lemma createAndSendOffer_run (other : string) (c : Script.Client) :
  exists pc t,
    Script.createAndSendOffer other c
    = (Done tt, Script.set_peerConnection pc c, Pc CreateOffer :: t)
    /\ (Script.offers_sent (Pc CreateOffer :: t) <= 1)%nat.
Proof.
  unfold Script.createAndSendOffer, try_catch. rewrite bind_run.
  unfold Script.pc_value.
  destruct (createOffer (Script.peerConnection c)) as [[offer|] pc1];
    [|exists pc1, []; split; [reflexivity | unfold Script.offers_sent; simpl; lia]].
  rewrite bind_run. unfold Script.pc_unit. simpl.
  destruct (setLocalDescription offer pc1) as [[] pc2];
    [|exists pc2, [Pc (SetLocalDescription offer)];
      split; [reflexivity | unfold Script.offers_sent; simpl; lia]].
  exists pc2. eexists. split; [reflexivity|].
  unfold Script.offers_sent. simpl. lia.
Qed.

(** The guarded step of the [join] branch: the offer and the latch. *)
Lemma offer_step_run (other : string) (c : Script.Client) :
  exists pc t,
    (Script.createAndSendOffer other
     ≫= fun _ => modify (Script.set_hasSentOffer true)) c
    = (Done tt,
       Script.set_hasSentOffer true (Script.set_peerConnection pc c),
       Pc CreateOffer :: t)
    /\ (Script.offers_sent (Pc CreateOffer :: t) <= 1)%nat.
Proof.
  destruct (createAndSendOffer_run other c) as (pc & t & Hrun & Hle).
  exists pc, t. split; [|done].
  rewrite bind_run, Hrun. simpl. by rewrite app_nil_r.
Qed.

Lemma on_join_run (from : string) (c : Script.Client) :
  Script.on_join from c
  = let c1 := Script.set_peersInRoom
                (Script.set_add from (Script.peersInRoom c)) c in
    when (negb (Script.hasSentOffer c1)
          && Nat.eqb (length (Script.peersInRoom c1)) 1)
      match Script.peersInRoom c1 with
      | otherPeerId :: _ =>
          when (js_lt (Script.clientId c1) otherPeerId)
            (Script.createAndSendOffer otherPeerId
             ≫= fun _ => modify (Script.set_hasSentOffer true))
      | [] => ret tt
      end c1.
Proof. unfold Script.on_join. by rewrite bind_modify_run, bind_get_run. Qed.

Lemma on_join_within_budget (from : string) :
  respects Script.within_budget (Script.on_join from).
Proof.
  intros c. unfold state_of, trace_of. rewrite on_join_run. cbv zeta.
  set (c1 := Script.set_peersInRoom _ c).
  assert (Hstay : Script.within_budget c c1 [])
    by (unfold Script.within_budget, Script.budget; simpl; split; [done|lia]).
  destruct (Script.hasSentOffer c1) eqn:Hs; [done|].
  destruct (Nat.eqb _ 1); [|done].
  destruct (Script.peersInRoom c1) as [|other rest]; [done|].
  destruct (js_lt (Script.clientId c1) other); [|done].
  unfold when. cbn [negb andb].
  destruct (offer_step_run other c1) as (pc & t & Hrun & Hle).
  rewrite Hrun. cbn [fst snd]. split; [done|].
  destruct Hstay as [_ Hstay]. unfold Script.budget in *. rewrite Hs in Hstay.
  simpl in *. lia.
Qed.

Lemma script_ret {A : Type} (a : A) :
  respects Script.within_budget (ret a : Eff Script.Client _ A).
Proof. apply respects_ret, within_budget_refl. Qed.

Lemma script_get :
  respects Script.within_budget (get : Eff Script.Client _ Script.Client).
Proof. apply respects_get, within_budget_refl. Qed.

Lemma script_bind {A B : Type} (c : Eff Script.Client _ A)
      (k : A -> Eff Script.Client _ B) :
  respects Script.within_budget c ->
  (forall a, respects Script.within_budget (k a)) ->
  respects Script.within_budget (c ≫= k).
Proof. apply respects_bind, within_budget_trans. Qed.

Lemma script_when (b : bool) (c : Eff Script.Client _ unit) :
  respects Script.within_budget c -> respects Script.within_budget (when b c).
Proof. apply respects_when, within_budget_refl. Qed.

Lemma script_try_catch (c : Eff Script.Client _ unit) :
  respects Script.within_budget c ->
  respects Script.within_budget (try_catch c).
Proof. apply respects_try_catch. Qed.

Lemma script_for_each {A : Type} (body : A -> Eff Script.Client _ unit)
      (l : list A) :
  (forall x, respects Script.within_budget (body x)) ->
  respects Script.within_budget (for_each body l).
Proof.
  apply respects_for_each; [apply within_budget_refl | apply within_budget_trans].
Qed.

Lemma script_pc_value (call : PcCall) (f : PC -> option JsValue * PC) :
  respects Script.within_budget (Script.pc_value call f).
Proof.
  intros c. unfold state_of, trace_of.
  destruct (pc_value_run call f c) as (r & pc & ->). simpl.
  unfold Script.within_budget, Script.budget. simpl. split; [done|lia].
Qed.

Lemma script_pc_unit (call : PcCall) (f : PC -> bool * PC) :
  respects Script.within_budget (Script.pc_unit call f).
Proof.
  intros c. unfold state_of, trace_of.
  destruct (pc_unit_run call f c) as (r & pc & ->). simpl.
  unfold Script.within_budget, Script.budget. simpl. split; [done|lia].
Qed.

(** Setting the latch never raises the budget. *)
Lemma script_latch :
  respects Script.within_budget (modify (Script.set_hasSentOffer true)).
Proof.
  intros c. unfold state_of, trace_of. simpl.
  unfold Script.within_budget, Script.budget. simpl. split; [done|lia].
Qed.

(** A message that is not an offer costs nothing. *)
Lemma script_send_answer (c : Script.Client) (answer : JsValue) :
  respects Script.within_budget
           (Script.sendSignal (Script.message c "answer" answer)).
Proof.
  intros c'. unfold state_of, trace_of. simpl.
  unfold Script.within_budget, Script.offers_sent. simpl. split; [done|lia].
Qed.

Create HintDb script discriminated.

#[local] Hint Resolve script_ret script_get script_bind script_when
  script_try_catch script_for_each script_pc_value script_pc_unit
  script_latch script_send_answer on_join_within_budget : script.

Lemma on_offer_within_budget (data : JsValue) :
  respects Script.within_budget (Script.on_offer data).
Proof. unfold Script.on_offer. auto 10 with script. Qed.

Lemma on_answer_within_budget (data : JsValue) :
  respects Script.within_budget (Script.on_answer data).
Proof. unfold Script.on_answer. auto with script. Qed.

Lemma on_ice_candidate_within_budget (data : JsValue) :
  respects Script.within_budget (Script.on_ice_candidate data).
Proof. unfold Script.on_ice_candidate. auto with script. Qed.

#[local] Hint Resolve on_offer_within_budget on_answer_within_budget
  on_ice_candidate_within_budget : script.

Lemma handle_envelope_within_budget (env : Script.Envelope) :
  respects Script.within_budget (Script.handle_envelope env).
Proof.
  unfold Script.handle_envelope. apply script_bind; [auto with script|].
  intros c. destruct (String.eqb _ _); auto 10 with script.
Qed.

Lemma handleIncomingSignals_within_budget (envelopes : list Script.Envelope) :
  respects Script.within_budget (Script.handleIncomingSignals envelopes).
Proof.
  unfold Script.handleIncomingSignals.
  apply script_for_each, handle_envelope_within_budget.
Qed.

Lemma polling_within_budget (batches : list (list Script.Envelope)) :
  respects Script.within_budget (Script.polling batches).
Proof.
  unfold Script.polling, Script.poll. apply script_for_each. intros signals.
  apply script_try_catch. destruct (Nat.eqb _ 0); [auto with script|].
  apply handleIncomingSignals_within_budget.
Qed.

Lemma handle_envelope_clientId (env : Script.Envelope) (c : Script.Client) :
  Script.clientId (state_of (Script.handle_envelope env) c) = Script.clientId c.
Proof. apply (handle_envelope_within_budget env c). Qed.

(** An envelope of the script's own is skipped: no state change, no action. *)
Lemma handle_envelope_own (env : Script.Envelope) (c : Script.Client) :
  Script.fromPeer env = Script.clientId c ->
  Script.handle_envelope env c = (Done tt, c, []).
Proof.
  intros Hown. unfold Script.handle_envelope. rewrite bind_get_run.
  rewrite Hown, String.eqb_refl. reflexivity.
Qed.

Lemma for_each_foreign (l : list Script.Envelope) :
  forall c : Script.Client,
    for_each Script.handle_envelope l c
    = for_each Script.handle_envelope
               (List.filter (Script.foreign (Script.clientId c)) l) c.
Proof.
  induction l as [|env l IH]; intros c; [done|].
  simpl List.filter. unfold Script.foreign at 1.
  destruct (String.eqb_spec (Script.fromPeer env) (Script.clientId c))
    as [Hown|Hother]; simpl negb; cbv iota.
  - rewrite for_each_skip by (by apply handle_envelope_own). apply IH.
  - rewrite !for_each_cons.
    pose proof (handle_envelope_clientId env c) as Hid. unfold state_of in Hid.
    destruct (Script.handle_envelope env c) as [[[[]|] c1] t1]; [|done].
    simpl in Hid. rewrite (IH c1), Hid. reflexivity.
Qed.

(** For the [join] of another peer only the first branch runs. *)
Lemma handle_envelope_join (env : Script.Envelope) (c : Script.Client) :
  Script.type env = "join" ->
  Script.fromPeer env ≠ Script.clientId c ->
  Script.handle_envelope env c = Script.on_join (Script.fromPeer env) c.
Proof.
  intros Htype Hother. unfold Script.handle_envelope. rewrite bind_get_run.
  destruct (String.eqb_spec (Script.fromPeer env) (Script.clientId c));
    [done|].
  rewrite Htype.
  change (String.eqb "join" "join") with true.
  change (String.eqb "join" "offer") with false.
  change (String.eqb "join" "answer") with false.
  change (String.eqb "join" "ice-candidate") with false.
  unfold when. rewrite bind_run.
  destruct (Script.on_join (Script.fromPeer env) c) as [[[[]|] c1] t1];
    [|done].
  simpl. by rewrite app_nil_r.
Qed.

(** What the [join] of another peer makes a script do that has seen no
    peer and sent no offer: it sets out to offer exactly when its own
    identifier is the smaller one. *)
Lemma first_join_elects (room A B : string) (pc : PC) (now : Z) :
  A ≠ B ->
  Script.elected
    (trace_of (Script.handleIncomingSignals [Script.join_envelope B now])
              (Script.joined room A pc))
  = js_lt A B.
Proof.
  intros Hne. unfold trace_of, Script.handleIncomingSignals.
  change (rev [Script.join_envelope B now]) with [Script.join_envelope B now].
  rewrite for_each_single, handle_envelope_join by (simpl; congruence).
  rewrite on_join_run. cbv zeta.
  change (Script.fromPeer (Script.join_envelope B now)) with B.
  set (c1 := Script.set_peersInRoom _ _).
  assert (Hc1 : c1 = Script.set_peersInRoom [B] (Script.joined room A pc))
    by reflexivity.
  rewrite Hc1. clear c1 Hc1.
  change (Script.peersInRoom
            (Script.set_peersInRoom [B] (Script.joined room A pc))) with [B].
  change (Script.hasSentOffer
            (Script.set_peersInRoom [B] (Script.joined room A pc))) with false.
  change (Script.clientId
            (Script.set_peersInRoom [B] (Script.joined room A pc))) with A.
  change (negb false && Nat.eqb (length [B]) 1) with true.
  unfold when. destruct (js_lt A B); [|reflexivity].
  destruct (offer_step_run B
              (Script.set_peersInRoom [B] (Script.joined room A pc)))
    as (pc' & t & Hrun & _).
  rewrite Hrun. reflexivity.
Qed.

(** The consumer discards its own envelopes: a batch is handled as the
    batch without them. *)
Lemma handleIncomingSignals_foreign (envelopes : list Script.Envelope)
      (c : Script.Client) :
  Script.handleIncomingSignals envelopes c
  = Script.handleIncomingSignals
      (List.filter (Script.foreign (Script.clientId c)) envelopes) c.
Proof.
  unfold Script.handleIncomingSignals.
  rewrite <- List.filter_rev. apply for_each_foreign.
Qed.

(** C9. A [join] notification after which the set of known peers does not
    have exactly one element makes the script do nothing: no call on the
    connection object, no message, hence no offer, and the latch keeps its
    value. In particular the [join] of a third peer starts no election. *)
Theorem join_beyond_one_peer (env : Script.Envelope) (c : Script.Client) :
  Script.type env = "join" ->
  length (Script.set_add (Script.fromPeer env) (Script.peersInRoom c)) ≠ 1%nat ->
  trace_of (Script.handle_envelope env) c = []
  /\ Script.hasSentOffer (state_of (Script.handle_envelope env) c)
     = Script.hasSentOffer c.
Proof.
  intros Htype Hsize. unfold trace_of, state_of.
  destruct (decide (Script.fromPeer env = Script.clientId c)) as [Hown|Hother].
  - by rewrite handle_envelope_own.
  - rewrite handle_envelope_join, on_join_run by done. cbv zeta.
    change (Script.peersInRoom (Script.set_peersInRoom ?l c)) with l.
    apply Nat.eqb_neq in Hsize. rewrite Hsize, andb_false_r. done.
Qed.

End ScriptProperties.

Lemma join_beyond_one_peer_witness :
  trace_of (Script.handle_envelope Examples.third_join)
           Examples.script_with_peer = []
  /\ Script.hasSentOffer
       (state_of (Script.handle_envelope Examples.third_join)
                 Examples.script_with_peer)
     = false.
Proof.
  apply (join_beyond_one_peer Examples.third_join Examples.script_with_peer).
  - reflexivity.
  - vm_compute. lia.
Defined.

(** ** The Socket.IO server *)

Lemma members_join (socket room room' : string)
      (r : gmap string (gset string)) :
  Server.join socket room r !!! room'
  = if decide (room = room') then {[socket]} ∪ r !!! room else r !!! room'.
Proof.
  unfold Server.join. case_decide as Hr.
  - subst. apply lookup_total_insert_eq.
  - by apply lookup_total_insert_ne.
Qed.

Lemma members_leave_all (socket room : string)
      (r : gmap string (gset string)) :
  Server.leave_all socket r !!! room = r !!! room ∖ {[socket]}.
Proof.
  unfold Server.leave_all. rewrite lookup_total_fmap.
  rewrite (lookup_total_alt r).
  destruct (r !! room) as [members|]; simpl; [done|].
  change (inhabitant : gset string) with (∅ : gset string). set_solver.
Qed.

(** Joining a room the socket is in leaves the rooms as they are. *)
Lemma join_member (socket room : string) (r : gmap string (gset string)) :
  socket ∈ r !!! room -> Server.join socket room r = r.
Proof.
  intros Hin. unfold Server.join. rewrite (lookup_total_alt r) in *.
  destruct (r !! room) as [members|] eqn:E; simpl in *.
  - apply insert_id. rewrite E. f_equal. set_solver.
  - change (inhabitant : gset string) with (∅ : gset string) in Hin.
    set_solver.
Qed.

Lemma elem_of_socket_to (r : gmap string (gset string))
      (socket room : string) (e : Server.ServerEvent) (d : Server.Delivery) :
  d ∈ Server.socket_to r socket room e
  <-> exists t, d = (t, e) /\ t ∈ r !!! room /\ t ≠ socket
                /\ t ∉ r !!! socket.
Proof.
  unfold Server.socket_to. rewrite list_elem_of_fmap.
  split; intros (t & Hd & Ht); exists t; split; try done;
    revert Ht; rewrite ?elem_of_elements; set_solver.
Qed.

(** Where the server emits through [socket.to], the sockets in the room
    named by the id of the sender are all that is left out: the sender is
    in that room (a connected socket that emits [join-room]), or it is in
    no room (its [disconnect]). *)
Lemma socket_to_except_room (r : gmap string (gset string))
      (socket room : string) (e : Server.ServerEvent) :
  socket ∈ r !!! socket \/ socket ∉ r !!! room ->
  Server.socket_to r socket room e
  = (fun t => (t, e)) <$> elements (r !!! room ∖ r !!! socket).
Proof.
  intros Hsocket. unfold Server.socket_to. do 2 f_equal. set_solver.
Qed.

Lemma step_socket_to_except_room (st : Server.State) (socket room : string)
      (e : Server.ServerEvent) :
  Server.own_rooms st ->
  Server.connected st socket ->
  Server.socket_to (Server.join socket room (Server.rooms st)) socket room e
  = (fun t => (t, e))
      <$> elements (Server.join socket room (Server.rooms st) !!! room
                    ∖ Server.join socket room (Server.rooms st) !!! socket)
  /\ Server.socket_to (Server.leave_all socket (Server.rooms st))
                      socket room e
     = (fun t => (t, e))
         <$> elements (Server.leave_all socket (Server.rooms st) !!! room
                       ∖ Server.leave_all socket (Server.rooms st) !!! socket).
Proof.
  intros Hown Hc. split; apply socket_to_except_room.
  - left. rewrite members_join. specialize (Hown socket Hc).
    case_decide; set_solver.
  - right. rewrite members_leave_all. set_solver.
Qed.

Lemma elem_of_io_to (r : gmap string (gset string)) (room : string)
      (e : Server.ServerEvent) (d : Server.Delivery) :
  d ∈ Server.io_to r (Some room) e <-> exists t, d = (t, e) /\ t ∈ r !!! room.
Proof.
  unfold Server.io_to. rewrite list_elem_of_fmap.
  split; intros (t & Hd & Ht); exists t; split; try done;
    revert Ht; by rewrite ?elem_of_elements.
Qed.

(** Running one emission once per registered listener reaches the same
    sockets as running it once, provided a listener is registered. *)
Lemma elem_of_per_listener {A : Type} (registered : list string)
      (out : list A) (d : A) :
  d ∈ concat ((fun _ => out) <$> registered) <-> registered ≠ [] /\ d ∈ out.
Proof.
  induction registered as [|x l IH]; simpl.
  - split; [intros Hd; by apply elem_of_nil in Hd | by intros [? _]].
  - rewrite elem_of_app, IH. split; [|tauto].
    intros [?|[_ ?]]; done.
Qed.

Lemma join_mono (socket room room' t : string)
      (r : gmap string (gset string)) :
  t ∈ r !!! room' -> t ∈ Server.join socket room r !!! room'.
Proof. rewrite members_join. case_decide; [subst|]; set_solver. Qed.

Lemma step_own_rooms (st : Server.State) (i : Server.Input) :
  Server.own_rooms st -> Server.own_rooms (fst (Server.step st i)).
Proof.
  unfold Server.own_rooms, Server.connected. intros Hown s.
  destruct i as [s0|s0 e|s0]; simpl;
    destruct (Server.listeners st !! s0) as [registered|] eqn:E; simpl;
    try apply Hown.
  - destruct (decide (s0 = s)) as [->|Hne].
    + intros _. rewrite members_join, decide_True by done. set_solver.
    + rewrite lookup_insert_ne by done. intros Hs. by apply join_mono, Hown.
  - destruct e; simpl; try apply Hown.
    intros Hs. apply join_mono, Hown.
    destruct (decide (s0 = s)) as [->|Hne]; [by rewrite E|].
    by rewrite lookup_insert_ne in Hs.
  - destruct (decide (s0 = s)) as [->|Hne].
    + rewrite lookup_delete_eq. by intros [? ?].
    + rewrite lookup_delete_ne by done. intros Hs.
      rewrite members_leave_all. specialize (Hown s Hs). set_solver.
Qed.

Lemma run_own_rooms (inputs : list Server.Input) :
  forall st, Server.own_rooms st -> Server.own_rooms (fst (Server.run st inputs)).
Proof.
  induction inputs as [|i rest IH]; intros st Hown; [done|].
  simpl. pose proof (step_own_rooms st i Hown) as H1.
  destruct (Server.step st i) as [st1 out1].
  specialize (IH st1 H1). by destruct (Server.run st1 rest) as [st2 out2].
Qed.

Lemma init_own_rooms : Server.own_rooms Server.init.
Proof. intros s [x Hx]. simpl in Hx. by rewrite lookup_empty in Hx. Qed.

(** [join-room] makes the socket one that has joined the room, and it
    stays so until it disconnects. *)
Lemma join_room_has_joined (st : Server.State) (socket room : string) :
  Server.connected st socket ->
  Server.has_joined
    (fst (Server.step st (Server.FromClient socket (Server.JoinRoom room))))
    socket room.
Proof.
  intros [registered Hc]. unfold Server.has_joined. cbn [Server.step].
  rewrite Hc. cbn [fst Server.listeners].
  exists (registered ++ [room]). rewrite lookup_insert_eq. split; [done|].
  set_solver.
Qed.

Lemma has_joined_step (st : Server.State) (socket room : string)
      (i : Server.Input) :
  i ≠ Server.Disconnect socket ->
  Server.has_joined st socket room ->
  Server.has_joined (fst (Server.step st i)) socket room.
Proof.
  intros Hi (registered & Hl & Hr). unfold Server.has_joined.
  destruct i as [s0|s0 e|s0]; cbn [Server.step];
    destruct (Server.listeners st !! s0) as [registered0|] eqn:E;
    cbn [fst Server.listeners];
    try (by exists registered).
  - exists registered. split; [|done].
    rewrite lookup_insert_ne; [done|]. intros ->. congruence.
  - destruct e; cbn [fst Server.listeners]; try (by exists registered).
    destruct (decide (s0 = socket)) as [->|Hne].
    + exists (registered0 ++ [roomId]). rewrite lookup_insert_eq.
      split; [done|]. simplify_eq. set_solver.
    + exists registered. by rewrite lookup_insert_ne.
  - exists registered. split; [|done].
    rewrite lookup_delete_ne; [done|]. intros ->. done.
Qed.

Lemma relayed_offer (st : Server.State) (sender target : string)
      (registered : list string) (e : Server.ClientEvent)
      (ev : Server.ServerEvent) :
  Server.listeners st !! sender = Some registered ->
  registered ≠ [] ->
  target ∈ Server.rooms st !!! target ->
  Server.step st (Server.FromClient sender e)
  = (st, concat ((fun _ => Server.io_to (Server.rooms st) (Some target) ev)
                   <$> registered)) ->
  Server.relayed_to st sender target e ev.
Proof.
  intros Hl Hne Ht Hstep. unfold Server.relayed_to. rewrite Hstep.
  cbn [fst snd]. split; [done|]. split.
  - apply elem_of_per_listener. split; [done|].
    apply elem_of_io_to. by exists target.
  - intros d Hd. apply elem_of_per_listener in Hd as [_ Hd].
    apply elem_of_io_to in Hd as (t & -> & Hin). done.
Qed.

(** C8. In every state that the server can reach, a signaling message of
    a socket [S] that has joined a room, addressed to a connected socket
    [T], is relayed to [T] with the id of [S] in place of the target and
    the payload as it came: an offer as [Offer S], an answer as
    [Answer S], an ICE candidate as [IceCandidate S]; nothing else is
    emitted, only sockets in the room named [T] receive it, and the state
    of the server is unchanged. *)
Theorem targeted_relay (inputs : list Server.Input) (S T room : string)
        (payload : JsValue) :
  Server.has_joined (fst (Server.run Server.init inputs)) S room ->
  Server.connected (fst (Server.run Server.init inputs)) T ->
  Server.relayed_to (fst (Server.run Server.init inputs)) S T
                    (Server.OfferTo (Some T) payload) (Server.Offer S payload)
  /\ Server.relayed_to (fst (Server.run Server.init inputs)) S T
                       (Server.AnswerTo (Some T) payload)
                       (Server.Answer S payload)
  /\ Server.relayed_to (fst (Server.run Server.init inputs)) S T
                       (Server.IceCandidateTo (Some T) payload)
                       (Server.IceCandidate S payload).
Proof.
  set (st := fst (Server.run Server.init inputs)).
  intros (registered & Hl & Hroom) HT.
  assert (Hown : T ∈ Server.rooms st !!! T)
    by (by apply (run_own_rooms inputs Server.init init_own_rooms)).
  assert (Hne : registered ≠ []) by (intros ->; by apply not_elem_of_nil in Hroom).
  split; [|split]; (eapply relayed_offer; [exact Hl | exact Hne | exact Hown |]);
    cbn [Server.step]; fold st; rewrite Hl; reflexivity.
Qed.

Lemma targeted_relay_witness :
  Server.relayed_to Examples.two_in_room "A" "B"
                    (Server.OfferTo (Some "B") Examples.offer)
                    (Server.Offer "A" Examples.offer)
  /\ Server.relayed_to Examples.two_in_room "A" "B"
                       (Server.AnswerTo (Some "B") Examples.offer)
                       (Server.Answer "A" Examples.offer)
  /\ Server.relayed_to Examples.two_in_room "A" "B"
                       (Server.IceCandidateTo (Some "B") Examples.offer)
                       (Server.IceCandidate "A" Examples.offer).
Proof.
  apply (targeted_relay (PublicScript.two_joins "A" "B" Examples.room)
                        "A" "B" Examples.room Examples.offer).
  - exists [Examples.room]. split; [vm_compute; reflexivity|].
    apply list_elem_of_here.
  - exists [Examples.room]. vm_compute. reflexivity.
Defined.

(** ** The live-channel client *)

Section PublicScriptProperties.

Context `{RTCPeerConnection}.

Lemma live_offers_sent_app (t1 t2 : list (Action Server.ClientEvent)) :
  PublicScript.offers_sent (t1 ++ t2)
  = (PublicScript.offers_sent t1 + PublicScript.offers_sent t2)%nat.
Proof.
  unfold PublicScript.offers_sent. by rewrite List.filter_app, length_app.
Qed.

Lemma live_budget_refl (c : PublicScript.Client) :
  PublicScript.within_budget c c [].
Proof. unfold PublicScript.within_budget. simpl. lia. Qed.

Lemma live_budget_trans (c c1 c2 : PublicScript.Client)
      (t1 t2 : list (Action Server.ClientEvent)) :
  PublicScript.within_budget c c1 t1 ->
  PublicScript.within_budget c1 c2 t2 ->
  PublicScript.within_budget c c2 (t1 ++ t2).
Proof.
  unfold PublicScript.within_budget. rewrite live_offers_sent_app. lia.
Qed.

(** A call on the connection object keeps the other variables, keeps the
    object present or absent, and is no offer. *)
Lemma live_pc_value_run (call : PcCall) (f : PC -> option JsValue * PC)
      (c : PublicScript.Client) :
  (PublicScript.peerConnection c = None
   /\ PublicScript.pc_value call f c = (Thrown, c, []))
  \/ (exists r pc pc',
         PublicScript.peerConnection c = Some pc
         /\ PublicScript.pc_value call f c
            = (r, PublicScript.set_peerConnection (Some pc') c, [Pc call])).
Proof.
  unfold PublicScript.pc_value.
  destruct (PublicScript.peerConnection c) as [pc|]; [right|left; done].
  destruct (f pc) as [[v|] pc']; eauto 6.
Qed.

Lemma live_pc_unit_run (call : PcCall) (f : PC -> bool * PC)
      (c : PublicScript.Client) :
  (PublicScript.peerConnection c = None
   /\ PublicScript.pc_unit call f c = (Thrown, c, []))
  \/ (exists r pc pc',
         PublicScript.peerConnection c = Some pc
         /\ PublicScript.pc_unit call f c
            = (r, PublicScript.set_peerConnection (Some pc') c, [Pc call])).
Proof.
  unfold PublicScript.pc_unit.
  destruct (PublicScript.peerConnection c) as [pc|]; [right|left; done].
  destruct (f pc) as [[] pc']; eauto 6.
Qed.

Lemma live_pc_value (call : PcCall) (f : PC -> option JsValue * PC) :
  respects PublicScript.within_budget (PublicScript.pc_value call f).
Proof.
  intros c. unfold state_of, trace_of.
  destruct (live_pc_value_run call f c)
    as [[Hpc ->]|(r & pc & pc' & Hpc & ->)]; cbn [fst snd].
  - apply live_budget_refl.
  - unfold PublicScript.within_budget, PublicScript.budget.
    rewrite Hpc. simpl. lia.
Qed.

Lemma live_pc_unit (call : PcCall) (f : PC -> bool * PC) :
  respects PublicScript.within_budget (PublicScript.pc_unit call f).
Proof.
  intros c. unfold state_of, trace_of.
  destruct (live_pc_unit_run call f c)
    as [[Hpc ->]|(r & pc & pc' & Hpc & ->)]; cbn [fst snd].
  - apply live_budget_refl.
  - unfold PublicScript.within_budget, PublicScript.budget.
    rewrite Hpc. simpl. lia.
Qed.

(** [createAndSendOffer] always returns and changes nothing but the
    connection object; without one it does nothing, with one it starts
    by calling [createOffer] and emits at most one offer. *)
Lemma live_createAndSendOffer_run (c : PublicScript.Client) :
  (PublicScript.peerConnection c = None
   /\ PublicScript.createAndSendOffer c = (Done tt, c, []))
  \/ (exists pc pc' t,
         PublicScript.peerConnection c = Some pc
         /\ PublicScript.createAndSendOffer c
            = (Done tt, PublicScript.set_peerConnection (Some pc') c,
               Pc CreateOffer :: t)
         /\ (PublicScript.offers_sent (Pc CreateOffer :: t) <= 1)%nat).
Proof.
  unfold PublicScript.createAndSendOffer, try_catch. rewrite bind_run.
  unfold PublicScript.pc_value.
  destruct (PublicScript.peerConnection c) as [pc|] eqn:Hpc; [right|left; done].
  exists pc.
  destruct (createOffer pc) as [[offer|] pc1];
    [|exists pc1, []; repeat split; unfold PublicScript.offers_sent; simpl; lia].
  rewrite bind_run. unfold PublicScript.pc_unit. simpl.
  destruct (setLocalDescription offer pc1) as [[] pc2];
    [|exists pc2, [Pc (SetLocalDescription offer)];
      repeat split; unfold PublicScript.offers_sent; simpl; lia].
  exists pc2. eexists. split; [done|]. split; [reflexivity|].
  unfold PublicScript.offers_sent. simpl. lia.
Qed.

Lemma live_ret {A : Type} (a : A) :
  respects PublicScript.within_budget (ret a : Eff PublicScript.Client _ A).
Proof. apply respects_ret, live_budget_refl. Qed.

Lemma live_get :
  respects PublicScript.within_budget
           (get : Eff PublicScript.Client _ PublicScript.Client).
Proof. apply respects_get, live_budget_refl. Qed.

Lemma live_bind {A B : Type} (c : Eff PublicScript.Client _ A)
      (k : A -> Eff PublicScript.Client _ B) :
  respects PublicScript.within_budget c ->
  (forall a, respects PublicScript.within_budget (k a)) ->
  respects PublicScript.within_budget (c ≫= k).
Proof. apply respects_bind, live_budget_trans. Qed.

Lemma live_try_catch (c : Eff PublicScript.Client _ unit) :
  respects PublicScript.within_budget c ->
  respects PublicScript.within_budget (try_catch c).
Proof. apply respects_try_catch. Qed.

(** An answer is no offer. *)
Lemma live_emit_answer (target : option string) (answer : JsValue) :
  respects PublicScript.within_budget
           (PublicScript.socket_emit (Server.AnswerTo target answer)).
Proof.
  intros c. unfold state_of, trace_of, PublicScript.within_budget. simpl. lia.
Qed.

Create HintDb live discriminated.

#[local] Hint Resolve live_ret live_get live_bind live_try_catch
  live_pc_value live_pc_unit live_emit_answer : live.

(** The step of [new-participant] under its guard: the counterpart is
    recorded, then the offer is made. *)
Lemma new_participant_step (socketId : string) (c : PublicScript.Client) :
  socketId ≠ "" ->
  truthy (PublicScript.otherPeerId c) = false ->
  PublicScript.within_budget c
    (state_of (modify (PublicScript.set_otherPeerId (Some socketId))
               ≫= fun _ => PublicScript.createAndSendOffer) c)
    (trace_of (modify (PublicScript.set_otherPeerId (Some socketId))
               ≫= fun _ => PublicScript.createAndSendOffer) c).
Proof.
  intros Hid Hnone. unfold state_of, trace_of. rewrite bind_modify_run.
  set (c1 := PublicScript.set_otherPeerId (Some socketId) c).
  apply truthy_Some in Hid.
  destruct (live_createAndSendOffer_run c1)
    as [[Hpc ->]|(pc & pc' & t & Hpc & -> & Hle)]; cbn [fst snd];
    unfold PublicScript.within_budget, PublicScript.budget in *;
    simpl in *; rewrite Hpc, ?Hid, ?Hnone; simpl; lia.
Qed.

Lemma on_new_participant_within_budget (socketId : string) :
  socketId ≠ "" ->
  respects PublicScript.within_budget
           (PublicScript.on_new_participant socketId).
Proof.
  intros Hid c. unfold state_of, trace_of, PublicScript.on_new_participant.
  rewrite bind_get_run.
  destruct (truthy (PublicScript.otherPeerId c)) eqn:Hother; simpl negb;
    unfold when.
  - apply live_budget_refl.
  - by apply new_participant_step.
Qed.

Lemma on_offer_live_within_budget (callerId : string) (offer : JsValue) :
  callerId ≠ "" ->
  respects PublicScript.within_budget (PublicScript.on_offer callerId offer).
Proof.
  intros Hid. unfold PublicScript.on_offer. apply live_bind.
  - intros c. unfold state_of, trace_of. simpl.
    apply truthy_Some in Hid. unfold truthy in Hid.
    unfold PublicScript.within_budget, PublicScript.budget. simpl.
    rewrite Hid. destruct (PublicScript.peerConnection c); simpl; lia.
  - intros _. auto 10 with live.
Qed.

Lemma on_peer_disconnected_within_budget (socketId : string) :
  respects PublicScript.within_budget
           (PublicScript.on_peer_disconnected socketId).
Proof.
  intros c. unfold state_of, trace_of, PublicScript.on_peer_disconnected.
  rewrite bind_get_run. destruct (bool_decide _); unfold when.
  - rewrite bind_modify_run.
    destruct (PublicScript.peerConnection c) as [pc|] eqn:Hpc;
      unfold PublicScript.within_budget, PublicScript.budget;
      simpl; rewrite ?Hpc; simpl; lia.
  - apply live_budget_refl.
Qed.

(** Every listener respects the budget of offers, for events that carry
    socket ids. *)
Lemma handle_within_budget (e : Server.ServerEvent) :
  PublicScript.carries_socket_id e ->
  respects PublicScript.within_budget (PublicScript.handle e).
Proof.
  destruct e; simpl; intros Hid.
  - by apply on_new_participant_within_budget.
  - by apply on_offer_live_within_budget.
  - unfold PublicScript.on_answer. auto with live.
  - unfold PublicScript.on_ice_candidate. auto with live.
  - apply on_peer_disconnected_within_budget.
Qed.

Lemma handle_all_within_budget (events : list Server.ServerEvent) :
  Forall PublicScript.carries_socket_id events ->
  respects PublicScript.within_budget (PublicScript.handle_all events).
Proof.
  unfold PublicScript.handle_all.
  induction 1 as [|e events He Hrest IH]; [apply live_ret|].
  apply (live_bind (PublicScript.handle e)); [by apply handle_within_budget|].
  intros _. exact IH.
Qed.

(** The listener of [peer-disconnected], for the counterpart the script
    knows: the connection object, if any, is closed and forgotten, the
    counterpart is forgotten and the status reads "Peer Left". *)
Lemma on_peer_disconnected_known (socketId : string)
      (c : PublicScript.Client) :
  PublicScript.otherPeerId c = Some socketId ->
  PublicScript.on_peer_disconnected socketId c
  = (Done tt,
     {| PublicScript.roomId := PublicScript.roomId c;
        PublicScript.peerConnection := None;
        PublicScript.otherPeerId := None;
        PublicScript.statusDisplay := PublicScript.PeerLeft |},
     match PublicScript.peerConnection c with
     | Some _ => [Pc Close]
     | None => []
     end).
Proof.
  intros Hknown. unfold PublicScript.on_peer_disconnected.
  rewrite bind_get_run, Hknown, bool_decide_eq_true_2 by done.
  unfold when. rewrite bind_modify_run.
  destruct (PublicScript.peerConnection c) as [pc|] eqn:Hpc.
  - reflexivity.
  - rewrite bind_ret_run. unfold modify, PublicScript.set_otherPeerId.
    simpl. by rewrite Hpc.
Qed.

(** The member that is told of a new participant, having no counterpart
    yet, sets out to make the offer. *)
Lemma new_participant_elects (room socketId : string) (pc : PC) :
  PublicScript.elected
    (trace_of (PublicScript.handle_all [Server.NewParticipant socketId])
              (PublicScript.joined room pc))
  = true.
Proof.
  unfold trace_of, PublicScript.handle_all. rewrite for_each_single.
  cbn [PublicScript.handle]. unfold PublicScript.on_new_participant.
  rewrite bind_get_run.
  change (truthy (PublicScript.otherPeerId (PublicScript.joined room pc)))
    with false.
  unfold when. cbn [negb]. rewrite bind_modify_run.
  destruct (live_createAndSendOffer_run
              (PublicScript.set_otherPeerId (Some socketId)
                 (PublicScript.joined room pc)))
    as [[Hpc _]|(pc0 & pc' & t & _ & -> & _)]; [done|reflexivity].
Qed.

Lemma elem_of_concat_fmap {A B : Type} (f : A -> list B) (l : list A) (d : B) :
  d ∈ concat (f <$> l) <-> exists x, x ∈ l /\ d ∈ f x.
Proof.
  induction l as [|a l IH]; simpl.
  - split; [intros Hd; by apply elem_of_nil in Hd|].
    intros (x & Hx & _). by apply elem_of_nil in Hx.
  - rewrite elem_of_app, IH. split.
    + intros [Hd|(x & Hx & Hd)]; [exists a | exists x]; split; try done;
        [apply list_elem_of_here | by apply list_elem_of_further].
    + intros (x & Hx & Hd). apply elem_of_cons in Hx as [->|Hx]; eauto.
Qed.

(** Announcements of a join or of a departure never reach the socket
    they are about. *)
Lemma join_room_excludes_sender (st : Server.State) (socket room : string)
      (d : Server.Delivery) :
  d ∈ snd (Server.step st (Server.FromClient socket (Server.JoinRoom room))) ->
  fst d ≠ socket.
Proof.
  cbn [Server.step]. destruct (Server.listeners st !! socket); cbn [snd].
  - intros (t & -> & _ & Hne & _)%elem_of_socket_to. done.
  - by intros ?%elem_of_nil.
Qed.

Lemma disconnect_excludes_sender (st : Server.State) (socket : string)
      (d : Server.Delivery) :
  d ∈ snd (Server.step st (Server.Disconnect socket)) -> fst d ≠ socket.
Proof.
  cbn [Server.step]. destruct (Server.listeners st !! socket); cbn [snd].
  - intros (room & _ & Hd)%elem_of_concat_fmap.
    apply elem_of_socket_to in Hd as (t & -> & _ & Hne & _). done.
  - by intros ?%elem_of_nil.
Qed.

(** A targeted relay reaches sockets in the room named by [targetId], and
    no others. *)
Lemma relay_recipients (st : Server.State) (socket : string)
      (e : Server.ClientEvent) (d : Server.Delivery) :
  (forall room, e ≠ Server.JoinRoom room) ->
  d ∈ snd (Server.step st (Server.FromClient socket e)) ->
  exists target,
    Server.targetId_of e = Some target /\ fst d ∈ Server.rooms st !!! target.
Proof.
  intros Hrelay. cbn [Server.step].
  destruct (Server.listeners st !! socket) as [registered|]; cbn [snd];
    [|by intros ?%elem_of_nil].
  destruct e as [room|[target|] p|[target|] p|[target|] p];
    try (by destruct (Hrelay room)); cbn [snd Server.relay Server.targetId_of];
    intros [_ Hd]%elem_of_per_listener;
    try (by apply elem_of_nil in Hd);
    apply elem_of_io_to in Hd as (t & -> & Hin); by exists target.
Qed.

Lemma step_connect (st : Server.State) (socket : string) :
  Server.listeners st !! socket = None ->
  Server.step st (Server.Connect socket)
  = ({| Server.rooms := Server.join socket socket (Server.rooms st);
        Server.listeners := <[socket := []]> (Server.listeners st) |}, []).
Proof. intros Hl. cbn [Server.step]. by rewrite Hl. Qed.

Lemma step_join_room (st : Server.State) (socket room : string)
      (registered : list string) :
  Server.listeners st !! socket = Some registered ->
  Server.step st (Server.FromClient socket (Server.JoinRoom room))
  = ({| Server.rooms := Server.join socket room (Server.rooms st);
        Server.listeners := <[socket := registered ++ [room]]>
                              (Server.listeners st) |},
     Server.socket_to (Server.join socket room (Server.rooms st))
                      socket room (Server.NewParticipant socket)).
Proof. intros Hl. cbn [Server.step]. by rewrite Hl. Qed.

(** Two sockets join an empty server one after the other, in a room that
    is not named by the id of the second: the only event emitted tells
    the first of the second. *)
Lemma two_joins_deliveries (first second room : string) :
  first ≠ second ->
  room ≠ second ->
  snd (Server.run Server.init (PublicScript.two_joins first second room))
  = [(first, Server.NewParticipant second)].
Proof.
  intros Hne Hroom. unfold PublicScript.two_joins. cbn [Server.run].
  rewrite step_connect by apply lookup_empty.
  erewrite step_join_room by apply lookup_insert_eq.
  rewrite step_connect
    by (cbn [Server.listeners];
        rewrite insert_insert_eq, lookup_insert_ne by done; apply lookup_empty).
  erewrite step_join_room by apply lookup_insert_eq.
  cbn [snd Server.rooms Server.init]. unfold Server.socket_to.
  rewrite !members_join.
  assert (Hempty : forall k : string,
             (∅ : gmap string (gset string)) !!! k = (∅ : gset string)).
  { intros k. by rewrite lookup_total_alt, lookup_empty. }
  rewrite !Hempty.
  match goal with
  | |- [] ++ (_ <$> elements ?X) ++ [] ++ (_ <$> elements ?Y) ++ [] = _ =>
      assert (HX : X = ∅) by (repeat case_decide; set_solver);
      assert (HY : Y = {[first]}) by (repeat case_decide; set_solver);
      rewrite HX, HY
  end.
  by rewrite elements_empty, elements_singleton.
Qed.

(** The member that is told of a new participant, having a connection
    object and no counterpart, sets out to make the offer. *)
Lemma new_participant_elects_any (socketId : string)
      (c : PublicScript.Client) :
  truthy (PublicScript.otherPeerId c) = false ->
  PublicScript.peerConnection c ≠ None ->
  PublicScript.elected
    (trace_of (PublicScript.handle_all [Server.NewParticipant socketId]) c)
  = true.
Proof.
  intros Hother Hpc.
  unfold trace_of, PublicScript.handle_all. rewrite for_each_single.
  cbn [PublicScript.handle]. unfold PublicScript.on_new_participant.
  rewrite bind_get_run, Hother.
  unfold when. cbn [negb]. rewrite bind_modify_run.
  destruct (live_createAndSendOffer_run
              (PublicScript.set_otherPeerId (Some socketId) c))
    as [[Hnone _]|(pc0 & pc' & t & _ & -> & _)]; [done|reflexivity].
Qed.

(** A script that has seen no peer and sent no offer, handling a batch
    whose envelopes of other peers are one [join]. *)
Lemma first_join_elects_any (c : Script.Client)
      (envelopes : list Script.Envelope) (B : string) (now : Z) :
  Script.clientId c ≠ B ->
  Script.peersInRoom c = [] ->
  Script.hasSentOffer c = false ->
  List.filter (Script.foreign (Script.clientId c)) envelopes
  = [Script.join_envelope B now] ->
  Script.elected (trace_of (Script.handleIncomingSignals envelopes) c)
  = js_lt (Script.clientId c) B.
Proof.
  intros Hne Hpeers Hlatch Hfilter. unfold trace_of.
  rewrite handleIncomingSignals_foreign, Hfilter.
  destruct c as [room A pc peers latch]. simpl in *. subst peers latch.
  exact (first_join_elects room A B pc now Hne).
Qed.

(** C1 (amended). Two peers [A] and [B] with different identifiers (of
    characters below 128). In the polling binding a script that has seen
    no peer and sent no offer, and handles a batch in which the [join] of
    the other peer is the only envelope of another peer, sets out to make
    the offer exactly when its own identifier is the smaller one: of two
    scripts that each handle the [join] of the other, exactly one is
    elected, the smaller, whoever joined first. In the live-channel
    binding, when [B] joins a room whose only member is [A], and [A] is
    not in the room named by the id of [B], the server tells [A], and only
    [A], of [B]; [A], having a connection object and no counterpart, sets
    out to make the offer and [B] does not, whatever the order of the
    identifiers. *)
Theorem offerer_election (A B : string) :
  A ≠ B ->
  is_ascii A = true ->
  is_ascii B = true ->
  (forall (cA cB : Script.Client) (toA toB : list Script.Envelope)
          (nowA nowB : Z),
      Script.clientId cA = A ->
      Script.peersInRoom cA = [] ->
      Script.hasSentOffer cA = false ->
      Script.clientId cB = B ->
      Script.peersInRoom cB = [] ->
      Script.hasSentOffer cB = false ->
      List.filter (Script.foreign A) toA = [Script.join_envelope B nowB] ->
      List.filter (Script.foreign B) toB = [Script.join_envelope A nowA] ->
      Script.elected (trace_of (Script.handleIncomingSignals toA) cA)
      = js_lt A B
      /\ Script.elected (trace_of (Script.handleIncomingSignals toB) cB)
         = js_lt B A
      /\ js_lt A B = negb (js_lt B A))
  /\ (forall (st : Server.State) (room : string)
             (cA cB : PublicScript.Client),
         Server.connected st B ->
         Server.rooms st !!! room = {[A]} ->
         A ∉ Server.rooms st !!! B ->
         truthy (PublicScript.otherPeerId cA) = false ->
         PublicScript.peerConnection cA ≠ None ->
         snd (Server.step st (Server.FromClient B (Server.JoinRoom room)))
         = [(A, Server.NewParticipant B)]
         /\ PublicScript.elected
              (trace_of
                 (PublicScript.handle_all
                    (Server.inbox A
                       (snd (Server.step st
                               (Server.FromClient B (Server.JoinRoom room))))))
                 cA)
            = true
         /\ PublicScript.elected
              (trace_of
                 (PublicScript.handle_all
                    (Server.inbox B
                       (snd (Server.step st
                               (Server.FromClient B (Server.JoinRoom room))))))
                 cB)
            = false).
Proof.
  intros Hne _ _. split.
  - intros cA cB toA toB nowA nowB HA HpA HlA HB HpB HlB HtoA HtoB.
    subst A B. split; [|split].
    + by apply (first_join_elects_any cA toA (Script.clientId cB) nowB).
    + by apply (first_join_elects_any cB toB (Script.clientId cA) nowA).
    + by apply js_lt_total.
  - intros st room cA cB [registered Hl] Hroom Hout Hother Hpc.
    assert (Hstep : snd (Server.step st
                           (Server.FromClient B (Server.JoinRoom room)))
                    = [(A, Server.NewParticipant B)]).
    { rewrite (step_join_room st B room registered Hl). cbn [snd].
      unfold Server.socket_to. rewrite !members_join, Hroom.
      rewrite (decide_True (P := room = room)) by done.
      match goal with
      | |- _ <$> elements ?X = _ =>
          assert (HX : X = {[A]}) by (case_decide; set_solver);
          rewrite HX
      end.
      by rewrite elements_singleton. }
    rewrite Hstep. split; [done|].
    unfold Server.inbox. cbn [List.filter fst].
    rewrite bool_decide_eq_true_2 by done.
    rewrite bool_decide_eq_false_2 by done.
    split; [by apply new_participant_elects_any | reflexivity].
Qed.

(** X23. In the live-channel binding a script whose listeners run one
    at a time emits at most one offer, however often and in whatever
    order the events of the server come: none once [otherPeerId] holds
    the id of a counterpart, and after events that made it emit an offer
    no later event makes it emit one. The ids that the server's events
    carry are socket ids, which are not empty. *)
Theorem live_at_most_one_offer (events : list Server.ServerEvent)
        (c : PublicScript.Client) :
  Forall PublicScript.carries_socket_id events ->
  (PublicScript.offers_sent
     (trace_of (PublicScript.handle_all events) c) <= 1)%nat
  /\ (truthy (PublicScript.otherPeerId c) = true ->
      PublicScript.offers_sent
        (trace_of (PublicScript.handle_all events) c) = 0%nat)
  /\ forall later : list Server.ServerEvent,
      Forall PublicScript.carries_socket_id later ->
      (1 <= PublicScript.offers_sent
              (trace_of (PublicScript.handle_all events) c))%nat ->
      PublicScript.offers_sent
        (trace_of (PublicScript.handle_all later)
                  (state_of (PublicScript.handle_all events) c))
      = 0%nat.
Proof.
  intros Hev.
  pose proof (handle_all_within_budget events Hev c) as Hb.
  unfold PublicScript.within_budget in Hb.
  assert (Hle : (PublicScript.budget c <= 1)%nat).
  { unfold PublicScript.budget.
    destruct (PublicScript.peerConnection c),
      (truthy (PublicScript.otherPeerId c)); lia. }
  split; [lia|]. split.
  - intros Hknown. unfold PublicScript.budget in Hb. rewrite Hknown in Hb.
    destruct (PublicScript.peerConnection c); lia.
  - intros later Hlater Hsent.
    pose proof (handle_all_within_budget later Hlater
                  (state_of (PublicScript.handle_all events) c)) as Hl.
    unfold PublicScript.within_budget in Hl. lia.
Qed.

(** C4 (amended). In the polling binding the consumer discards every
    envelope whose [fromPeer] is its own client id: a batch is handled as
    the batch without them. In the live-channel binding the announcements
    of a join and of a departure are never delivered to the socket they
    come from, and a message relayed to a [targetId] is delivered to the
    sockets in the room of that name and to no others: not to its sender
    when the sender is not in that room, and to its sender when it is (as
    when [targetId] is its own id). *)
Theorem sender_exclusion :
  (forall (envelopes : list Script.Envelope) (c : Script.Client),
      Script.handleIncomingSignals envelopes c
      = Script.handleIncomingSignals
          (List.filter (Script.foreign (Script.clientId c)) envelopes) c)
  /\ (forall (st : Server.State) (socket room : string) (d : Server.Delivery),
         d ∈ snd (Server.step st (Server.FromClient socket (Server.JoinRoom room))) ->
         fst d ≠ socket)
  /\ (forall (st : Server.State) (socket : string) (d : Server.Delivery),
         d ∈ snd (Server.step st (Server.Disconnect socket)) -> fst d ≠ socket)
  /\ (forall (st : Server.State) (socket target : string)
             (e : Server.ClientEvent) (d : Server.Delivery),
         Server.targetId_of e = Some target ->
         d ∈ snd (Server.step st (Server.FromClient socket e)) ->
         fst d ∈ Server.rooms st !!! target
         /\ (socket ∉ Server.rooms st !!! target -> fst d ≠ socket))
  /\ (forall (st : Server.State) (socket room target : string)
             (e : Server.ClientEvent),
         Server.has_joined st socket room ->
         Server.targetId_of e = Some target ->
         socket ∈ Server.rooms st !!! target ->
         exists d, d ∈ snd (Server.step st (Server.FromClient socket e))
                   /\ fst d = socket).
Proof.
  split; [exact handleIncomingSignals_foreign|].
  split; [exact join_room_excludes_sender|].
  split; [exact disconnect_excludes_sender|].
  split.
  - intros st socket target e d Htarget Hd.
    destruct (relay_recipients st socket e d) as (target' & Ht & Hin);
      [by intros room -> | done |].
    rewrite Htarget in Ht. simplify_eq. split; [done|]. congruence.
  - intros st socket room target e (registered & Hl & Hroom) Htarget Hin.
    assert (Hne : registered ≠ [])
      by (intros ->; by apply not_elem_of_nil in Hroom).
    cbn [Server.step]. rewrite Hl.
    destruct e as [r|t p|t p|t p]; simpl in Htarget; [done|subst t..];
      cbn [snd Server.relay]; eexists (socket, _);
      (split; [|done]); apply elem_of_per_listener; (split; [done|]);
      apply elem_of_io_to; by eexists.
Qed.

(** C6 (amended). Join and leave have no error conditions. A connected
    socket that joins a room it is already in leaves the rooms as they
    are and is announced again: every delivery is a [new-participant]
    with its id to a member of the room, and every other member that is
    not in the room named by its id receives one. A socket that is not
    connected, or has joined no room, disconnecting notifies nobody; and
    a disconnect does not change the members of a room that the socket
    is not in. *)
Theorem join_leave_no_ops :
  (forall (st : Server.State) (socket room : string),
      Server.connected st socket ->
      socket ∈ Server.rooms st !!! room ->
      Server.rooms
        (fst (Server.step st (Server.FromClient socket (Server.JoinRoom room))))
      = Server.rooms st
      /\ (forall d,
             d ∈ snd (Server.step st
                        (Server.FromClient socket (Server.JoinRoom room))) ->
             snd d = Server.NewParticipant socket
             /\ fst d ∈ Server.rooms st !!! room)
      /\ (forall t,
             t ∈ Server.rooms st !!! room ->
             t ≠ socket ->
             t ∉ Server.rooms st !!! socket ->
             (t, Server.NewParticipant socket)
               ∈ snd (Server.step st
                        (Server.FromClient socket (Server.JoinRoom room)))))
  /\ (forall (st : Server.State) (socket : string),
         ~ Server.connected st socket ->
         Server.step st (Server.Disconnect socket) = (st, []))
  /\ (forall (st : Server.State) (socket : string),
         Server.listeners st !! socket = Some [] ->
         snd (Server.step st (Server.Disconnect socket)) = [])
  /\ (forall (st : Server.State) (socket room : string),
         socket ∉ Server.rooms st !!! room ->
         Server.rooms (fst (Server.step st (Server.Disconnect socket))) !!! room
         = Server.rooms st !!! room).
Proof.
  split; [|split; [|split]].
  - intros st socket room [registered Hl] Hin.
    rewrite (step_join_room st socket room registered Hl). cbn [fst snd].
    rewrite join_member by done. split; [done|]. split.
    + intros d (t & -> & Ht & _)%elem_of_socket_to. done.
    + intros t Ht Hne Hout. apply elem_of_socket_to. by exists t.
  - intros st socket Hc. cbn [Server.step].
    destruct (Server.listeners st !! socket) eqn:E; [|done].
    destruct Hc. by eexists.
  - intros st socket Hl. cbn [Server.step]. by rewrite Hl.
  - intros st socket room Hout. cbn [Server.step].
    destruct (Server.listeners st !! socket); [|done].
    cbn [fst Server.rooms]. rewrite members_leave_all. set_solver.
Qed.

(** X28. When a socket that has joined a room disconnects, every other
    socket in that room that is not in the room named by the id of the
    socket is sent [peer-disconnected] with that id. *)
Theorem disconnect_notifies_members (st : Server.State)
      (socket room t : string) :
  Server.has_joined st socket room ->
  t ∈ Server.rooms st !!! room ->
  t ≠ socket ->
  t ∉ Server.rooms st !!! socket ->
  (t, Server.PeerDisconnected socket)
    ∈ snd (Server.step st (Server.Disconnect socket)).
Proof.
  intros (registered & Hl & Hroom) Hin Hne Hout.
  cbn [Server.step]. rewrite Hl. cbn [snd].
  apply elem_of_concat_fmap. exists room. split; [done|].
  apply elem_of_socket_to. exists t. split; [done|].
  rewrite !members_leave_all. set_solver.
Qed.

End PublicScriptProperties.

Lemma offerer_election_witness :
  (forall (cA cB : Script.Client) (toA toB : list Script.Envelope)
          (nowA nowB : Z),
      Script.clientId cA = "ab12cd" ->
      Script.peersInRoom cA = [] ->
      Script.hasSentOffer cA = false ->
      Script.clientId cB = "zz99yy" ->
      Script.peersInRoom cB = [] ->
      Script.hasSentOffer cB = false ->
      List.filter (Script.foreign "ab12cd") toA
      = [Script.join_envelope "zz99yy" nowB] ->
      List.filter (Script.foreign "zz99yy") toB
      = [Script.join_envelope "ab12cd" nowA] ->
      Script.elected (trace_of (Script.handleIncomingSignals toA) cA)
      = js_lt "ab12cd" "zz99yy"
      /\ Script.elected (trace_of (Script.handleIncomingSignals toB) cB)
         = js_lt "zz99yy" "ab12cd"
      /\ js_lt "ab12cd" "zz99yy" = negb (js_lt "zz99yy" "ab12cd"))
  /\ (Script.elected
        (trace_of (Script.handleIncomingSignals
                     [Script.join_envelope "zz99yy" 18;
                      Script.join_envelope "ab12cd" 17])
                  Examples.script_joined)
      = js_lt "ab12cd" "zz99yy"
      /\ Script.elected
           (trace_of (Script.handleIncomingSignals
                        [Script.join_envelope "ab12cd" 17])
                     (Script.joined Examples.room "zz99yy" tt))
         = js_lt "zz99yy" "ab12cd"
      /\ js_lt "ab12cd" "zz99yy" = negb (js_lt "zz99yy" "ab12cd"))
  /\ (snd (Server.step Examples.one_in_room
             (Server.FromClient "B" (Server.JoinRoom Examples.room)))
      = [("A", Server.NewParticipant "B")]
      /\ PublicScript.elected
           (trace_of
              (PublicScript.handle_all
                 (Server.inbox "A"
                    (snd (Server.step Examples.one_in_room
                            (Server.FromClient "B"
                               (Server.JoinRoom Examples.room))))))
              Examples.live_joined)
         = true
      /\ PublicScript.elected
           (trace_of
              (PublicScript.handle_all
                 (Server.inbox "B"
                    (snd (Server.step Examples.one_in_room
                            (Server.FromClient "B"
                               (Server.JoinRoom Examples.room))))))
              Examples.live_joined)
         = false).
Proof.
  destruct (offerer_election (H:=resolving_connection) "ab12cd" "zz99yy")
    as [Hpolling _]; [discriminate | reflexivity | reflexivity |].
  destruct (offerer_election (H:=resolving_connection) "A" "B")
    as [_ Hlive]; [discriminate | reflexivity | reflexivity |].
  split; [exact Hpolling|]. split.
  - apply (Hpolling Examples.script_joined
             (@Script.joined resolving_connection Examples.room "zz99yy" tt)
             [Script.join_envelope "zz99yy" 18;
              Script.join_envelope "ab12cd" 17]
             [Script.join_envelope "ab12cd" 17] 17%Z 18%Z); reflexivity.
  - apply (Hlive Examples.one_in_room Examples.room
             Examples.live_joined Examples.live_joined).
    + exists []. vm_compute. reflexivity.
    + apply (bool_decide_unpack _). vm_compute. exact I.
    + apply (bool_decide_unpack _). vm_compute. exact I.
    + reflexivity.
    + discriminate.
Defined.

(** The smaller identifier is not always elected. In the live-channel
    binding the socket already in the room makes the offer even when its
    id is the greater one: [b] joins first, [a] second, and [b] is elected although
    [a < b]. In the polling binding two pages announce themselves and
    poll in turn, and neither is elected: both announcements are stored,
    and no drain returns one. *)
Lemma first_joiner_elected_not_smaller :
  (js_lt "a" "b" = true
   /\ PublicScript.elected
        (PublicScript.reaction "b" Examples.room tt
           (snd (Server.run Server.init
                   (PublicScript.two_joins "b" "a" Examples.room))))
      = true
   /\ PublicScript.elected
        (PublicScript.reaction "a" Examples.room tt
           (snd (Server.run Server.init
                   (PublicScript.two_joins "b" "a" Examples.room))))
      = false)
  /\ (snd (Polling.run Examples.two_pages Polling.empty)
      = [("ab12cd", Net (Examples.join_of "ab12cd"));
         ("zz99yy", Net (Examples.join_of "zz99yy"))]
      /\ Polling.elected (snd (Polling.run Examples.two_pages Polling.empty))
         = []).
Proof. vm_compute. repeat split. Qed.

Lemma live_at_most_one_offer_witness :
  (PublicScript.offers_sent
     (trace_of (PublicScript.handle_all Examples.repeated_new_participant)
               Examples.live_joined) <= 1)%nat
  /\ PublicScript.offers_sent
       (trace_of (PublicScript.handle_all Examples.repeated_new_participant)
                 Examples.script_knowing_A) = 0%nat.
Proof.
  assert (Hids : Forall PublicScript.carries_socket_id
                        Examples.repeated_new_participant)
    by (repeat constructor; discriminate).
  split.
  - by destruct (live_at_most_one_offer (H:=resolving_connection)
                   Examples.repeated_new_participant
                   Examples.live_joined Hids).
  - destruct (live_at_most_one_offer (H:=resolving_connection)
                Examples.repeated_new_participant
                Examples.script_knowing_A Hids) as (_ & Hknown & _).
    apply Hknown. reflexivity.
Defined.

Lemma disconnect_notifies_members_witness :
  ("B", Server.PeerDisconnected "A")
    ∈ snd (Server.step Examples.two_in_room (Server.Disconnect "A")).
Proof.
  apply (disconnect_notifies_members Examples.two_in_room "A"
                                     Examples.room "B").
  - exists [Examples.room]. split; [vm_compute; reflexivity|].
    apply list_elem_of_here.
  - apply (bool_decide_unpack _). vm_compute. exact I.
  - discriminate.
  - apply (bool_decide_unpack _). vm_compute. exact I.
Defined.

(** C2. The polling script sends two offers for one counterpart when
    two calls of the interval's callback overlap. The interval fires
    twice before the [createOffer] of the first call has settled, and
    each call reads the [join] of [zz99yy]: the latch [hasSentOffer] is
    set only in the turn in which [createAndSendOffer] returns, so both
    calls pass the test [!hasSentOffer], both call [createOffer], and the
    script sends two offers. The same two calls, the second after the
    first has returned, send one. *)
Theorem overlapping_ticks_send_two_offers :
  Script.offers_sent
    (snd (fst (event_loop Examples.overlapping_ticks [] Examples.script_joined)))
  = 2%nat
  /\ Script.hasSentOffer
       (fst (fst (event_loop Examples.overlapping_ticks []
                             Examples.script_joined)))
     = true
  /\ length (snd (event_loop Examples.overlapping_ticks []
                             Examples.script_joined))
     = 0%nat
  /\ Script.offers_sent
       (snd (fst (event_loop Examples.ticks_in_turn [] Examples.script_joined)))
     = 1%nat.
Proof. vm_compute. repeat split. Qed.

Lemma sender_exclusion_witness :
  fst ("A", Server.NewParticipant "B") ≠ "B"
  /\ fst ("A", Server.PeerDisconnected "B") ≠ "B"
  /\ (fst ("B", Server.Offer "A" Examples.offer)
        ∈ Server.rooms Examples.two_in_room !!! "B"
      /\ ("A" ∉ Server.rooms Examples.two_in_room !!! "B" ->
          fst ("B", Server.Offer "A" Examples.offer) ≠ "A"))
  /\ exists d,
      d ∈ snd (Server.step Examples.two_in_room
                 (Server.FromClient "A" (Server.OfferTo (Some "A") Examples.offer)))
      /\ fst d = "A".
Proof.
  destruct (sender_exclusion (H:=resolving_connection))
    as (_ & Hjoin & Hleave & Htarget & Hself).
  split; [|split; [|split]].
  - apply (Hjoin Examples.one_in_room "B" Examples.room).
    vm_compute. apply list_elem_of_here.
  - apply (Hleave Examples.two_in_room "B").
    vm_compute. apply list_elem_of_here.
  - apply (Htarget Examples.two_in_room "A" "B"
                   (Server.OfferTo (Some "B") Examples.offer)).
    + reflexivity.
    + vm_compute. apply list_elem_of_here.
  - apply (Hself Examples.two_in_room "A" Examples.room "A").
    + exists [Examples.room]. split; [vm_compute; reflexivity|].
      apply list_elem_of_here.
    + reflexivity.
    + apply (bool_decide_unpack _). vm_compute. exact I.
Defined.

(** A socket that addresses an offer to its own id receives it: the
    relay does not exclude the sender. *)
Lemma relay_reaches_sender :
  snd (Server.run Server.init Examples.offer_to_self)
  = [("A", Server.Offer "A" Examples.offer)].
Proof. vm_compute. reflexivity. Qed.

Lemma join_leave_no_ops_witness :
  (Server.rooms
     (fst (Server.step Examples.two_in_room
             (Server.FromClient "B" (Server.JoinRoom Examples.room))))
   = Server.rooms Examples.two_in_room
   /\ (forall d,
          d ∈ snd (Server.step Examples.two_in_room
                     (Server.FromClient "B" (Server.JoinRoom Examples.room))) ->
          snd d = Server.NewParticipant "B"
          /\ fst d ∈ Server.rooms Examples.two_in_room !!! Examples.room)
   /\ ("A", Server.NewParticipant "B")
        ∈ snd (Server.step Examples.two_in_room
                 (Server.FromClient "B" (Server.JoinRoom Examples.room))))
  /\ Server.step Server.init (Server.Disconnect "A") = (Server.init, [])
  /\ snd (Server.step Examples.one_connected (Server.Disconnect "A")) = []
  /\ Server.rooms (fst (Server.step Examples.two_in_room (Server.Disconnect "C")))
       !!! Examples.room
     = Server.rooms Examples.two_in_room !!! Examples.room.
Proof.
  destruct join_leave_no_ops as (Hjoin & Habsent & Hnone & Hother).
  split; [|split; [|split]].
  - destruct (Hjoin Examples.two_in_room "B" Examples.room)
      as (Hrooms & Hall & Hmember).
    + exists [Examples.room]. vm_compute. reflexivity.
    + apply (bool_decide_unpack _). vm_compute. exact I.
    + split; [exact Hrooms|]. split; [exact Hall|].
      apply (Hmember "A").
      * apply (bool_decide_unpack _). vm_compute. exact I.
      * discriminate.
      * apply (bool_decide_unpack _). vm_compute. exact I.
  - apply (Habsent Server.init "A").
    intros [registered Hl]. vm_compute in Hl. discriminate.
  - apply (Hnone Examples.one_connected "A"). vm_compute. reflexivity.
  - apply (Hother Examples.two_in_room "C" Examples.room).
    intros Hin. apply (bool_decide_pack _) in Hin. vm_compute in Hin.
    exact Hin.
Defined.

(** A second [join-room] for the same room is not idempotent: the rooms
    are the same, but the members are told again of the participant, and
    every later message of that socket is relayed twice. *)
Lemma rejoin_duplicates_relay :
  Server.rooms (fst (Server.run Server.init Examples.joined_twice))
  = Server.rooms (fst (Server.run Server.init Examples.joined_once))
  /\ snd (Server.step (fst (Server.run Server.init Examples.joined_once))
            Examples.offer_from_B)
     = [("A", Server.Offer "B" Examples.offer)]
  /\ snd (Server.step (fst (Server.run Server.init Examples.joined_twice))
            Examples.offer_from_B)
     = [("A", Server.Offer "B" Examples.offer);
        ("A", Server.Offer "B" Examples.offer)]
  /\ snd (Server.run Server.init Examples.joined_twice)
     ≠ snd (Server.run Server.init Examples.joined_once).
Proof. vm_compute. repeat split. discriminate. Qed.

(** C7. A member that has also joined the room named by the id of the
    leaving socket is not told of the departure. [A] and [B] are in
    [room], and [B] has joined the room named [A] as well; [A], which has
    joined [room], disconnects: [B] is a member of [room] other than [A],
    and the server emits nothing at all. *)
Theorem disconnect_misses_member :
  Server.has_joined (fst (Server.run Server.init Examples.joined_by_id))
                    "A" Examples.room
  /\ "B" ∈ Server.rooms (fst (Server.run Server.init Examples.joined_by_id))
            !!! Examples.room
  /\ "B" ≠ "A"
  /\ snd (Server.step (fst (Server.run Server.init Examples.joined_by_id))
            (Server.Disconnect "A"))
     = [].
Proof.
  split; [|split; [|split]].
  - exists [Examples.room]. split; [vm_compute; reflexivity|].
    apply list_elem_of_here.
  - apply (bool_decide_unpack _). vm_compute. exact I.
  - discriminate.
  - vm_compute. reflexivity.
Qed.

(** ** The live-channel handshake, run *)

(** The live channel: [A] is in the room and [B] joins; [A] is told and
    offers; [B] receives the offer under [callerId] [A] and answers; [A]
    receives the answer under [responderId] [B]. *)
Example live_handshake :
  snd (Server.run Server.init (PublicScript.two_joins "A" "B" Examples.room))
  = [("A", Server.NewParticipant "B")]
  /\ trace_of (PublicScript.handle (Server.NewParticipant "B"))
              Examples.live_joined
     = [Pc CreateOffer; Pc (SetLocalDescription Examples.offer);
        Net (Server.OfferTo (Some "B") Examples.offer)]
  /\ snd (Server.step Examples.two_in_room
            (Server.FromClient "A" (Server.OfferTo (Some "B") Examples.offer)))
     = [("B", Server.Offer "A" Examples.offer)]
  /\ trace_of (PublicScript.handle (Server.Offer "A" Examples.offer))
              Examples.live_joined
     = [Pc (SetRemoteDescription Examples.offer); Pc CreateAnswer;
        Pc (SetLocalDescription (session_description "answer"));
        Net (Server.AnswerTo (Some "A") (session_description "answer"))]
  /\ snd (Server.step Examples.two_in_room
            (Server.FromClient "B"
               (Server.AnswerTo (Some "A") (session_description "answer"))))
     = [("A", Server.Answer "B" (session_description "answer"))].
Proof. vm_compute. repeat split. Qed.

(** * Further properties of the code *)

(** ** The serverless functions *)

Section ApiFurther.

Context `{JSONBuiltin}.

Lemma well_formed_inv (b : Api.Message) :
  Api.well_formed b = true ->
  exists room from type data,
    b = Api.message_for room from type data
    /\ room ≠ "" /\ from ≠ "" /\ type ≠ "".
Proof.
  unfold Api.well_formed. destruct b as [r f t d]. simpl.
  intros Hwf. repeat (apply andb_prop in Hwf as [Hwf ?]).
  destruct r as [r|], f as [f|], t as [t|], d as [d|]; try done.
  exists r, f, t, d. repeat split; by apply truthy_Some.
Qed.

(** A well-formed message is stored, whatever the store holds. *)
Lemma sendSignal_well_formed (now : Z) (req : Api.Request)
      (kv : gmap string (list string)) (room from type : string)
      (data : JsValue) :
  Api.method req = "POST" ->
  Api.body req = Some (Api.message_for room from type data) ->
  room ≠ "" -> from ≠ "" -> type ≠ "" ->
  Api.sendSignal now req kv
  = (KV.lpush (Api.signals_key room)
       (JSON_stringify (Api.make_envelope from type data now)) kv,
     {| Api.status := 200; Api.json := Api.OkBody |}).
Proof.
  intros Hm Hb Hr Hf Ht. unfold Api.sendSignal, Api.sendSignal_try.
  rewrite Hm, Hb. simpl.
  apply truthy_Some in Hr, Hf, Ht. unfold truthy in Hr, Hf, Ht.
  by rewrite Hr, Hf, Ht.
Qed.

(** X1. The push endpoint stores a message exactly when the request is a
    POST whose body has a non-empty [roomId], [fromPeer] and [type] and a
    [data] that is not [undefined] ([null] is accepted): the envelope then
    goes to the head of the queue of the room, with answer 200. Every
    other request (another method, no body, an absent or empty string)
    is answered 405 or 400 with an error message and leaves the store as
    it was. *)
Theorem sendSignal_stores_iff_well_formed (now : Z) (req : Api.Request)
        (kv : gmap string (list string)) :
  (Api.method req = "POST" ->
   forall b, Api.body req = Some b -> Api.well_formed b = true ->
   exists room from type data,
     b = Api.message_for room from type data
     /\ Api.sendSignal now req kv
        = (KV.lpush (Api.signals_key room)
             (JSON_stringify (Api.make_envelope from type data now)) kv,
           {| Api.status := 200; Api.json := Api.OkBody |}))
  /\ ((Api.method req ≠ "POST"
       \/ Api.body req = None
       \/ exists b, Api.body req = Some b /\ Api.well_formed b = false) ->
      exists code msg,
        (code = 405%Z \/ code = 400%Z)
        /\ Api.sendSignal now req kv
           = (kv, {| Api.status := code; Api.json := Api.ErrorBody msg |})).
Proof.
  split.
  - intros Hm b Hb Hwf.
    destruct (well_formed_inv b Hwf) as (room & from & type & data & -> & ? & ? & ?).
    exists room, from, type, data. split; [done|].
    by apply sendSignal_well_formed.
  - intros Hbad. unfold Api.sendSignal, Api.sendSignal_try.
    destruct (String.eqb_spec (Api.method req) "POST") as [Hm|Hm]; simpl.
    + destruct Hbad as [?|[Hb|(b & Hb & Hwf)]]; [done| |]; rewrite Hb.
      * exists 400%Z, Api.destructure_error. auto.
      * exists 400%Z, Api.missing_error. split; [auto|].
        unfold Api.well_formed in Hwf.
        destruct b as [[r|] [f|] [t|] [d|]]; simpl in *;
          rewrite ?orb_true_r; try done.
        destruct (negb (String.eqb r "")), (negb (String.eqb f "")),
          (negb (String.eqb t "")); simpl in *; done.
    + exists 405%Z, "Only POST is allowed". auto.
Qed.

End ApiFurther.

Lemma sendSignal_stores_iff_well_formed_witness :
  (exists room from type data,
      Examples.join_of "ab12cd" = Api.message_for room from type data
      /\ Api.sendSignal 17 (Examples.post (Examples.join_of "ab12cd")) ∅
         = (KV.lpush (Api.signals_key room)
              (JSON_stringify (Api.make_envelope from type data 17)) ∅,
            {| Api.status := 200; Api.json := Api.OkBody |}))
  /\ exists code msg,
      (code = 405%Z \/ code = 400%Z)
      /\ Api.sendSignal 17 (Examples.post Examples.join_empty_room) ∅
         = (∅, {| Api.status := code; Api.json := Api.ErrorBody msg |}).
Proof.
  split.
  - destruct (sendSignal_stores_iff_well_formed
                17 (Examples.post (Examples.join_of "ab12cd")) ∅) as [Hok _].
    apply Hok; reflexivity.
  - destruct (sendSignal_stores_iff_well_formed
                17 (Examples.post Examples.join_empty_room) ∅) as [_ Hbad].
    apply Hbad. right. right. exists Examples.join_empty_room.
    split; reflexivity.
Defined.

Section ApiRuns.

Context `{JSONBuiltin}.

(** What the store hands back for the envelope of a push is the object,
    on which the handler's [JSON.parse] throws: the drain drops it. *)
Lemma returned_for_envelope (from type : string) (data : JsValue) (now : Z) :
  JSON_parse (JSON_stringify (Api.make_envelope from type data now))
  = Some (Api.make_envelope from type data now) ->
  JSON_parse "[object Object]" = None ->
  Api.returned_for (JSON_stringify (Api.make_envelope from type data now))
  = None.
Proof.
  intros Hp Hobject. unfold Api.returned_for, KV.deserialize. rewrite Hp.
  unfold Api.make_envelope. cbn [to_string]. by rewrite Hobject.
Qed.

Lemma run_drain (room : string) (kv : gmap string (list string)) :
  room ≠ "" ->
  Api.run [Api.drain room] kv
  = (if Nat.eqb (length (kv !!! Api.signals_key room)) 0 then kv
     else KV.del (Api.signals_key room) kv,
     [(Api.drain room,
       {| Api.status := 200;
          Api.json := Api.SignalsBody
                        (omap Api.returned_for
                              (kv !!! Api.signals_key room)) |})]).
Proof.
  intros Hroom. cbn [Api.run Api.serve Api.drain].
  by rewrite (getSignals_GET _ kv room), parse_envelopes_returned.
Qed.

Lemma serve_push (room : string) (p : Api.Push)
      (kv : gmap string (list string)) :
  room ≠ "" -> Api.push_from p ≠ "" -> Api.push_type p ≠ "" ->
  Api.serve (Api.push_call room p) kv
  = (KV.lpush (Api.signals_key room)
       (JSON_stringify (Api.push_envelope p)) kv,
     {| Api.status := 200; Api.json := Api.OkBody |}).
Proof.
  intros Hroom Hfrom Htype. unfold Api.push_call, Api.post.
  cbn [Api.serve]. by apply sendSignal_well_formed.
Qed.

(** X2. Pushes into a room followed by a drain of it: every push is
    answered 200 and stored, and the drain returns the envelope of none
    of them. It answers 200 with what the entries queued before the
    pushes yield, and deletes the queue: the pushed envelopes are lost.
    The room, the senders and the types are not empty; [JSON.parse]
    reads back the envelopes that [JSON.stringify] wrote, and throws on
    [[object Object]]. *)
Theorem drain_returns_no_pushed_envelope (room : string)
        (pushes : list Api.Push) (kv : gmap string (list string)) :
  room ≠ "" ->
  Forall (fun p => Api.push_from p ≠ "" /\ Api.push_type p ≠ "") pushes ->
  Forall (fun p => JSON_parse (JSON_stringify (Api.push_envelope p))
                   = Some (Api.push_envelope p)) pushes ->
  JSON_parse "[object Object]" = None ->
  snd (Api.run (map (Api.push_call room) pushes ++ [Api.drain room]) kv)
  = map (fun p => (Api.push_call room p,
                   {| Api.status := 200; Api.json := Api.OkBody |})) pushes
    ++ [(Api.drain room,
         {| Api.status := 200;
            Api.json := Api.SignalsBody
                          (omap Api.returned_for
                                (kv !!! Api.signals_key room)) |})]
  /\ fst (Api.run (map (Api.push_call room) pushes ++ [Api.drain room]) kv)
       !!! Api.signals_key room = [].
Proof.
  intros Hroom Hwf Hrt Hobject. revert kv.
  induction pushes as [|p pushes IH]; intros kv.
  - simpl app. simpl map. rewrite run_drain by done. cbn [fst snd app].
    split; [done|].
    destruct (kv !!! Api.signals_key room) as [|x l] eqn:E; simpl;
      [exact E | apply del_same].
  - apply Forall_cons in Hwf as [[Hfrom Htype] Hwf].
    apply Forall_cons in Hrt as [Hp Hrt].
    specialize (IH Hwf Hrt).
    cbn [map app Api.run]. rewrite serve_push by done.
    specialize (IH (KV.lpush (Api.signals_key room)
                      (JSON_stringify (Api.push_envelope p)) kv)).
    destruct IH as [IHlog IHq].
    destruct (Api.run (map (Api.push_call room) pushes ++ [Api.drain room]) _)
      as [kv2 log]. cbn [fst snd] in *.
    split; [|done]. rewrite IHlog, lpush_same.
    cbn [omap list_omap].
    unfold Api.push_envelope in *.
    by rewrite returned_for_envelope.
Qed.

Lemma getSignals_same_queue (req : Api.Request)
      (kv kv' : gmap string (list string)) (room : string) :
  Api.query_roomId req = Some room ->
  kv !!! Api.signals_key room = kv' !!! Api.signals_key room ->
  snd (Api.getSignals req kv) = snd (Api.getSignals req kv')
  /\ fst (Api.getSignals req kv) !!! Api.signals_key room
     = fst (Api.getSignals req kv') !!! Api.signals_key room.
Proof.
  intros Hq Hsame. unfold Api.getSignals, Api.getSignals_read. rewrite Hq.
  destruct (negb (String.eqb (Api.method req) "GET")); [done|].
  destruct (negb (truthy (Some room))); [done|]. cbv zeta.
  rewrite !lrange_all, <- Hsame.
  destruct (Nat.eqb _ 0); cbn [fst snd Api.getSignals_finish]; [done|].
  by rewrite !del_same.
Qed.

Lemma sendSignal_same_queue (now : Z) (req : Api.Request)
      (kv kv' : gmap string (list string)) (key : string) :
  kv !!! key = kv' !!! key ->
  snd (Api.sendSignal now req kv) = snd (Api.sendSignal now req kv')
  /\ fst (Api.sendSignal now req kv) !!! key
     = fst (Api.sendSignal now req kv') !!! key.
Proof.
  intros Hsame. unfold Api.sendSignal, Api.sendSignal_try.
  destruct (negb (String.eqb (Api.method req) "POST")); [done|].
  destruct (Api.body req) as [[r f t d]|]; [|done].
  cbn [Api.msg_roomId Api.msg_fromPeer Api.msg_type Api.msg_data].
  destruct (negb (truthy r) || negb (truthy f) || negb (truthy t)
            || is_undefined d); [done|].
  destruct r as [r|], f as [f|], t as [t|], d as [d|]; try done.
  cbn [fst snd]. split; [done|].
  destruct (decide (Api.signals_key r = key)) as [<-|Hne].
  - by rewrite !lpush_same, Hsame.
  - by rewrite !lpush_other.
Qed.

(** A call that does not name the room leaves its queue alone and adds
    nothing to what its drains returned. *)
Lemma serve_elsewhere (room : string) (c : Api.Call)
      (kv : gmap string (list string)) :
  Api.concerns room c = false ->
  fst (Api.serve c kv) !!! Api.signals_key room = kv !!! Api.signals_key room
  /\ forall (r : Api.Response) (log : list (Api.Call * Api.Response)),
      Api.delivered room ((c, r) :: log) = Api.delivered room log.
Proof.
  intros Hc. destruct c as [now req|req]; cbn [Api.serve Api.concerns] in *.
  - split; [|done].
    destruct (sendSignal_cases now req kv) as [(code & msg & ->)|Hs]; [done|].
    destruct Hs as (room' & from & type & data & Hb & ->). cbn [fst].
    rewrite Hb in Hc. cbn [Api.msg_roomId] in Hc.
    apply bool_decide_eq_false in Hc.
    apply lpush_other. intros Hk%signals_key_inj. congruence.
  - apply bool_decide_eq_false in Hc. split.
    + by apply getSignals_other_queue.
    + intros [code []] log; cbn [Api.delivered]; try done. by case_decide.
Qed.

Lemma serve_same_queue (room : string) (c : Api.Call)
      (kv kv' : gmap string (list string)) :
  Api.concerns room c = true ->
  kv !!! Api.signals_key room = kv' !!! Api.signals_key room ->
  snd (Api.serve c kv) = snd (Api.serve c kv')
  /\ fst (Api.serve c kv) !!! Api.signals_key room
     = fst (Api.serve c kv') !!! Api.signals_key room.
Proof.
  intros Hc Hsame. destruct c as [now req|req]; cbn [Api.serve Api.concerns] in *.
  - by apply sendSignal_same_queue.
  - apply bool_decide_eq_true in Hc. by apply getSignals_same_queue.
Qed.

Lemma run_restricted (room : string) (calls : list Api.Call) :
  forall kv kv' : gmap string (list string),
    kv !!! Api.signals_key room = kv' !!! Api.signals_key room ->
    Api.delivered room (snd (Api.run calls kv))
    = Api.delivered room
        (snd (Api.run (List.filter (Api.concerns room) calls) kv'))
    /\ fst (Api.run calls kv) !!! Api.signals_key room
       = fst (Api.run (List.filter (Api.concerns room) calls) kv')
           !!! Api.signals_key room.
Proof.
  induction calls as [|c calls IH]; intros kv kv' Hsame; [done|].
  cbn [Api.run List.filter].
  destruct (Api.concerns room c) eqn:Hc.
  - destruct (serve_same_queue room c kv kv' Hc Hsame) as [Hr Hq].
    cbn [Api.run].
    destruct (Api.serve c kv) as [kv1 r], (Api.serve c kv') as [kv1' r'].
    cbn [fst snd] in Hr, Hq. subst r'.
    specialize (IH kv1 kv1' Hq).
    destruct (Api.run calls kv1) as [kv2 log],
      (Api.run (List.filter (Api.concerns room) calls) kv1') as [kv2' log'].
    cbn [fst snd] in *. destruct IH as [IHd IHq]. split; [|done].
    destruct c as [now req|req]; [done|].
    destruct r as [code []]; cbn [Api.delivered]; try done.
    case_decide; by rewrite IHd.
  - destruct (serve_elsewhere room c kv Hc) as [Hq Hd].
    destruct (Api.serve c kv) as [kv1 r]. cbn [fst] in Hq.
    assert (Hsame' : kv1 !!! Api.signals_key room
                     = kv' !!! Api.signals_key room) by congruence.
    specialize (IH kv1 kv' Hsame').
    destruct (Api.run calls kv1) as [kv2 log]. cbn [fst snd] in *.
    by rewrite Hd.
Qed.

(** X3. Rooms do not interfere: what the drains of a room return along a
    run of calls, and what its queue holds at the end, are the same as
    along the run of only those calls that name the room. *)
Theorem rooms_do_not_interfere (room : string) (calls : list Api.Call)
        (kv : gmap string (list string)) :
  Api.delivered room (snd (Api.run calls kv))
  = Api.delivered room
      (snd (Api.run (List.filter (Api.concerns room) calls) kv))
  /\ fst (Api.run calls kv) !!! Api.signals_key room
     = fst (Api.run (List.filter (Api.concerns room) calls) kv)
         !!! Api.signals_key room.
Proof. by apply run_restricted. Qed.

(** X4. A drain answers 405 to any method but GET and 400, with an empty
    [signals] array, to a missing or empty [roomId], and then leaves the
    store as it was; in every case the only queue a drain can change is
    that of the room it names, which it empties. *)
Theorem getSignals_rejects_and_scope (req : Api.Request)
        (kv : gmap string (list string)) :
  (Api.method req ≠ "GET" ->
   Api.getSignals req kv
   = (kv, {| Api.status := 405;
             Api.json := Api.ErrorBody "Only GET is allowed" |}))
  /\ (Api.method req = "GET" ->
      truthy (Api.query_roomId req) = false ->
      Api.getSignals req kv
      = (kv, {| Api.status := 400;
                Api.json := Api.ErrorSignalsBody "Missing roomId" [] |}))
  /\ (forall key : string,
         fst (Api.getSignals req kv) !!! key = kv !!! key
         \/ (fst (Api.getSignals req kv) !!! key = []
             /\ exists room, Api.query_roomId req = Some room
                             /\ key = Api.signals_key room)).
Proof.
  unfold Api.getSignals, Api.getSignals_read. split; [|split].
  - intros Hm. by destruct (String.eqb_spec (Api.method req) "GET").
  - intros Hm Hq. rewrite Hm. cbn [String.eqb Ascii.eqb Bool.eqb negb].
    destruct (Api.query_roomId req) as [room|]; [|done]. by rewrite Hq.
  - intros key.
    destruct (negb (String.eqb (Api.method req) "GET")); [by left|].
    destruct (Api.query_roomId req) as [room|]; [|by left].
    destruct (negb (truthy (Some room))); [by left|]. cbv zeta.
    destruct (Nat.eqb _ 0); [by left|]. cbn [fst Api.getSignals_finish].
    destruct (decide (key = Api.signals_key room)) as [->|Hne].
    + right. split; [apply del_same | by exists room].
    + left. by apply del_other.
Qed.

(** A drain of a queue that is not empty, up to its [await kv.del(key)]:
    the answer is ready and the key is still to delete. *)
Lemma getSignals_read_GET (req : Api.Request)
      (kv : gmap string (list string)) (room : string) :
  Api.method req = "GET" ->
  Api.query_roomId req = Some room ->
  room ≠ "" ->
  kv !!! Api.signals_key room ≠ [] ->
  Api.getSignals_read req kv
  = Api.Deleting (Api.signals_key room)
      {| Api.status := 200;
         Api.json := Api.SignalsBody
                       (omap Api.returned_for
                             (kv !!! Api.signals_key room)) |}.
Proof.
  intros Hm Hq Hne Hqueue. unfold Api.getSignals_read.
  rewrite Hm, Hq. simpl negb at 1. cbv iota.
  apply truthy_Some in Hne. rewrite Hne. simpl negb. cbv iota zeta.
  rewrite lrange_all, parse_envelopes_returned.
  destruct (kv !!! Api.signals_key room) as [|x l]; [done|reflexivity].
Qed.

(** X27. The two commands of a drain are not one. A message pushed into
    the room between the [lrange] and the [del] of a drain of a queue
    that is not empty is accepted and stored at the head of the queue; it
    is not in what the drain answers, which is what the queue yielded
    when it was read; and the [del] deletes it with the rest. *)
Theorem push_during_drain_is_lost (room : string) (p : Api.Push)
        (kv : gmap string (list string)) :
  room ≠ "" -> Api.push_from p ≠ "" -> Api.push_type p ≠ "" ->
  kv !!! Api.signals_key room ≠ [] ->
  snd (Api.serve (Api.push_call room p) kv)
  = {| Api.status := 200; Api.json := Api.OkBody |}
  /\ fst (Api.serve (Api.push_call room p) kv) !!! Api.signals_key room
     = JSON_stringify (Api.push_envelope p) :: kv !!! Api.signals_key room
  /\ snd (Api.getSignals_finish
            (Api.getSignals_read
               {| Api.method := "GET"; Api.query_roomId := Some room;
                  Api.body := None |} kv)
            (fst (Api.serve (Api.push_call room p) kv)))
     = {| Api.status := 200;
          Api.json := Api.SignalsBody
                        (omap Api.returned_for
                              (kv !!! Api.signals_key room)) |}
  /\ fst (Api.getSignals_finish
            (Api.getSignals_read
               {| Api.method := "GET"; Api.query_roomId := Some room;
                  Api.body := None |} kv)
            (fst (Api.serve (Api.push_call room p) kv)))
       !!! Api.signals_key room
     = [].
Proof.
  intros Hroom Hfrom Htype Hqueue.
  rewrite serve_push by done. cbn [fst snd].
  rewrite (getSignals_read_GET _ kv room) by done.
  cbn [Api.getSignals_finish fst snd].
  by rewrite lpush_same, del_same.
Qed.

End ApiRuns.

Lemma drain_returns_no_pushed_envelope_witness :
  snd (Api.run (map (Api.push_call Examples.room) Examples.three_pushes
                ++ [Api.drain Examples.room]) ∅)
  = map (fun p => (Api.push_call Examples.room p,
                   {| Api.status := 200; Api.json := Api.OkBody |}))
        Examples.three_pushes
    ++ [(Api.drain Examples.room,
         {| Api.status := 200;
            Api.json := Api.SignalsBody
                          (omap Api.returned_for
                                ((∅ : gmap string (list string))
                                   !!! Api.signals_key Examples.room)) |})]
  /\ fst (Api.run (map (Api.push_call Examples.room) Examples.three_pushes
                   ++ [Api.drain Examples.room]) ∅)
       !!! Api.signals_key Examples.room = [].
Proof.
  apply (drain_returns_no_pushed_envelope
           Examples.room Examples.three_pushes ∅).
  - discriminate.
  - repeat constructor; discriminate.
  - repeat constructor; vm_compute; reflexivity.
  - vm_compute. reflexivity.
Defined.

Lemma push_during_drain_is_lost_witness :
  snd (Api.getSignals_finish
         (Api.getSignals_read
            {| Api.method := "GET"; Api.query_roomId := Some Examples.room;
               Api.body := None |} Examples.mixed_queue)
         (fst (Api.serve (Api.push_call Examples.room Examples.late_push)
                         Examples.mixed_queue)))
  = {| Api.status := 200;
       Api.json := Api.SignalsBody
                     (omap Api.returned_for
                           (Examples.mixed_queue
                              !!! Api.signals_key Examples.room)) |}
  /\ fst (Api.getSignals_finish
            (Api.getSignals_read
               {| Api.method := "GET"; Api.query_roomId := Some Examples.room;
                  Api.body := None |} Examples.mixed_queue)
            (fst (Api.serve (Api.push_call Examples.room Examples.late_push)
                            Examples.mixed_queue)))
       !!! Api.signals_key Examples.room
     = [].
Proof.
  destruct (push_during_drain_is_lost Examples.room Examples.late_push
                                      Examples.mixed_queue)
    as (_ & _ & Hanswer & Hqueue);
    [discriminate | discriminate | discriminate
     | vm_compute; discriminate |].
  by split.
Defined.

Lemma getSignals_rejects_and_scope_witness :
  Api.getSignals (Examples.post (Examples.join_of "ab12cd"))
                 Examples.mixed_queue
  = (Examples.mixed_queue,
     {| Api.status := 405; Api.json := Api.ErrorBody "Only GET is allowed" |})
  /\ Api.getSignals {| Api.method := "GET"; Api.query_roomId := None;
                       Api.body := None |} Examples.mixed_queue
     = (Examples.mixed_queue,
        {| Api.status := 400;
           Api.json := Api.ErrorSignalsBody "Missing roomId" [] |}).
Proof.
  split.
  - destruct (getSignals_rejects_and_scope
                (Examples.post (Examples.join_of "ab12cd"))
                Examples.mixed_queue) as [Hmethod _].
    apply Hmethod. discriminate.
  - destruct (getSignals_rejects_and_scope
                {| Api.method := "GET"; Api.query_roomId := None;
                   Api.body := None |} Examples.mixed_queue)
      as (_ & Hroom & _).
    apply Hroom; reflexivity.
Defined.

(** ** The polling client, further *)

Section EffFurther.

Context {S E : Type}.

(** Sequencing at one state: the first step need only respect the
    relation there. *)
Lemma respects_bind_at {A B : Type} (R : S -> S -> list E -> Prop)
      (c : Eff S E A) (k : A -> Eff S E B) (s : S) :
  (forall s s1 s2 t1 t2, R s s1 t1 -> R s1 s2 t2 -> R s s2 (t1 ++ t2)) ->
  R s (state_of c s) (trace_of c s) ->
  (forall a, respects R (k a)) ->
  R s (state_of (c ≫= k) s) (trace_of (c ≫= k) s).
Proof.
  intros Htrans Hc Hk. unfold state_of, trace_of in *. rewrite bind_run.
  destruct (c s) as [[[a|] s1] t1]; simpl in *; [|done].
  specialize (Hk a s1). unfold state_of, trace_of in Hk.
  destruct (k a s1) as [[r s2] t2]; simpl in *. by eapply Htrans.
Qed.

(** A loop over two lists in a row is the loop over the first, then the
    loop over the second. *)
Lemma for_each_app {A : Type} (body : A -> Eff S E unit) (l1 l2 : list A)
      (s : S) :
  for_each body (l1 ++ l2) s
  = (for_each body l1 ≫= fun _ => for_each body l2) s.
Proof.
  revert s. induction l1 as [|x l1 IH]; intros s.
  - simpl app. change (for_each body []) with (ret tt : Eff S E unit).
    by rewrite bind_ret_run.
  - simpl app. rewrite for_each_cons, bind_run, for_each_cons.
    destruct (body x s) as [[[[]|] s1] t1]; [|done].
    rewrite IH, bind_run.
    destruct (for_each body l1 s1) as [[[[]|] s2] t2]; [|done].
    destruct (for_each body l2 s2) as [[r s3] t3].
    by rewrite app_assoc.
Qed.

End EffFurther.

Section ScriptFurther.

Context `{RTCPeerConnection}.

Lemma orderly_refl (c : Script.Client) : Script.orderly c c [].
Proof.
  repeat split; try done.
  - exists []. by rewrite app_nil_r.
  - intros m Hm. by apply elem_of_nil in Hm.
Qed.

Lemma signed_same (c c' : Script.Client) (m : Api.Message) :
  Script.roomId c' = Script.roomId c ->
  Script.clientId c' = Script.clientId c ->
  Script.signed c' m -> Script.signed c m.
Proof.
  intros Hr Hi (type & data & Ht & ->). exists type, data. split; [done|].
  unfold Script.message. by rewrite Hr, Hi.
Qed.

Lemma orderly_trans (c c1 c2 : Script.Client)
      (t1 t2 : list (Action Api.Message)) :
  Script.orderly c c1 t1 -> Script.orderly c1 c2 t2 ->
  Script.orderly c c2 (t1 ++ t2).
Proof.
  intros (Hr1 & Hi1 & Hl1 & [m1 Hp1] & Hn1 & Ho1 & Hs1)
         (Hr2 & Hi2 & Hl2 & [m2 Hp2] & Hn2 & Ho2 & Hs2).
  repeat split.
  - congruence.
  - congruence.
  - auto.
  - exists (m1 ++ m2). by rewrite Hp2, Hp1, app_assoc.
  - auto.
  - intros Hown. rewrite <- Hi1. apply Ho2. rewrite Hi1. auto.
  - intros m [Hm|Hm]%elem_of_app; [auto|].
    apply (signed_same c c1); auto.
Qed.

(** A step that changes only the connection object and sends nothing. *)
Lemma orderly_connection (c : Script.Client) (pc : PC) (call : PcCall) :
  Script.orderly c (Script.set_peerConnection pc c) [Pc call].
Proof.
  repeat split; try done.
  - exists []. simpl. by rewrite app_nil_r.
  - intros m Hm. apply list_elem_of_singleton in Hm. done.
Qed.

Lemma orderly_pc_value (call : PcCall) (f : PC -> option JsValue * PC) :
  respects Script.orderly (Script.pc_value call f).
Proof.
  intros c. unfold state_of, trace_of.
  destruct (pc_value_run call f c) as (r & pc & ->).
  apply orderly_connection.
Qed.

Lemma orderly_pc_unit (call : PcCall) (f : PC -> bool * PC) :
  respects Script.orderly (Script.pc_unit call f).
Proof.
  intros c. unfold state_of, trace_of.
  destruct (pc_unit_run call f c) as (r & pc & ->).
  apply orderly_connection.
Qed.

Lemma orderly_latch :
  respects Script.orderly (modify (Script.set_hasSentOffer true)).
Proof.
  intros c. unfold state_of, trace_of. simpl. repeat split; try done.
  - exists []. by rewrite app_nil_r.
  - intros m Hm. by apply elem_of_nil in Hm.
Qed.

(** A message built from the variables at the time of sending is the
    script's own. *)
Lemma orderly_send (type : string) (data : JsValue) :
  type ≠ "" ->
  respects Script.orderly
    (get ≫= fun c => Script.sendSignal (Script.message c type data)).
Proof.
  intros Htype c. unfold state_of, trace_of. rewrite bind_get_run. simpl.
  repeat split; try done.
  - exists []. by rewrite app_nil_r.
  - intros m Hm. apply list_elem_of_singleton in Hm. simplify_eq.
    by exists type, data.
Qed.

Lemma orderly_bind {A B : Type} (c : Eff Script.Client _ A)
      (k : A -> Eff Script.Client _ B) :
  respects Script.orderly c ->
  (forall a, respects Script.orderly (k a)) ->
  respects Script.orderly (c ≫= k).
Proof. apply respects_bind, orderly_trans. Qed.

Lemma orderly_ret {A : Type} (a : A) :
  respects Script.orderly (ret a : Eff Script.Client _ A).
Proof. apply respects_ret, orderly_refl. Qed.

Lemma orderly_when (b : bool) (c : Eff Script.Client _ unit) :
  respects Script.orderly c -> respects Script.orderly (when b c).
Proof. apply respects_when, orderly_refl. Qed.

Lemma orderly_try_catch (c : Eff Script.Client _ unit) :
  respects Script.orderly c -> respects Script.orderly (try_catch c).
Proof. apply respects_try_catch. Qed.

Lemma orderly_for_each {A : Type} (body : A -> Eff Script.Client _ unit)
      (l : list A) :
  (forall x, respects Script.orderly (body x)) ->
  respects Script.orderly (for_each body l).
Proof. apply respects_for_each; [apply orderly_refl | apply orderly_trans]. Qed.

Create HintDb orderly discriminated.

#[local] Hint Resolve orderly_pc_value orderly_pc_unit orderly_latch
  orderly_bind orderly_ret orderly_when orderly_try_catch orderly_for_each
  : orderly.

#[local] Hint Extern 1 (respects Script.orderly (get ≫= _)) =>
  apply orderly_send; discriminate : orderly.

Lemma respects_get_bind {B : Type}
      (k : Script.Client -> Eff Script.Client (Action Api.Message) B) :
  (forall c, Script.orderly c (state_of (k c) c) (trace_of (k c) c)) ->
  respects Script.orderly (get ≫= k).
Proof.
  intros Hk c. unfold state_of, trace_of. rewrite bind_get_run. apply Hk.
Qed.

Lemma orderly_send_then (type : string) (data : JsValue)
      (k : Eff Script.Client (Action Api.Message) unit) :
  type ≠ "" ->
  respects Script.orderly k ->
  respects Script.orderly
    (get ≫= fun c =>
       Script.sendSignal (Script.message c type data) ≫= fun _ => k).
Proof.
  intros Htype Hk. apply respects_get_bind. intros c.
  apply respects_bind_at; [apply orderly_trans| |done].
  pose proof (orderly_send type data Htype c) as Hs.
  unfold state_of, trace_of in *. by rewrite bind_get_run in Hs.
Qed.

Lemma orderly_createAndSendOffer (other : string) :
  respects Script.orderly (Script.createAndSendOffer other).
Proof. unfold Script.createAndSendOffer. auto 10 with orderly. Qed.

Lemma orderly_on_offer (data : JsValue) :
  respects Script.orderly (Script.on_offer data).
Proof.
  unfold Script.on_offer.
  apply orderly_bind; [auto with orderly|]. intros _.
  apply orderly_bind; [auto with orderly|]. intros answer.
  apply orderly_bind; [auto with orderly|]. intros _.
  apply orderly_send_then; [discriminate | apply orderly_latch].
Qed.

Lemma set_add_more (x : string) (l : list string) :
  exists more, Script.set_add x l = l ++ more.
Proof.
  unfold Script.set_add. case_decide; [exists [] | exists [x]]; [|done].
  by rewrite app_nil_r.
Qed.

Lemma set_add_NoDup (x : string) (l : list string) :
  NoDup l -> NoDup (Script.set_add x l).
Proof.
  intros Hl. unfold Script.set_add. case_decide; [done|].
  apply NoDup_app. split; [done|]. split.
  - intros y Hy ->%list_elem_of_singleton. done.
  - apply NoDup_singleton.
Qed.

Lemma set_add_other (x y : string) (l : list string) :
  x ≠ y -> y ∉ l -> y ∉ Script.set_add x l.
Proof.
  intros Hne Hy. unfold Script.set_add. case_decide; [done|].
  rewrite elem_of_app, list_elem_of_singleton. intros [?|?]; done.
Qed.

(** The [join] branch, for the [join] of another peer. *)
Lemma orderly_on_join (from : string) (c : Script.Client) :
  from ≠ Script.clientId c ->
  Script.orderly c (state_of (Script.on_join from) c)
                 (trace_of (Script.on_join from) c).
Proof.
  intros Hfrom. unfold state_of, trace_of. rewrite on_join_run. cbv zeta.
  set (c1 := Script.set_peersInRoom _ c).
  assert (H1 : Script.orderly c c1 []).
  { subst c1. repeat split; simpl; try done.
    - apply set_add_more.
    - apply set_add_NoDup.
    - by apply set_add_other.
    - intros m Hm. by apply elem_of_nil in Hm. }
  match goal with
  | |- Script.orderly c (snd (fst (?f c1))) (snd (?f c1)) =>
      assert (H2 : respects Script.orderly f)
  end.
  { apply orderly_when. destruct (Script.peersInRoom c1) as [|other rest];
      [apply orderly_ret|].
    apply orderly_when, orderly_bind;
      [apply orderly_createAndSendOffer | intros _; apply orderly_latch]. }
  specialize (H2 c1). unfold state_of, trace_of in H2.
  apply (orderly_trans c c1 _ [] _ H1 H2).
Qed.

Lemma orderly_handle_envelope (env : Script.Envelope) :
  respects Script.orderly (Script.handle_envelope env).
Proof.
  unfold Script.handle_envelope. apply respects_get_bind. intros c.
  destruct (String.eqb_spec (Script.fromPeer env) (Script.clientId c))
    as [Hown|Hother]; [apply orderly_refl|].
  apply respects_bind_at; [apply orderly_trans| |].
  - destruct (String.eqb (Script.type env) "join"); unfold when;
      [by apply orderly_on_join | apply orderly_refl].
  - intros _. pose proof orderly_on_offer. unfold Script.on_answer,
      Script.on_ice_candidate. auto 10 with orderly.
Qed.

Lemma orderly_poll (signals : list Script.Envelope) :
  respects Script.orderly (Script.poll signals).
Proof.
  unfold Script.poll, Script.handleIncomingSignals.
  apply orderly_try_catch. destruct (Nat.eqb _ 0); [apply orderly_ret|].
  apply orderly_for_each, orderly_handle_envelope.
Qed.

Lemma orderly_session (events : list Script.Event) :
  respects Script.orderly (Script.session events).
Proof.
  unfold Script.session, Script.announce.
  apply orderly_bind; [apply orderly_send; discriminate|]. intros _.
  apply orderly_for_each. intros [signals|[found|]]; simpl.
  - apply orderly_poll.
  - apply orderly_send. discriminate.
  - apply orderly_ret.
Qed.

(** X5. Through the whole life of the script (the announcement, the
    polls with whatever they read, the candidates gathered, whatever the
    connection object does) its room and its id never change, the latch
    [hasSentOffer] is never cleared once set, and the set of peers only
    grows at its end, keeps its elements distinct and never takes the
    script's own id. *)
Theorem script_variables_evolve (events : list Script.Event)
        (c : Script.Client) :
  Script.roomId (state_of (Script.session events) c) = Script.roomId c
  /\ Script.clientId (state_of (Script.session events) c) = Script.clientId c
  /\ (Script.hasSentOffer c = true ->
      Script.hasSentOffer (state_of (Script.session events) c) = true)
  /\ (exists more,
         Script.peersInRoom (state_of (Script.session events) c)
         = Script.peersInRoom c ++ more)
  /\ (NoDup (Script.peersInRoom c) ->
      NoDup (Script.peersInRoom (state_of (Script.session events) c)))
  /\ (Script.clientId c ∉ Script.peersInRoom c ->
      Script.clientId c
        ∉ Script.peersInRoom (state_of (Script.session events) c)).
Proof.
  destruct (orderly_session events c) as (Hr & Hi & Hl & Hp & Hn & Ho & _).
  done.
Qed.

(** X6. Every message that the script posts in its life (its join, its
    offer or answer, its candidates) names the script's room and the
    script's id, and the push endpoint stores it: it is answered 200 and
    its envelope, under the script's id, goes to the head of the queue of
    the script's room. The room and the id are not empty. *)
Theorem script_messages_are_stored `{JSONBuiltin}
        (events : list Script.Event) (c : Script.Client) (m : Api.Message)
        (now : Z) (kv : gmap string (list string)) :
  Script.roomId c ≠ "" ->
  Script.clientId c ≠ "" ->
  Net m ∈ trace_of (Script.session events) c ->
  exists type data,
    m = Script.message c type data
    /\ Api.serve (Api.post now m) kv
       = (KV.lpush (Api.signals_key (Script.roomId c))
            (JSON_stringify
               (Api.make_envelope (Script.clientId c) type data now)) kv,
          {| Api.status := 200; Api.json := Api.OkBody |}).
Proof.
  intros Hroom Hid Hm.
  destruct (orderly_session events c) as (_ & _ & _ & _ & _ & _ & Hsigned).
  destruct (Hsigned m Hm) as (type & data & Htype & ->).
  exists type, data. split; [done|].
  unfold Api.post. cbn [Api.serve].
  by apply sendSignal_well_formed.
Qed.

(** For the offer of another peer only the second branch runs. *)
Lemma handle_envelope_offer (env : Script.Envelope) (c : Script.Client) :
  Script.type env = "offer" ->
  Script.fromPeer env ≠ Script.clientId c ->
  Script.handle_envelope env c = Script.on_offer (Script.data env) c.
Proof.
  intros Htype Hother. unfold Script.handle_envelope. rewrite bind_get_run.
  destruct (String.eqb_spec (Script.fromPeer env) (Script.clientId c));
    [done|].
  rewrite Htype.
  change (String.eqb "offer" "join") with false.
  change (String.eqb "offer" "offer") with true.
  change (String.eqb "offer" "answer") with false.
  change (String.eqb "offer" "ice-candidate") with false.
  unfold when. rewrite bind_ret_run, bind_run.
  destruct (Script.on_offer (Script.data env) c) as [[[[]|] c1] t1]; [|done].
  simpl. by rewrite app_nil_r.
Qed.

Lemma pc_unit_eq (call : PcCall) (f : PC -> bool * PC) (c : Script.Client) :
  Script.pc_unit call f c
  = match f (Script.peerConnection c) with
    | (true, pc) => (Done tt, Script.set_peerConnection pc c, [Pc call])
    | (false, pc) => (Thrown, Script.set_peerConnection pc c, [Pc call])
    end.
Proof. reflexivity. Qed.

Lemma pc_value_eq (call : PcCall) (f : PC -> option JsValue * PC)
      (c : Script.Client) :
  Script.pc_value call f c
  = match f (Script.peerConnection c) with
    | (Some v, pc) => (Done v, Script.set_peerConnection pc c, [Pc call])
    | (None, pc) => (Thrown, Script.set_peerConnection pc c, [Pc call])
    end.
Proof. reflexivity. Qed.

Lemma no_message_in_calls (calls : list PcCall) (m : Api.Message) :
  Net m ∉ (Pc <$> calls : list (Action Api.Message)).
Proof.
  intros (call & Hm & _)%list_elem_of_fmap. done.
Qed.

(** The [offer] branch: either the three calls resolve, the answer is
    sent and the latch set, or one of them fails, nothing is sent and the
    exception leaves the branch. *)
Lemma on_offer_run (data : JsValue) (c : Script.Client) :
  (exists pc answer,
      Script.on_offer data c
      = (Done tt,
         Script.set_hasSentOffer true (Script.set_peerConnection pc c),
         [Pc (SetRemoteDescription data); Pc CreateAnswer;
          Pc (SetLocalDescription answer);
          Net (Script.message c "answer" answer)]))
  \/ (exists pc calls,
         Script.on_offer data c
         = (Thrown, Script.set_peerConnection pc c, Pc <$> calls)).
Proof.
  unfold Script.on_offer. rewrite bind_run, pc_unit_eq.
  destruct (setRemoteDescription data (Script.peerConnection c))
    as [[] pc1]; cycle 1.
  { right. by exists pc1, [SetRemoteDescription data]. }
  rewrite bind_run, pc_value_eq.
  cbn [Script.peerConnection Script.set_peerConnection].
  destruct (createAnswer pc1) as [[answer|] pc2]; cycle 1.
  { right. by exists pc2, [SetRemoteDescription data; CreateAnswer]. }
  rewrite bind_run, pc_unit_eq.
  cbn [Script.peerConnection Script.set_peerConnection].
  destruct (setLocalDescription answer pc2) as [[] pc3]; cycle 1.
  { right. by exists pc3, [SetRemoteDescription data; CreateAnswer;
                          SetLocalDescription answer]. }
  left. exists pc3, answer. reflexivity.
Qed.

(** The [offer] branch when the three calls resolve. *)
Lemma on_offer_resolved (data answer : JsValue) (c : Script.Client)
      (pc1 pc2 pc3 : PC) :
  setRemoteDescription data (Script.peerConnection c) = (true, pc1) ->
  createAnswer pc1 = (Some answer, pc2) ->
  setLocalDescription answer pc2 = (true, pc3) ->
  Script.on_offer data c
  = (Done tt,
     Script.set_hasSentOffer true (Script.set_peerConnection pc3 c),
     [Pc (SetRemoteDescription data); Pc CreateAnswer;
      Pc (SetLocalDescription answer);
      Net (Script.message c "answer" answer)]).
Proof.
  intros Hremote Hanswer Hlocal.
  unfold Script.on_offer. rewrite bind_run, pc_unit_eq, Hremote.
  rewrite bind_run, pc_value_eq.
  cbn [Script.peerConnection Script.set_peerConnection]. rewrite Hanswer.
  rewrite bind_run, pc_unit_eq.
  cbn [Script.peerConnection Script.set_peerConnection]. rewrite Hlocal.
  reflexivity.
Qed.

(** X8. The offer of another peer is answered when the three calls on
    the connection object resolve, and dropped as a whole when one of
    them fails. In the first case the script calls
    [setRemoteDescription] with the offer, [createAnswer] and
    [setLocalDescription] with the answer, sends exactly one message, the
    answer that [createAnswer] produced, under its room and id, and sets
    its latch. In the second nothing is sent, no variable but the
    connection object changes, and the exception leaves the handler. *)
Theorem offer_answered_or_dropped (env : Script.Envelope) (c : Script.Client) :
  Script.type env = "offer" ->
  Script.fromPeer env ≠ Script.clientId c ->
  (forall (pc1 pc2 pc3 : PC) (answer : JsValue),
      setRemoteDescription (Script.data env) (Script.peerConnection c)
      = (true, pc1) ->
      createAnswer pc1 = (Some answer, pc2) ->
      setLocalDescription answer pc2 = (true, pc3) ->
      Script.handle_envelope env c
      = (Done tt,
         Script.set_hasSentOffer true (Script.set_peerConnection pc3 c),
         [Pc (SetRemoteDescription (Script.data env)); Pc CreateAnswer;
          Pc (SetLocalDescription answer);
          Net (Script.message c "answer" answer)]))
  /\ ((forall (pc1 pc2 pc3 : PC) (answer : JsValue),
          ~ (setRemoteDescription (Script.data env) (Script.peerConnection c)
             = (true, pc1)
             /\ createAnswer pc1 = (Some answer, pc2)
             /\ setLocalDescription answer pc2 = (true, pc3))) ->
      exists pc calls,
        Script.handle_envelope env c
        = (Thrown, Script.set_peerConnection pc c, Pc <$> calls)).
Proof.
  intros Htype Hother. rewrite handle_envelope_offer by done. split.
  - intros pc1 pc2 pc3 answer. apply on_offer_resolved.
  - intros Hfails.
    destruct (on_offer_run (Script.data env) c)
      as [(pc & answer & Hrun)|(pc & calls & Hrun)]; [|by exists pc, calls].
    exfalso.
    destruct (setRemoteDescription (Script.data env) (Script.peerConnection c))
      as [[] pc1] eqn:Hremote;
      [|unfold Script.on_offer in Hrun;
        rewrite bind_run, pc_unit_eq, Hremote in Hrun; done].
    destruct (createAnswer pc1) as [[answer1|] pc2] eqn:Hanswer;
      [|unfold Script.on_offer in Hrun;
        rewrite bind_run, pc_unit_eq, Hremote, bind_run, pc_value_eq in Hrun;
        cbn [Script.peerConnection Script.set_peerConnection] in Hrun;
        rewrite Hanswer in Hrun; done].
    destruct (setLocalDescription answer1 pc2) as [[] pc3] eqn:Hlocal;
      [by apply (Hfails pc1 pc2 pc3 answer1)|].
    unfold Script.on_offer in Hrun.
    rewrite bind_run, pc_unit_eq, Hremote, bind_run, pc_value_eq in Hrun.
    cbn [Script.peerConnection Script.set_peerConnection] in Hrun.
    rewrite Hanswer, bind_run, pc_unit_eq in Hrun.
    cbn [Script.peerConnection Script.set_peerConnection] in Hrun.
    rewrite Hlocal in Hrun. done.
Qed.

(** X9. An envelope whose handling throws ends the batch: the envelopes
    that are newer than it are not handled at all, although the drain has
    already removed them from the queue; the poll itself catches the
    exception and returns. *)
Theorem failing_envelope_ends_batch (newer older : list Script.Envelope)
        (env : Script.Envelope) (c c1 c2 : Script.Client)
        (t1 t2 : list (Action Api.Message)) :
  Script.handleIncomingSignals older c = (Done tt, c1, t1) ->
  Script.handle_envelope env c1 = (Thrown, c2, t2) ->
  Script.handleIncomingSignals (newer ++ env :: older) c
  = (Thrown, c2, t1 ++ t2)
  /\ Script.poll (newer ++ env :: older) c = (Done tt, c2, t1 ++ t2).
Proof.
  intros Holder Henv.
  assert (Hbatch : Script.handleIncomingSignals (newer ++ env :: older) c
                   = (Thrown, c2, t1 ++ t2)).
  { unfold Script.handleIncomingSignals in *.
    rewrite rev_app_distr. cbn [rev]. rewrite <- app_assoc.
    rewrite for_each_app, bind_run, Holder. cbn [app].
    by rewrite for_each_cons, Henv. }
  split; [done|]. unfold Script.poll, try_catch.
  replace (Nat.eqb (length (newer ++ env :: older)) 0) with false
    by (symmetry; apply Nat.eqb_neq; rewrite length_app; simpl; lia).
  by rewrite Hbatch.
Qed.

Lemma on_join_returns (from : string) (c : Script.Client) :
  fst (fst (Script.on_join from c)) = Done tt.
Proof.
  rewrite on_join_run. cbv zeta. unfold when.
  destruct (negb _ && _); [|done].
  destruct (Script.peersInRoom _) as [|other rest]; [done|].
  destruct (js_lt _ other); [|done].
  by destruct (offer_step_run other
                 (Script.set_peersInRoom
                    (Script.set_add from (Script.peersInRoom c)) c))
    as (pc & t & -> & _).
Qed.

(** Only the [offer] and [answer] branches let an exception out. *)
Lemma handle_envelope_returns (env : Script.Envelope) (c : Script.Client) :
  Script.type env ≠ "offer" ->
  Script.type env ≠ "answer" ->
  fst (fst (Script.handle_envelope env c)) = Done tt.
Proof.
  intros Hoffer Hanswer. unfold Script.handle_envelope. rewrite bind_get_run.
  destruct (String.eqb (Script.fromPeer env) (Script.clientId c)); [done|].
  apply String.eqb_neq in Hoffer, Hanswer. rewrite Hoffer, Hanswer.
  unfold when at 2 3. rewrite bind_run.
  assert (Hjoin : fst (fst (when (String.eqb (Script.type env) "join")
                              (Script.on_join (Script.fromPeer env)) c))
                  = Done tt).
  { unfold when. destruct (String.eqb _ "join"); [|done].
    apply on_join_returns. }
  destruct (when _ _ c) as [[[[]|] c1] t1]; [|done].
  rewrite !bind_ret_run. unfold when, Script.on_ice_candidate, try_catch.
  destruct (String.eqb _ "ice-candidate"); [|done].
  by destruct (Script.pc_unit _ _ c1) as [[[[]|] c2] t2].
Qed.

(** X10. A batch without [offer] and [answer] envelopes is always handled
    to its end, whatever the connection object does: a candidate that
    cannot be added is logged and skipped, and an offer that cannot be
    made does not stop the loop. *)
Theorem batch_without_descriptions_completes
        (envelopes : list Script.Envelope) (c : Script.Client) :
  Forall (fun env => Script.type env ≠ "offer" /\ Script.type env ≠ "answer")
         envelopes ->
  fst (fst (Script.handleIncomingSignals envelopes c)) = Done tt.
Proof.
  intros Hall. unfold Script.handleIncomingSignals.
  assert (Hrev : Forall (fun env => Script.type env ≠ "offer"
                                    /\ Script.type env ≠ "answer")
                        (rev envelopes))
    by (by apply List.Forall_rev).
  clear Hall. revert c.
  induction Hrev as [|env rest [Hoffer Hanswer] Hrest IH]; intros c; [done|].
  rewrite for_each_cons.
  pose proof (handle_envelope_returns env c Hoffer Hanswer) as Hret.
  destruct (Script.handle_envelope env c) as [[[[]|] c1] t1]; [|done].
  specialize (IH c1).
  by destruct (for_each Script.handle_envelope rest c1) as [[r c2] t2].
Qed.

End ScriptFurther.

Lemma script_variables_evolve_witness :
  Script.hasSentOffer
    (state_of (Script.session Examples.script_life) Examples.script_latched)
  = true
  /\ NoDup (Script.peersInRoom
              (state_of (Script.session Examples.script_life)
                        Examples.script_with_peer))
  /\ Script.clientId Examples.script_with_peer
       ∉ Script.peersInRoom
           (state_of (Script.session Examples.script_life)
                     Examples.script_with_peer).
Proof.
  destruct (script_variables_evolve (H:=resolving_connection)
              Examples.script_life Examples.script_latched)
    as (_ & _ & Hlatch & _).
  destruct (script_variables_evolve (H:=resolving_connection)
              Examples.script_life Examples.script_with_peer)
    as (_ & _ & _ & _ & Hdistinct & Hown).
  split; [|split].
  - apply Hlatch. reflexivity.
  - apply Hdistinct. apply (bool_decide_unpack _). vm_compute. exact I.
  - apply Hown. apply (bool_decide_unpack _). vm_compute. exact I.
Defined.

Lemma script_messages_are_stored_witness :
  exists type data,
    Script.message Examples.script_joined "offer" Examples.offer
    = Script.message Examples.script_joined type data
    /\ Api.serve
         (Api.post 19 (Script.message Examples.script_joined "offer"
                                      Examples.offer)) ∅
       = (KV.lpush (Api.signals_key (Script.roomId Examples.script_joined))
            (JSON_stringify
               (Api.make_envelope (Script.clientId Examples.script_joined)
                                  type data 19)) ∅,
          {| Api.status := 200; Api.json := Api.OkBody |}).
Proof.
  apply (script_messages_are_stored (H:=resolving_connection)
           Examples.script_life Examples.script_joined).
  - discriminate.
  - discriminate.
  - apply list_elem_of_In. vm_compute. auto 10.
Defined.

Lemma offer_answered_or_dropped_witness :
  Script.handle_envelope Examples.offer_envelope Examples.script_joined
  = (Done tt,
     Script.set_hasSentOffer true
       (Script.set_peerConnection tt Examples.script_joined),
     [Pc (SetRemoteDescription (Script.data Examples.offer_envelope));
      Pc CreateAnswer;
      Pc (SetLocalDescription (session_description "answer"));
      Net (Script.message Examples.script_joined "answer"
                          (session_description "answer"))])
  /\ exists pc calls,
      @Script.handle_envelope rejecting_connection Examples.offer_envelope
                              Examples.script_rejecting
      = (Thrown,
         @Script.set_peerConnection rejecting_connection pc
                                    Examples.script_rejecting,
         Pc <$> calls).
Proof.
  split.
  - destruct (offer_answered_or_dropped (H:=resolving_connection)
                Examples.offer_envelope Examples.script_joined)
      as [Hanswered _]; [reflexivity | discriminate |].
    apply (Hanswered tt tt tt (session_description "answer")); reflexivity.
  - destruct (offer_answered_or_dropped (H:=rejecting_connection)
                Examples.offer_envelope Examples.script_rejecting)
      as [_ Hdropped]; [reflexivity | discriminate |].
    apply Hdropped. intros pc1 pc2 pc3 answer [Hremote _]. discriminate.
Defined.

Lemma failing_envelope_ends_batch_witness :
  @Script.handleIncomingSignals rejecting_connection
    ([Script.join_envelope "zz99yy" 18] ++ Examples.offer_envelope :: [])
    Examples.script_rejecting
  = (Thrown, Examples.script_rejecting,
     [] ++ [Pc (SetRemoteDescription Examples.offer)])
  /\ @Script.poll rejecting_connection
       ([Script.join_envelope "zz99yy" 18] ++ Examples.offer_envelope :: [])
       Examples.script_rejecting
     = (Done tt, Examples.script_rejecting,
        [] ++ [Pc (SetRemoteDescription Examples.offer)]).
Proof.
  apply (failing_envelope_ends_batch (H:=rejecting_connection)
           [Script.join_envelope "zz99yy" 18] [] Examples.offer_envelope
           Examples.script_rejecting Examples.script_rejecting).
  - reflexivity.
  - reflexivity.
Defined.

Lemma batch_without_descriptions_completes_witness :
  fst (fst (@Script.handleIncomingSignals rejecting_connection
              Examples.join_and_candidate Examples.script_rejecting))
  = Done tt.
Proof.
  apply (batch_without_descriptions_completes (H:=rejecting_connection)).
  repeat constructor; discriminate.
Defined.

(** ** The Socket.IO server, over its histories *)

Lemma joins_cons (socket : string) (i : Server.Input)
      (rest : list Server.Input) :
  Server.joins socket (i :: rest)
  = ((if Server.is_join_room_of socket i then 1 else 0)
     + Server.joins socket rest)%nat.
Proof.
  unfold Server.joins. cbn [List.filter].
  by destruct (Server.is_join_room_of socket i).
Qed.

Lemma run_cons (st : Server.State) (i : Server.Input)
      (rest : list Server.Input) :
  Server.run st (i :: rest)
  = (fst (Server.run (fst (Server.step st i)) rest),
     snd (Server.step st i) ++ snd (Server.run (fst (Server.step st i)) rest)).
Proof.
  change (Server.run st (i :: rest))
    with (let '(st1, out1) := Server.step st i in
          let '(st2, out2) := Server.run st1 rest in (st2, out1 ++ out2)).
  destruct (Server.step st i) as [st1 out1]. cbn [fst snd].
  by destruct (Server.run st1 rest) as [st2 out2].
Qed.

(** A socket that has run no [join-room] handler has no listener for the
    signaling messages or for [disconnect]; it stays so while it emits no
    [join-room]. *)
Lemma step_unjoined (st : Server.State) (socket : string) (i : Server.Input) :
  Server.is_join_room_of socket i = false ->
  (Server.listeners st !! socket = None
   \/ Server.listeners st !! socket = Some []) ->
  Server.listeners (fst (Server.step st i)) !! socket = None
  \/ Server.listeners (fst (Server.step st i)) !! socket = Some [].
Proof.
  intros Hi Hl. destruct i as [s|s e|s]; cbn [Server.step];
    destruct (Server.listeners st !! s) as [registered|] eqn:E;
    cbn [fst Server.listeners]; try done.
  - destruct (decide (s = socket)) as [->|Hne].
    + right. apply lookup_insert_eq.
    + by rewrite lookup_insert_ne.
  - destruct e; cbn [fst Server.listeners]; try done.
    cbn in Hi. apply bool_decide_eq_false in Hi.
    by rewrite lookup_insert_ne.
  - destruct (decide (s = socket)) as [->|Hne].
    + left. apply lookup_delete_eq.
    + by rewrite lookup_delete_ne.
Qed.

Lemma run_unjoined (socket : string) (inputs : list Server.Input) :
  forall st,
    Server.joins socket inputs = 0%nat ->
    (Server.listeners st !! socket = None
     \/ Server.listeners st !! socket = Some []) ->
    Server.listeners (fst (Server.run st inputs)) !! socket = None
    \/ Server.listeners (fst (Server.run st inputs)) !! socket = Some [].
Proof.
  induction inputs as [|i rest IH]; intros st Hj Hl; [done|].
  rewrite joins_cons in Hj. rewrite run_cons. cbn [fst].
  destruct (Server.is_join_room_of socket i) eqn:Hi; [lia|].
  apply IH; [lia|]. by apply step_unjoined.
Qed.

(** X11. The listeners for [offer], [answer], [ice-candidate] and
    [disconnect] are registered by the [join-room] handler: whatever
    happened on the server, while a socket has emitted no [join-room] its
    signaling messages are relayed to nobody and change nothing, and its
    disconnecting notifies nobody. *)
Theorem no_relay_before_join_room (inputs : list Server.Input)
        (socket : string) (e : Server.ClientEvent) :
  Server.joins socket inputs = 0%nat ->
  (forall room, e ≠ Server.JoinRoom room) ->
  Server.step (fst (Server.run Server.init inputs)) (Server.FromClient socket e)
  = (fst (Server.run Server.init inputs), [])
  /\ snd (Server.step (fst (Server.run Server.init inputs))
            (Server.Disconnect socket))
     = [].
Proof.
  intros Hj He.
  destruct (run_unjoined socket inputs Server.init Hj) as [Hl|Hl];
    [left; apply lookup_empty| |]; cbn [Server.step]; rewrite Hl.
  - by destruct e.
  - split; [|done].
    destruct e as [room|t p|t p|t p]; [by destruct (He room)|done..].
Qed.

Lemma no_relay_before_join_room_witness :
  Server.step (fst (Server.run Server.init
                      [Server.Connect "A";
                       Server.FromClient "A" (Server.JoinRoom Examples.room);
                       Server.Connect "B"]))
              (Server.FromClient "B" (Server.OfferTo (Some "A") Examples.offer))
  = (fst (Server.run Server.init
            [Server.Connect "A";
             Server.FromClient "A" (Server.JoinRoom Examples.room);
             Server.Connect "B"]), [])
  /\ snd (Server.step (fst (Server.run Server.init
                              [Server.Connect "A";
                               Server.FromClient "A" (Server.JoinRoom Examples.room);
                               Server.Connect "B"]))
            (Server.Disconnect "B"))
     = [].
Proof.
  apply (no_relay_before_join_room
           [Server.Connect "A";
            Server.FromClient "A" (Server.JoinRoom Examples.room);
            Server.Connect "B"]
           "B" (Server.OfferTo (Some "A") Examples.offer)).
  - reflexivity.
  - discriminate.
Defined.

(** The rooms hold connected sockets only: a socket enters a room when it
    connects or joins, and leaves every room when it disconnects. *)
Lemma step_members_connected (st : Server.State) (i : Server.Input) :
  Server.members_connected st ->
  Server.members_connected (fst (Server.step st i)).
Proof.
  unfold Server.members_connected, Server.connected. intros Hm room t.
  destruct i as [s|s e|s]; cbn [Server.step];
    destruct (Server.listeners st !! s) as [registered|] eqn:E;
    cbn [fst Server.listeners Server.rooms]; try apply Hm.
  - rewrite members_join. intros Hin.
    destruct (decide (s = t)) as [->|Hne]; [by rewrite lookup_insert_eq|].
    rewrite lookup_insert_ne by done. apply (Hm room).
    case_decide; set_solver.
  - destruct e; cbn [fst Server.listeners Server.rooms]; try apply Hm.
    rewrite members_join. intros Hin.
    destruct (decide (s = t)) as [->|Hne]; [by rewrite lookup_insert_eq|].
    rewrite lookup_insert_ne by done.
    case_decide; [subst; apply (Hm room)|apply (Hm room)]; set_solver.
  - rewrite members_leave_all. intros Hin.
    rewrite lookup_delete_ne by set_solver. apply (Hm room). set_solver.
Qed.

Lemma run_members_connected (inputs : list Server.Input) :
  forall st,
    Server.members_connected st ->
    Server.members_connected (fst (Server.run st inputs)).
Proof.
  induction inputs as [|i rest IH]; intros st Hm; [done|].
  rewrite run_cons. cbn [fst]. by apply IH, step_members_connected.
Qed.

Lemma init_members_connected : Server.members_connected Server.init.
Proof.
  intros room t Hin. cbn in Hin.
  rewrite lookup_total_alt, lookup_empty in Hin. set_solver.
Qed.

(** Whatever the server emits in one step goes to members of a room. *)
Lemma step_deliveries_members (st : Server.State) (i : Server.Input)
      (d : Server.Delivery) :
  d ∈ snd (Server.step st i) -> exists room, fst d ∈ Server.rooms st !!! room.
Proof.
  destruct i as [s|s e|s]; cbn [Server.step];
    destruct (Server.listeners st !! s) as [registered|] eqn:E; cbn [snd];
    try (by intros ?%elem_of_nil).
  - destruct e as [room|[target|] p|[target|] p|[target|] p];
      cbn [snd Server.relay].
    + intros (t & -> & Hin & Hne & _)%elem_of_socket_to. exists room.
      rewrite members_join, decide_True in Hin by done. set_solver.
    + intros [_ (t & -> & Hin)%elem_of_io_to]%elem_of_per_listener. eauto.
    + by intros [_ ?%elem_of_nil]%elem_of_per_listener.
    + intros [_ (t & -> & Hin)%elem_of_io_to]%elem_of_per_listener. eauto.
    + by intros [_ ?%elem_of_nil]%elem_of_per_listener.
    + intros [_ (t & -> & Hin)%elem_of_io_to]%elem_of_per_listener. eauto.
    + by intros [_ ?%elem_of_nil]%elem_of_per_listener.
  - intros (room & _ & (t & -> & Hin & Hne & _)%elem_of_socket_to)%elem_of_concat_fmap.
    exists room. rewrite members_leave_all in Hin. set_solver.
Qed.

(** Only [connection] makes a socket a connected one. *)
Lemma step_stays_unconnected (st : Server.State) (socket : string)
      (i : Server.Input) :
  i ≠ Server.Connect socket ->
  ~ Server.connected st socket ->
  ~ Server.connected (fst (Server.step st i)) socket.
Proof.
  unfold Server.connected. intros Hi Hc.
  destruct i as [s|s e|s]; cbn [Server.step];
    destruct (Server.listeners st !! s) as [registered|] eqn:E;
    cbn [fst Server.listeners]; try done.
  - rewrite lookup_insert_ne; [done|]. by intros ->.
  - destruct e; cbn [fst Server.listeners]; try done.
    rewrite lookup_insert_ne; [done|]. intros ->. apply Hc. by rewrite E.
  - intros [x Hx]. apply lookup_delete_Some in Hx as [_ Hx].
    apply Hc. by rewrite Hx.
Qed.

Lemma run_unconnected_receives_nothing (socket : string)
      (later : list Server.Input) :
  forall st (d : Server.Delivery),
    Server.members_connected st ->
    ~ Server.connected st socket ->
    Server.Connect socket ∉ later ->
    d ∈ snd (Server.run st later) ->
    fst d ≠ socket.
Proof.
  induction later as [|i rest IH]; intros st d Hm Hc Hlater;
    [by intros ?%elem_of_nil|].
  rewrite run_cons. cbn [snd]. rewrite elem_of_app. intros [Hd|Hd].
  - apply step_deliveries_members in Hd as [room Hin].
    intros <-. by apply Hc, (Hm room).
  - apply (IH (fst (Server.step st i))); try done.
    + by apply step_members_connected.
    + apply step_stays_unconnected; [|done]. set_solver.
    + set_solver.
Qed.

(** X12. In every state that the server can reach, a socket that is not
    connected (it never connected, or it disconnected) is sent nothing,
    whatever the others do, until it connects. *)
Theorem unconnected_socket_receives_nothing
        (inputs later : list Server.Input) (socket : string)
        (d : Server.Delivery) :
  ~ Server.connected (fst (Server.run Server.init inputs)) socket ->
  Server.Connect socket ∉ later ->
  d ∈ snd (Server.run (fst (Server.run Server.init inputs)) later) ->
  fst d ≠ socket.
Proof.
  intros Hc Hlater. apply run_unconnected_receives_nothing; try done.
  apply run_members_connected, init_members_connected.
Qed.

Lemma unconnected_socket_receives_nothing_witness :
  fst (("A", Server.Offer "A" Examples.offer) : Server.Delivery) ≠ "B".
Proof.
  apply (unconnected_socket_receives_nothing
           (PublicScript.two_joins "A" "B" Examples.room
            ++ [Server.Disconnect "B"])
           [Server.FromClient "A" (Server.OfferTo (Some "B") Examples.offer);
            Server.FromClient "A" (Server.OfferTo (Some "A") Examples.offer)]
           "B" ("A", Server.Offer "A" Examples.offer)).
  - intros [registered Hl]. vm_compute in Hl. discriminate.
  - intros Hin. apply elem_of_cons in Hin as [Hin|Hin]; [discriminate|].
    apply list_elem_of_singleton in Hin. discriminate.
  - vm_compute. apply list_elem_of_here.
Defined.

(** The events that reach one socket, of an emission to each socket of a
    list without duplicates. *)
Lemma inbox_app (t : string) (l1 l2 : list Server.Delivery) :
  Server.inbox t (l1 ++ l2) = Server.inbox t l1 ++ Server.inbox t l2.
Proof. unfold Server.inbox. by rewrite List.filter_app, fmap_app. Qed.

Lemma inbox_to_each (t : string) (e : Server.ServerEvent) (l : list string) :
  NoDup l ->
  Server.inbox t ((fun x => (x, e)) <$> l) = if decide (t ∈ l) then [e] else [].
Proof.
  induction 1 as [|x l Hx Hl IH].
  - rewrite decide_False; [done|]. apply not_elem_of_nil.
  - change ((fun x0 => (x0, e)) <$> x :: l)
      with ([(x, e)] ++ ((fun x0 => (x0, e)) <$> l)).
    rewrite inbox_app, IH. unfold Server.inbox. cbn [List.filter fst].
    destruct (decide (x = t)) as [->|Hne].
    + rewrite bool_decide_eq_true_2 by done.
      rewrite (decide_False (P := t ∈ l)) by done.
      rewrite decide_True by apply list_elem_of_here. done.
    + rewrite bool_decide_eq_false_2 by done.
      destruct (decide (t ∈ l)) as [Hin|Hout].
      * rewrite decide_True by (by apply list_elem_of_further). done.
      * rewrite decide_False; [done|].
        intros [->|Hin]%elem_of_cons; done.
Qed.

Lemma inbox_per_listener (t : string) (out : list Server.Delivery)
      (e : Server.ServerEvent) (registered : list string) :
  Server.inbox t out = [e] ->
  Server.inbox t (concat ((fun _ => out) <$> registered))
  = replicate (length registered) e.
Proof.
  intros Hout. induction registered as [|x l IH]; [done|].
  cbn [fmap list_fmap concat length replicate].
  change (list_fmap string (list Server.Delivery) (fun _ => out) l)
    with ((fun _ : string => out) <$> l).
  by rewrite inbox_app, Hout, IH.
Qed.

Lemma inbox_io_to (r : gmap string (gset string)) (target t : string)
      (e : Server.ServerEvent) :
  t ∈ r !!! target -> Server.inbox t (Server.io_to r (Some target) e) = [e].
Proof.
  intros Hin. unfold Server.io_to.
  rewrite inbox_to_each by apply NoDup_elements.
  rewrite decide_True; [done|]. by apply elem_of_elements.
Qed.

(** While a socket stays connected, each of its [join-room] events
    registers one more set of listeners. *)
Lemma run_listeners (socket : string) (rest : list Server.Input) :
  forall (st : Server.State) (registered : list string),
    Server.listeners st !! socket = Some registered ->
    Server.Disconnect socket ∉ rest ->
    exists registered',
      Server.listeners (fst (Server.run st rest)) !! socket = Some registered'
      /\ length registered'
         = (length registered + Server.joins socket rest)%nat.
Proof.
  induction rest as [|i rest IH]; intros st registered Hl Hrest.
  - exists registered. split; [done|]. unfold Server.joins. simpl. lia.
  - rewrite run_cons, joins_cons. cbn [fst].
    assert (Hi : i ≠ Server.Disconnect socket) by set_solver.
    assert (Hr : Server.Disconnect socket ∉ rest) by set_solver.
    assert (Hstep : exists registered1,
               Server.listeners (fst (Server.step st i)) !! socket
               = Some registered1
               /\ length registered1
                  = (length registered
                     + if Server.is_join_room_of socket i then 1 else 0)%nat).
    { destruct i as [s|s e|s]; cbn [Server.step Server.is_join_room_of];
        destruct (Server.listeners st !! s) as [registered0|] eqn:E;
        cbn [fst Server.listeners];
        try (exists registered; split; [done|lia]).
      - exists registered. split; [|lia].
        rewrite lookup_insert_ne; [done|]. intros ->. congruence.
      - destruct e; cbn [fst Server.listeners];
          try (exists registered; split; [done|lia]).
        destruct (decide (s = socket)) as [->|Hne].
        + rewrite bool_decide_eq_true_2 by done.
          exists (registered0 ++ [roomId]). rewrite lookup_insert_eq.
          split; [done|]. rewrite length_app. simplify_eq. simpl. lia.
        + rewrite bool_decide_eq_false_2 by done.
          exists registered. rewrite lookup_insert_ne by done.
          split; [done|lia].
      - destruct e; exists registered; (split; [done|]);
          try lia.
        destruct (decide (s = socket)) as [->|Hne]; [congruence|].
        rewrite bool_decide_eq_false_2 by done. lia.
      - exists registered. split; [|lia].
        rewrite lookup_delete_ne; [done|]. intros ->. done. }
    destruct Hstep as (registered1 & Hl1 & Hlen1).
    destruct (IH _ _ Hl1 Hr) as (registered' & Hl' & Hlen').
    exists registered'. split; [done|]. lia.
Qed.

(** X13. A signaling message is relayed once per [join-room] handler that
    the sender has run: to a member of the room named by [targetId] an
    offer, an answer or a candidate arrives as many times as the sender
    has emitted [join-room] since it connected, whatever rooms it named. *)
Theorem relay_once_per_join_room (st : Server.State)
        (rest : list Server.Input) (socket target t : string)
        (registered : list string) (payload : JsValue) :
  Server.listeners st !! socket = Some registered ->
  Server.Disconnect socket ∉ rest ->
  t ∈ Server.rooms (fst (Server.run st rest)) !!! target ->
  Server.inbox t
    (snd (Server.step (fst (Server.run st rest))
            (Server.FromClient socket (Server.OfferTo (Some target) payload))))
  = replicate (length registered + Server.joins socket rest)
              (Server.Offer socket payload)
  /\ Server.inbox t
       (snd (Server.step (fst (Server.run st rest))
               (Server.FromClient socket
                  (Server.AnswerTo (Some target) payload))))
     = replicate (length registered + Server.joins socket rest)
                 (Server.Answer socket payload)
  /\ Server.inbox t
       (snd (Server.step (fst (Server.run st rest))
               (Server.FromClient socket
                  (Server.IceCandidateTo (Some target) payload))))
     = replicate (length registered + Server.joins socket rest)
                 (Server.IceCandidate socket payload).
Proof.
  intros Hl Hrest Hin.
  destruct (run_listeners socket rest st registered Hl Hrest)
    as (registered' & Hl' & <-).
  cbn [Server.step]. rewrite Hl'. cbn [snd Server.relay].
  repeat split; by apply inbox_per_listener, inbox_io_to.
Qed.

Lemma relay_once_per_join_room_witness :
  Server.inbox "A"
    (snd (Server.step
            (fst (Server.run Examples.one_in_room
                    [Server.FromClient "B" (Server.JoinRoom Examples.room);
                     Server.FromClient "B" (Server.JoinRoom "lobby")]))
            (Server.FromClient "B" (Server.OfferTo (Some "A") Examples.offer))))
  = replicate (length ([] : list string)
               + Server.joins "B"
                   [Server.FromClient "B" (Server.JoinRoom Examples.room);
                    Server.FromClient "B" (Server.JoinRoom "lobby")])
              (Server.Offer "B" Examples.offer)
  /\ Server.inbox "A"
       (snd (Server.step
               (fst (Server.run Examples.one_in_room
                       [Server.FromClient "B" (Server.JoinRoom Examples.room);
                        Server.FromClient "B" (Server.JoinRoom "lobby")]))
               (Server.FromClient "B"
                  (Server.AnswerTo (Some "A") Examples.offer))))
     = replicate (length ([] : list string)
                  + Server.joins "B"
                      [Server.FromClient "B" (Server.JoinRoom Examples.room);
                       Server.FromClient "B" (Server.JoinRoom "lobby")])
                 (Server.Answer "B" Examples.offer)
  /\ Server.inbox "A"
       (snd (Server.step
               (fst (Server.run Examples.one_in_room
                       [Server.FromClient "B" (Server.JoinRoom Examples.room);
                        Server.FromClient "B" (Server.JoinRoom "lobby")]))
               (Server.FromClient "B"
                  (Server.IceCandidateTo (Some "A") Examples.offer))))
     = replicate (length ([] : list string)
                  + Server.joins "B"
                      [Server.FromClient "B" (Server.JoinRoom Examples.room);
                       Server.FromClient "B" (Server.JoinRoom "lobby")])
                 (Server.IceCandidate "B" Examples.offer).
Proof.
  apply (relay_once_per_join_room Examples.one_in_room
           [Server.FromClient "B" (Server.JoinRoom Examples.room);
            Server.FromClient "B" (Server.JoinRoom "lobby")]
           "B" "A" "A" [] Examples.offer).
  - vm_compute. reflexivity.
  - intros Hin. apply elem_of_cons in Hin as [Hin|Hin]; [discriminate|].
    apply list_elem_of_singleton in Hin. discriminate.
  - apply (bool_decide_unpack _). vm_compute. exact I.
Defined.

(** X14. [join-room] tells of the new participant, exactly once, every
    socket that was in the room before, other than the joining socket and
    the sockets in the room named by its id; it tells nobody else. *)
Theorem join_room_tells_members_once (st : Server.State)
        (socket room t : string) :
  Server.connected st socket ->
  Server.inbox t
    (snd (Server.step st (Server.FromClient socket (Server.JoinRoom room))))
  = if bool_decide (t ∈ Server.rooms st !!! room /\ t ≠ socket
                    /\ t ∉ Server.rooms st !!! socket)
    then [Server.NewParticipant socket]
    else [].
Proof.
  intros [registered Hl]. rewrite (step_join_room st socket room registered Hl).
  cbn [snd]. unfold Server.socket_to.
  rewrite inbox_to_each by apply NoDup_elements.
  rewrite !members_join. rewrite (decide_True (P := room = room)) by done.
  case_bool_decide as Ht.
  - rewrite decide_True; [done|]. apply elem_of_elements.
    destruct (decide (room = socket)); [subst|]; set_solver.
  - rewrite decide_False; [done|]. rewrite elem_of_elements.
    intros Hin. apply Ht.
    destruct (decide (room = socket)); [subst|]; set_solver.
Qed.

Lemma join_room_tells_members_once_witness :
  Server.inbox "A"
    (snd (Server.step Examples.one_in_room
            (Server.FromClient "B" (Server.JoinRoom Examples.room))))
  = (if bool_decide ("A" ∈ Server.rooms Examples.one_in_room !!! Examples.room
                     /\ "A" ≠ "B"
                     /\ "A" ∉ Server.rooms Examples.one_in_room !!! "B")
     then [Server.NewParticipant "B"]
     else [])
  /\ Server.inbox "B"
       (snd (Server.step Examples.one_in_room
               (Server.FromClient "B" (Server.JoinRoom Examples.room))))
     = (if bool_decide ("B" ∈ Server.rooms Examples.one_in_room !!! Examples.room
                        /\ "B" ≠ "B"
                        /\ "B" ∉ Server.rooms Examples.one_in_room !!! "B")
        then [Server.NewParticipant "B"]
        else []).
Proof.
  split.
  - apply (join_room_tells_members_once Examples.one_in_room
             "B" Examples.room "A").
    exists []. vm_compute. reflexivity.
  - apply (join_room_tells_members_once Examples.one_in_room
             "B" Examples.room "B").
    exists []. vm_compute. reflexivity.
Defined.

(** ** The live-channel client, listener by listener *)

Section PublicScriptFurther.

Context `{RTCPeerConnection}.

Lemma live_pc_unit_some (call : PcCall) (f : PC -> bool * PC)
      (c : PublicScript.Client) (pc : PC) :
  PublicScript.peerConnection c = Some pc ->
  PublicScript.pc_unit call f c
  = match f pc with
    | (true, pc') =>
        (Done tt, PublicScript.set_peerConnection (Some pc') c, [Pc call])
    | (false, pc') =>
        (Thrown, PublicScript.set_peerConnection (Some pc') c, [Pc call])
    end.
Proof. intros Hpc. unfold PublicScript.pc_unit. by rewrite Hpc. Qed.

Lemma live_pc_value_some (call : PcCall) (f : PC -> option JsValue * PC)
      (c : PublicScript.Client) (pc : PC) :
  PublicScript.peerConnection c = Some pc ->
  PublicScript.pc_value call f c
  = match f pc with
    | (Some v, pc') =>
        (Done v, PublicScript.set_peerConnection (Some pc') c, [Pc call])
    | (None, pc') =>
        (Thrown, PublicScript.set_peerConnection (Some pc') c, [Pc call])
    end.
Proof. intros Hpc. unfold PublicScript.pc_value. by rewrite Hpc. Qed.

Lemma set_peerConnection_same (c : PublicScript.Client) :
  PublicScript.set_peerConnection (PublicScript.peerConnection c) c = c.
Proof. by destruct c. Qed.

Lemma live_no_message_in_calls (calls : list PcCall) (m : Server.ClientEvent) :
  Net m ∉ (Pc <$> calls : list (Action Server.ClientEvent)).
Proof. intros (call & Hm & _)%list_elem_of_fmap. done. Qed.

(** [createAndSendOffer]: either both calls resolve and the offer is
    emitted to the counterpart the script holds, or nothing is emitted;
    it returns in both cases, and without a connection object it calls
    nothing. *)
Lemma live_createAndSendOffer_cases (c : PublicScript.Client) :
  (exists pc offer,
      PublicScript.peerConnection c ≠ None
      /\ PublicScript.createAndSendOffer c
         = (Done tt, PublicScript.set_peerConnection (Some pc) c,
            [Pc CreateOffer; Pc (SetLocalDescription offer);
             Net (Server.OfferTo (PublicScript.otherPeerId c) offer)]))
  \/ (exists pc calls,
         PublicScript.createAndSendOffer c
         = (Done tt, PublicScript.set_peerConnection pc c, Pc <$> calls)
         /\ (PublicScript.peerConnection c = None -> pc = None /\ calls = [])).
Proof.
  unfold PublicScript.createAndSendOffer, try_catch. rewrite bind_run.
  destruct (PublicScript.peerConnection c) as [pc|] eqn:Hpc; cycle 1.
  { right. exists None, []. unfold PublicScript.pc_value. rewrite Hpc.
    rewrite <- Hpc at 1. by rewrite set_peerConnection_same. }
  rewrite (live_pc_value_some _ _ c pc Hpc).
  destruct (createOffer pc) as [[offer|] pc1]; cycle 1.
  { right. by exists (Some pc1), [CreateOffer]. }
  rewrite bind_run.
  rewrite (live_pc_unit_some _ _ _ pc1) by done.
  destruct (setLocalDescription offer pc1) as [[] pc2]; cycle 1.
  { right. by exists (Some pc2), [CreateOffer; SetLocalDescription offer]. }
  left. exists pc2, offer. split; [done|reflexivity].
Qed.

(** The listener of [offer]: the caller becomes the counterpart; then
    either the three calls resolve and the answer is emitted to the
    caller, or nothing is emitted. *)
Lemma live_on_offer_cases (callerId : string) (offer : JsValue)
      (c : PublicScript.Client) :
  (exists pc answer,
      PublicScript.peerConnection c ≠ None
      /\ PublicScript.on_offer callerId offer c
         = (Done tt,
            PublicScript.set_peerConnection (Some pc)
              (PublicScript.set_otherPeerId (Some callerId) c),
            [Pc (SetRemoteDescription offer); Pc CreateAnswer;
             Pc (SetLocalDescription answer);
             Net (Server.AnswerTo (Some callerId) answer)]))
  \/ (exists pc calls,
         PublicScript.on_offer callerId offer c
         = (Done tt,
            PublicScript.set_peerConnection pc
              (PublicScript.set_otherPeerId (Some callerId) c),
            Pc <$> calls)
         /\ (PublicScript.peerConnection c = None -> pc = None /\ calls = [])).
Proof.
  unfold PublicScript.on_offer. rewrite bind_modify_run.
  set (c1 := PublicScript.set_otherPeerId (Some callerId) c).
  unfold try_catch. rewrite bind_run.
  destruct (PublicScript.peerConnection c) as [pc|] eqn:Hpc; cycle 1.
  { right. exists None, []. unfold PublicScript.pc_unit.
    change (PublicScript.peerConnection c1)
      with (PublicScript.peerConnection c).
    rewrite Hpc. split; [|done].
    replace (PublicScript.set_peerConnection None c1) with c1; [done|].
    unfold c1, PublicScript.set_peerConnection, PublicScript.set_otherPeerId.
    simpl. by rewrite Hpc. }
  rewrite (live_pc_unit_some _ _ c1 pc) by done.
  destruct (setRemoteDescription offer pc) as [[] pc1]; cycle 1.
  { right. by exists (Some pc1), [SetRemoteDescription offer]. }
  rewrite bind_run. rewrite (live_pc_value_some _ _ _ pc1) by done.
  destruct (createAnswer pc1) as [[answer|] pc2]; cycle 1.
  { right. by exists (Some pc2), [SetRemoteDescription offer; CreateAnswer]. }
  rewrite bind_run. rewrite (live_pc_unit_some _ _ _ pc2) by done.
  destruct (setLocalDescription answer pc2) as [[] pc3]; cycle 1.
  { right. by exists (Some pc3), [SetRemoteDescription offer; CreateAnswer;
                                 SetLocalDescription answer]. }
  left. exists pc3, answer. split; [done|reflexivity].
Qed.

(** A listener that makes one call on the connection object, in a [try]. *)
Lemma live_one_call (call : PcCall) (f : PC -> bool * PC)
      (c : PublicScript.Client) :
  exists pc calls,
    try_catch (PublicScript.pc_unit call f) c
    = (Done tt, PublicScript.set_peerConnection pc c, Pc <$> calls)
    /\ (PublicScript.peerConnection c = None -> pc = None /\ calls = []).
Proof.
  unfold try_catch.
  destruct (PublicScript.peerConnection c) as [pc|] eqn:Hpc; cycle 1.
  { exists None, []. unfold PublicScript.pc_unit. rewrite Hpc.
    rewrite <- Hpc at 1. by rewrite set_peerConnection_same. }
  rewrite (live_pc_unit_some _ _ c pc Hpc).
  destruct (f pc) as [[] pc1]; by exists (Some pc1), [call].
Qed.

(** What every listener does: it returns; without a connection object it
    performs no action and gains none; and what it emits is an offer to
    the new participant or an answer to the caller. *)
Lemma handle_cases (e : Server.ServerEvent) (c : PublicScript.Client) :
  exists c' t,
    PublicScript.handle e c = (Done tt, c', t)
    /\ (PublicScript.peerConnection c = None ->
        PublicScript.peerConnection c' = None /\ t = [])
    /\ (forall m, Net m ∈ t ->
          (exists socketId offer,
              e = Server.NewParticipant socketId
              /\ truthy (PublicScript.otherPeerId c) = false
              /\ m = Server.OfferTo (Some socketId) offer)
          \/ (exists callerId offer answer,
                 e = Server.Offer callerId offer
                 /\ m = Server.AnswerTo (Some callerId) answer)).
Proof.
  destruct e as [socketId|callerId offer|responderId answer|fromId candidate
                 |socketId]; cbn [PublicScript.handle].
  - unfold PublicScript.on_new_participant. rewrite bind_get_run.
    destruct (truthy (PublicScript.otherPeerId c)) eqn:Hother;
      cbn [negb]; unfold when.
    { exists c, []. split; [done|]. split; [done|].
      by intros m ?%elem_of_nil. }
    rewrite bind_modify_run.
    destruct (live_createAndSendOffer_cases
                (PublicScript.set_otherPeerId (Some socketId) c))
      as [(pc & offer & Hsome & ->)|(pc & calls & -> & Hnone)].
    + eexists _, _. split; [done|]. split; [done|].
      intros m Hm. left. exists socketId, offer.
      repeat apply elem_of_cons in Hm as [Hm|Hm]; try done.
      * by simplify_eq.
      * by apply elem_of_nil in Hm.
    + eexists _, _. split; [done|]. split.
      * intros Hpc. destruct (Hnone Hpc) as [-> ->]. done.
      * intros m Hm. by apply live_no_message_in_calls in Hm.
  - destruct (live_on_offer_cases callerId offer c)
      as [(pc & answer & Hsome & ->)|(pc & calls & -> & Hnone)].
    + eexists _, _. split; [done|]. split; [done|].
      intros m Hm. right. exists callerId, offer, answer.
      repeat apply elem_of_cons in Hm as [Hm|Hm]; try done.
      * by simplify_eq.
      * by apply elem_of_nil in Hm.
    + eexists _, _. split; [done|]. split.
      * intros Hpc. destruct (Hnone Hpc) as [-> ->]. done.
      * intros m Hm. by apply live_no_message_in_calls in Hm.
  - unfold PublicScript.on_answer.
    destruct (live_one_call (SetRemoteDescription answer)
                (setRemoteDescription answer) c)
      as (pc & calls & -> & Hnone).
    eexists _, _. split; [done|]. split.
    + intros Hpc. destruct (Hnone Hpc) as [-> ->]. done.
    + intros m Hm. by apply live_no_message_in_calls in Hm.
  - unfold PublicScript.on_ice_candidate.
    destruct (live_one_call (AddIceCandidate candidate)
                (addIceCandidate candidate) c)
      as (pc & calls & -> & Hnone).
    eexists _, _. split; [done|]. split.
    + intros Hpc. destruct (Hnone Hpc) as [-> ->]. done.
    + intros m Hm. by apply live_no_message_in_calls in Hm.
  - unfold PublicScript.on_peer_disconnected. rewrite bind_get_run.
    destruct (bool_decide (Some socketId = PublicScript.otherPeerId c));
      unfold when; cycle 1.
    { exists c, []. split; [done|]. split; [done|].
      by intros m ?%elem_of_nil. }
    rewrite bind_modify_run.
    destruct (PublicScript.peerConnection c) as [pc|] eqn:Hpc.
    + eexists _, _. split; [reflexivity|]. split; [done|].
      intros m Hm. repeat apply elem_of_cons in Hm as [Hm|Hm]; try done.
      by apply elem_of_nil in Hm.
    + rewrite bind_ret_run. eexists _, _. split; [reflexivity|].
      split; [|by intros m ?%elem_of_nil].
      intros _. split; [|done]. simpl. done.
Qed.

(** The counterpart after a listener ran: the one before, none, or the
    socket that the event names. *)
Lemma handle_counterpart (e : Server.ServerEvent) (c : PublicScript.Client) :
  PublicScript.otherPeerId (state_of (PublicScript.handle e) c)
  = PublicScript.otherPeerId c
  \/ PublicScript.otherPeerId (state_of (PublicScript.handle e) c) = None
  \/ exists id,
      PublicScript.otherPeerId (state_of (PublicScript.handle e) c) = Some id
      /\ (e = Server.NewParticipant id \/ exists offer, e = Server.Offer id offer).
Proof.
  unfold state_of.
  destruct e as [socketId|callerId offer|responderId answer|fromId candidate
                 |socketId]; cbn [PublicScript.handle].
  - unfold PublicScript.on_new_participant. rewrite bind_get_run.
    destruct (truthy (PublicScript.otherPeerId c)); cbn [negb]; unfold when;
      [by left|].
    rewrite bind_modify_run. right. right. exists socketId.
    split; [|by left].
    destruct (live_createAndSendOffer_cases
                (PublicScript.set_otherPeerId (Some socketId) c))
      as [(pc & offer & _ & ->)|(pc & calls & -> & _)]; done.
  - right. right. exists callerId. split; [|right; by exists offer].
    destruct (live_on_offer_cases callerId offer c)
      as [(pc & answer & _ & ->)|(pc & calls & -> & _)]; done.
  - left. unfold PublicScript.on_answer.
    by destruct (live_one_call (SetRemoteDescription answer)
                   (setRemoteDescription answer) c) as (pc & calls & -> & _).
  - left. unfold PublicScript.on_ice_candidate.
    by destruct (live_one_call (AddIceCandidate candidate)
                   (addIceCandidate candidate) c) as (pc & calls & -> & _).
  - unfold PublicScript.on_peer_disconnected. rewrite bind_get_run.
    destruct (bool_decide (Some socketId = PublicScript.otherPeerId c));
      unfold when; [|by left].
    rewrite bind_modify_run. right. left.
    destruct (PublicScript.peerConnection c) as [pc|] eqn:Hpc.
    + reflexivity.
    + by rewrite bind_ret_run.
Qed.

Lemma handle_all_cases (events : list Server.ServerEvent) :
  forall c : PublicScript.Client,
    exists c' t,
      PublicScript.handle_all events c = (Done tt, c', t)
      /\ (PublicScript.peerConnection c = None ->
          PublicScript.peerConnection c' = None /\ t = []).
Proof.
  unfold PublicScript.handle_all.
  induction events as [|e events IH]; intros c.
  - by exists c, [].
  - rewrite for_each_cons.
    destruct (handle_cases e c) as (c1 & t1 & -> & Hnone1 & _).
    destruct (IH c1) as (c2 & t2 & -> & Hnone2).
    exists c2, (t1 ++ t2). split; [done|].
    intros Hpc. destruct (Hnone1 Hpc) as [Hpc1 ->].
    destruct (Hnone2 Hpc1) as [Hpc2 ->]. done.
Qed.

(** X15. No listener of the live-channel script lets an exception out:
    every call on the connection object sits in a [try], so each event of
    the server is handled whatever the earlier ones did, and handling a
    sequence of events is handling its parts one after the other. *)
Theorem live_listeners_always_return (before after : list Server.ServerEvent)
        (c : PublicScript.Client) :
  PublicScript.handle_all (before ++ after) c
  = (Done tt,
     state_of (PublicScript.handle_all after)
              (state_of (PublicScript.handle_all before) c),
     trace_of (PublicScript.handle_all before) c
     ++ trace_of (PublicScript.handle_all after)
                 (state_of (PublicScript.handle_all before) c)).
Proof.
  unfold state_of, trace_of.
  destruct (handle_all_cases before c) as (c1 & t1 & H1 & _).
  destruct (handle_all_cases after c1) as (c2 & t2 & H2 & _).
  unfold PublicScript.handle_all in *.
  rewrite for_each_app, bind_run, H1. cbn [fst snd]. by rewrite H2.
Qed.

(** X16. Once the counterpart has left, the script is done: it closes
    its connection object, and whatever the server sends afterwards (a new
    participant, an offer, an answer, candidates) it performs no action
    and gets no connection object; a call in the room takes a reload. *)
Theorem after_peer_left_nothing (c : PublicScript.Client) (socketId : string)
        (later : list Server.ServerEvent) :
  PublicScript.otherPeerId c = Some socketId ->
  trace_of (PublicScript.handle_all (Server.PeerDisconnected socketId :: later))
           c
  = match PublicScript.peerConnection c with
    | Some _ => [Pc Close]
    | None => []
    end
  /\ PublicScript.peerConnection
       (state_of
          (PublicScript.handle_all (Server.PeerDisconnected socketId :: later))
          c)
     = None.
Proof.
  intros Hknown. unfold state_of, trace_of, PublicScript.handle_all.
  rewrite for_each_cons. cbn [PublicScript.handle].
  rewrite (on_peer_disconnected_known socketId c Hknown).
  match goal with
  | |- context [for_each PublicScript.handle later ?c1] =>
      destruct (handle_all_cases later c1) as (c2 & t2 & H2 & Hnone)
  end.
  unfold PublicScript.handle_all in H2. rewrite H2. cbn [fst snd].
  destruct Hnone as [Hpc ->]; [done|]. by rewrite app_nil_r.
Qed.

(** X18. An offer, whoever sends it, makes its sender the counterpart,
    also when the script is in a call with another socket; the departure
    of that other socket is then ignored. *)
Theorem offer_replaces_counterpart (callerId socketId : string)
        (offer : JsValue) (c : PublicScript.Client) :
  socketId ≠ callerId ->
  PublicScript.otherPeerId
    (state_of (PublicScript.handle (Server.Offer callerId offer)) c)
  = Some callerId
  /\ PublicScript.handle (Server.PeerDisconnected socketId)
       (state_of (PublicScript.handle (Server.Offer callerId offer)) c)
     = (Done tt,
        state_of (PublicScript.handle (Server.Offer callerId offer)) c, []).
Proof.
  intros Hne. unfold state_of. cbn [PublicScript.handle].
  assert (Hother :
            PublicScript.otherPeerId
              (snd (fst (PublicScript.on_offer callerId offer c)))
            = Some callerId).
  { destruct (live_on_offer_cases callerId offer c)
      as [(pc & answer & _ & ->)|(pc & calls & -> & _)]; done. }
  split; [done|].
  unfold PublicScript.on_peer_disconnected. rewrite bind_get_run, Hother.
  rewrite bool_decide_eq_false_2; [done|]. congruence.
Qed.
Lemma named_here (e : PublicScript.Event) (rest : list PublicScript.Event)
      (id : string) :
  PublicScript.named [e] id -> PublicScript.named (e :: rest) id.
Proof.
  intros [Hin|[offer Hin]]; apply list_elem_of_singleton in Hin as <-;
    [left|right; exists offer]; apply list_elem_of_here.
Qed.

Lemma named_further (e : PublicScript.Event) (rest : list PublicScript.Event)
      (id : string) :
  PublicScript.named rest id -> PublicScript.named (e :: rest) id.
Proof.
  intros [Hin|[offer Hin]]; [left|right; exists offer];
    by apply list_elem_of_further.
Qed.

(** One event of a session: the script returns, and the sockets it
    addresses or takes for its counterpart are the counterpart it had or
    the socket that the event names. *)
Lemma react_targets (P : string -> Prop) (e : PublicScript.Event)
      (c : PublicScript.Client) :
  (forall id, PublicScript.otherPeerId c = Some id -> P id) ->
  exists c' t,
    PublicScript.react e c = (Done tt, c', t)
    /\ (forall id, PublicScript.otherPeerId c' = Some id ->
                   P id \/ PublicScript.named [e] id)
    /\ (forall m, Net m ∈ t ->
          (forall room, m ≠ Server.JoinRoom room)
          /\ forall id, Server.targetId_of m = Some id ->
                        P id \/ PublicScript.named [e] id).
Proof.
  intros HP. destruct e as [e|[found|]]; cbn [PublicScript.react].
  - destruct (handle_cases e c) as (c' & t & He & _ & Hm).
    exists c', t. split; [done|]. split.
    + intros id Hid. pose proof (handle_counterpart e c) as Hc.
      unfold state_of in Hc. rewrite He in Hc. cbn [fst snd] in Hc.
      destruct Hc as [Hc|[Hc|(id' & Hc & Hnamed)]].
      * left. apply HP. congruence.
      * congruence.
      * right. assert (id' = id) as -> by congruence.
        destruct Hnamed as [->|[offer ->]];
          [left|right; exists offer]; apply list_elem_of_here.
    + intros m Hin.
      destruct (Hm m Hin)
        as [(id' & offer & -> & _ & ->)|(id' & offer & answer & -> & ->)].
      * split; [done|]. intros id [= <-]. right. left.
        apply list_elem_of_here.
      * split; [done|]. intros id [= <-]. right. right. exists offer.
        apply list_elem_of_here.
  - unfold PublicScript.on_icecandidate. rewrite bind_get_run.
    exists c, [Net (Server.IceCandidateTo (PublicScript.otherPeerId c) found)].
    split; [done|]. split; [by left; apply HP|].
    intros m [= ->]%list_elem_of_singleton. split; [done|].
    cbn [Server.targetId_of]. intros id Hid. left. by apply HP.
  - exists c, []. split; [done|]. split; [by left; apply HP|].
    by intros m ?%elem_of_nil.
Qed.

Lemma session_targets (events : list PublicScript.Event) :
  forall (P : string -> Prop) (c : PublicScript.Client)
         (m : Server.ClientEvent),
    (forall id, PublicScript.otherPeerId c = Some id -> P id) ->
    Net m ∈ trace_of (PublicScript.session events) c ->
    (forall room, m ≠ Server.JoinRoom room)
    /\ forall id, Server.targetId_of m = Some id ->
                  P id \/ PublicScript.named events id.
Proof.
  unfold trace_of, PublicScript.session.
  induction events as [|e events IH]; intros P c m HP;
    [by intros ?%elem_of_nil|].
  rewrite for_each_cons.
  destruct (react_targets P e c HP) as (c1 & t1 & -> & HP1 & Hm1).
  specialize (IH (fun id => P id \/ PublicScript.named [e] id) c1 m HP1).
  destruct (for_each PublicScript.react events c1) as [[r c2] t2].
  cbn [snd] in *. rewrite elem_of_app. intros [Hin|Hin].
  - destruct (Hm1 m Hin) as [Hjoin Htarget]. split; [done|].
    intros id Hid. destruct (Htarget id Hid) as [?|?]; [by left|].
    right. by apply named_here.
  - destruct (IH Hin) as [Hjoin Htarget]. split; [done|].
    intros id Hid. destruct (Htarget id Hid) as [[?|?]|?]; [by left| |].
    + right. by apply named_here.
    + right. by apply named_further.
Qed.

(** X19. A script that starts without a counterpart addresses its
    messages only to sockets that the server has named to it: whatever
    events of the server and candidates of its connection object come, in
    whatever order and whatever its calls do, every offer, answer or
    candidate it emits carries as [targetId] either [null] or the id of a
    socket announced by [new-participant] or calling by [offer]; and it
    emits no [join-room]. *)
Theorem live_targets_are_named (events : list PublicScript.Event)
        (c : PublicScript.Client) (m : Server.ClientEvent) :
  PublicScript.otherPeerId c = None ->
  Net m ∈ trace_of (PublicScript.session events) c ->
  (forall room, m ≠ Server.JoinRoom room)
  /\ forall id, Server.targetId_of m = Some id -> PublicScript.named events id.
Proof.
  intros Hnone Hin.
  destruct (session_targets events (fun _ => False) c m) as [Hjoin Htarget];
    [congruence|done|].
  split; [done|]. intros id Hid. by destruct (Htarget id Hid).
Qed.

(** X20. [joinRoom]: with the media granted, the script records the room
    and the connection object, emits [join-room] for the room and nothing
    else, and is then the script [joined]; with the media refused it
    emits no [join-room], and performs no action whatever the server
    sends it afterwards. *)
Theorem joinRoom_joins_or_stays_silent (id : string)
        (c : PublicScript.Client) :
  PublicScript.peerConnection c = None ->
  PublicScript.otherPeerId c = None ->
  (forall pc,
      PublicScript.joinRoom id (Some pc) c
      = (Done tt, PublicScript.joined id pc, [Net (Server.JoinRoom id)]))
  /\ (forall events : list Server.ServerEvent,
         trace_of (PublicScript.joinRoom id None
                   ≫= fun _ => PublicScript.handle_all events) c
         = []).
Proof.
  intros Hpc Hother. split.
  - intros pc. unfold PublicScript.joinRoom.
    rewrite !bind_modify_run. unfold try_catch. rewrite bind_modify_run.
    unfold PublicScript.socket_emit, emit, PublicScript.joined.
    unfold PublicScript.set_peerConnection, PublicScript.set_statusDisplay,
      PublicScript.set_roomId. simpl. by rewrite Hother.
  - intros events. unfold trace_of. rewrite bind_run.
    unfold PublicScript.joinRoom. rewrite !bind_modify_run.
    unfold try_catch.
    match goal with
    | |- context [PublicScript.handle_all events ?c1] =>
        destruct (handle_all_cases events c1) as (c2 & t2 & -> & Hnone)
    end.
    destruct Hnone as [_ ->]; [exact Hpc|]. reflexivity.
Qed.

End PublicScriptFurther.

(** ** The live channel, end to end *)

(** The server after two sockets joined one room whose name is the id of
    neither: each has registered one set of listeners and is alone in the
    room of its own id. *)
Lemma two_joins_state (first second room : string) :
  first ≠ second -> room ≠ first -> room ≠ second ->
  Server.listeners
    (fst (Server.run Server.init (PublicScript.two_joins first second room)))
    !! first = Some [room]
  /\ Server.listeners
       (fst (Server.run Server.init (PublicScript.two_joins first second room)))
       !! second = Some [room]
  /\ Server.rooms
       (fst (Server.run Server.init (PublicScript.two_joins first second room)))
       !!! first = {[first]}
  /\ Server.rooms
       (fst (Server.run Server.init (PublicScript.two_joins first second room)))
       !!! second = {[second]}.
Proof.
  intros Hne Hfirst Hsecond. unfold PublicScript.two_joins. cbn [Server.run].
  rewrite step_connect by apply lookup_empty.
  erewrite step_join_room by apply lookup_insert_eq.
  rewrite step_connect
    by (cbn [Server.listeners];
        rewrite insert_insert_eq, lookup_insert_ne by done; apply lookup_empty).
  erewrite step_join_room by apply lookup_insert_eq.
  cbn [fst Server.rooms Server.listeners Server.init].
  assert (Hempty : forall k : string,
             (∅ : gmap string (gset string)) !!! k = (∅ : gset string)).
  { intros k. by rewrite lookup_total_alt, lookup_empty. }
  split; [|split; [|split]].
  - rewrite !lookup_insert_ne by done. rewrite insert_insert_eq.
    apply lookup_insert_eq.
  - rewrite insert_insert_eq. apply lookup_insert_eq.
  - rewrite !members_join, !Hempty. repeat case_decide; set_solver.
  - rewrite !members_join, !Hempty. repeat case_decide; set_solver.
Qed.

(** A message of a socket with one set of listeners, addressed to a
    socket that is alone in the room of its id, reaches that socket once
    and nobody else. *)
Lemma step_relay_single (st : Server.State) (sender target room : string)
      (e : Server.ClientEvent) (ev : Server.ServerEvent) :
  Server.listeners st !! sender = Some [room] ->
  Server.rooms st !!! target = {[target]} ->
  Server.relay (Server.rooms st) sender [room] e
  = Server.io_to (Server.rooms st) (Some target) ev ++ [] ->
  (forall r, e ≠ Server.JoinRoom r) ->
  Server.run st [Server.FromClient sender e] = (st, [(target, ev)]).
Proof.
  intros Hl Hroom Hrelay He. rewrite run_cons. cbn [Server.run Server.step].
  rewrite Hl.
  destruct e as [r|t p|t p|t p]; [by destruct (He r)|..];
    cbn [fst snd]; rewrite Hrelay; unfold Server.io_to;
    by rewrite Hroom, elements_singleton.
Qed.

Section LiveHandshake.

Context `{RTCPeerConnection}.

(** X21. The handshake over the live channel, end to end. [A] and [B]
    join a room, [A] first; the name of the room is the id of neither.
    If the calls on the two connection objects resolve, then: the server
    tells [A] of [B]; the offer of [A] reaches [B], and only [B], under
    the caller id [A]; the answer of [B] reaches [A], and only [A], under
    the responder id [B]; [A] sets it as its remote description; each
    script holds the other as its counterpart; and the state of the
    server is the one after the joins. *)
Theorem live_handshake_completes (room A B : string)
        (pcA pcA1 pcA2 pcA3 pcB pcB1 pcB2 pcB3 : PC) (offer answer : JsValue) :
  A ≠ B -> room ≠ A -> room ≠ B ->
  createOffer pcA = (Some offer, pcA1) ->
  setLocalDescription offer pcA1 = (true, pcA2) ->
  setRemoteDescription offer pcB = (true, pcB1) ->
  createAnswer pcB1 = (Some answer, pcB2) ->
  setLocalDescription answer pcB2 = (true, pcB3) ->
  setRemoteDescription answer pcA2 = (true, pcA3) ->
  let joined := Server.run Server.init (PublicScript.two_joins A B room) in
  let a1 := PublicScript.handle_all (Server.inbox A (snd joined))
                                    (PublicScript.joined room pcA) in
  let offered := Server.run (fst joined) (PublicScript.sent A (snd a1)) in
  let b1 := PublicScript.handle_all (Server.inbox B (snd offered))
                                    (PublicScript.joined room pcB) in
  let answered := Server.run (fst offered) (PublicScript.sent B (snd b1)) in
  let a2 := PublicScript.handle_all (Server.inbox A (snd answered))
                                    (snd (fst a1)) in
  snd joined = [(A, Server.NewParticipant B)]
  /\ snd a1 = [Pc CreateOffer; Pc (SetLocalDescription offer);
               Net (Server.OfferTo (Some B) offer)]
  /\ snd offered = [(B, Server.Offer A offer)]
  /\ snd b1 = [Pc (SetRemoteDescription offer); Pc CreateAnswer;
               Pc (SetLocalDescription answer);
               Net (Server.AnswerTo (Some A) answer)]
  /\ snd answered = [(A, Server.Answer B answer)]
  /\ snd a2 = [Pc (SetRemoteDescription answer)]
  /\ PublicScript.otherPeerId (snd (fst a2)) = Some B
  /\ PublicScript.otherPeerId (snd (fst b1)) = Some A
  /\ fst answered = fst joined.
Proof.
  intros Hne HA HB HcreateOffer HlocalA HremoteB HcreateAnswer HlocalB HremoteA.
  destruct (two_joins_state A B room Hne HA HB) as (HlA & HlB & HrA & HrB).
  cbv zeta. rewrite (two_joins_deliveries A B room Hne HB).
  set (st := fst (Server.run Server.init (PublicScript.two_joins A B room)))
    in *.
  (* [A] is told of [B] and offers *)
  assert (Ha1 : PublicScript.handle_all
                  (Server.inbox A [(A, Server.NewParticipant B)])
                  (PublicScript.joined room pcA)
                = (Done tt,
                   {| PublicScript.roomId := Some room;
                      PublicScript.peerConnection := Some pcA2;
                      PublicScript.otherPeerId := Some B;
                      PublicScript.statusDisplay := PublicScript.Connecting |},
                   [Pc CreateOffer; Pc (SetLocalDescription offer);
                    Net (Server.OfferTo (Some B) offer)])).
  { unfold Server.inbox. cbn [List.filter fst].
    rewrite bool_decide_eq_true_2 by done.
    unfold PublicScript.handle_all. cbn [fmap list_fmap snd].
    rewrite for_each_single. cbn [PublicScript.handle].
    unfold PublicScript.on_new_participant. rewrite bind_get_run.
    change (truthy (PublicScript.otherPeerId (PublicScript.joined room pcA)))
      with false.
    cbn [negb]. unfold when. rewrite bind_modify_run.
    unfold PublicScript.createAndSendOffer, try_catch. rewrite bind_run.
    rewrite (live_pc_value_some _ _ _ pcA) by done. rewrite HcreateOffer.
    rewrite bind_run. rewrite (live_pc_unit_some _ _ _ pcA1) by done.
    rewrite HlocalA. reflexivity. }
  rewrite Ha1. cbn [fst snd].
  (* the server relays the offer to [B] *)
  assert (Hoffered : Server.run st
                       (PublicScript.sent A
                          [Pc CreateOffer; Pc (SetLocalDescription offer);
                           Net (Server.OfferTo (Some B) offer)])
                     = (st, [(B, Server.Offer A offer)])).
  { cbn [PublicScript.sent omap list_omap].
    by apply (step_relay_single st A B room). }
  rewrite Hoffered. cbn [fst snd].
  (* [B] answers *)
  assert (Hb1 : PublicScript.handle_all
                  (Server.inbox B [(B, Server.Offer A offer)])
                  (PublicScript.joined room pcB)
                = (Done tt,
                   {| PublicScript.roomId := Some room;
                      PublicScript.peerConnection := Some pcB3;
                      PublicScript.otherPeerId := Some A;
                      PublicScript.statusDisplay := PublicScript.Connecting |},
                   [Pc (SetRemoteDescription offer); Pc CreateAnswer;
                    Pc (SetLocalDescription answer);
                    Net (Server.AnswerTo (Some A) answer)])).
  { unfold Server.inbox. cbn [List.filter fst].
    rewrite bool_decide_eq_true_2 by done.
    unfold PublicScript.handle_all. cbn [fmap list_fmap snd].
    rewrite for_each_single. cbn [PublicScript.handle].
    unfold PublicScript.on_offer. rewrite bind_modify_run.
    unfold try_catch. rewrite bind_run.
    rewrite (live_pc_unit_some _ _ _ pcB) by done. rewrite HremoteB.
    rewrite bind_run. rewrite (live_pc_value_some _ _ _ pcB1) by done.
    rewrite HcreateAnswer.
    rewrite bind_run. rewrite (live_pc_unit_some _ _ _ pcB2) by done.
    rewrite HlocalB. reflexivity. }
  rewrite Hb1. cbn [fst snd].
  (* the server relays the answer to [A] *)
  assert (Hanswered : Server.run st
                        (PublicScript.sent B
                           [Pc (SetRemoteDescription offer); Pc CreateAnswer;
                            Pc (SetLocalDescription answer);
                            Net (Server.AnswerTo (Some A) answer)])
                      = (st, [(A, Server.Answer B answer)])).
  { cbn [PublicScript.sent omap list_omap].
    by apply (step_relay_single st B A room). }
  rewrite Hanswered. cbn [fst snd].
  (* [A] takes the answer *)
  unfold Server.inbox. cbn [List.filter fst].
  rewrite bool_decide_eq_true_2 by done.
  unfold PublicScript.handle_all. cbn [fmap list_fmap snd].
  rewrite for_each_single. cbn [PublicScript.handle].
  unfold PublicScript.on_answer, try_catch.
  rewrite (live_pc_unit_some _ _ _ pcA2) by done. rewrite HremoteA.
  cbn [fst snd PublicScript.otherPeerId PublicScript.set_peerConnection].
  repeat split.
Qed.

End LiveHandshake.

Lemma after_peer_left_nothing_witness :
  trace_of (PublicScript.handle_all
              [Server.PeerDisconnected "A"; Server.NewParticipant "C";
               Server.Offer "C" Examples.offer])
           Examples.script_knowing_A
  = match PublicScript.peerConnection Examples.script_knowing_A with
    | Some _ => [Pc Close]
    | None => []
    end
  /\ PublicScript.peerConnection
       (state_of (PublicScript.handle_all
                    [Server.PeerDisconnected "A"; Server.NewParticipant "C";
                     Server.Offer "C" Examples.offer])
                 Examples.script_knowing_A)
     = None.
Proof.
  apply (after_peer_left_nothing (H:=resolving_connection)
           Examples.script_knowing_A "A"
           [Server.NewParticipant "C"; Server.Offer "C" Examples.offer]).
  reflexivity.
Defined.

Lemma offer_replaces_counterpart_witness :
  PublicScript.otherPeerId
    (state_of (PublicScript.handle (Server.Offer "C" Examples.offer))
              Examples.script_knowing_A)
  = Some "C"
  /\ PublicScript.handle (Server.PeerDisconnected "A")
       (state_of (PublicScript.handle (Server.Offer "C" Examples.offer))
                 Examples.script_knowing_A)
     = (Done tt,
        state_of (PublicScript.handle (Server.Offer "C" Examples.offer))
                 Examples.script_knowing_A, []).
Proof.
  apply (offer_replaces_counterpart (H:=resolving_connection)
           "C" "A" Examples.offer Examples.script_knowing_A).
  discriminate.
Defined.

Lemma live_targets_are_named_witness :
  (forall room,
      Server.OfferTo (Some "B") Examples.offer ≠ Server.JoinRoom room)
  /\ forall id,
      Server.targetId_of (Server.OfferTo (Some "B") Examples.offer) = Some id ->
      PublicScript.named Examples.live_life id.
Proof.
  apply (live_targets_are_named (H:=resolving_connection)
           Examples.live_life Examples.live_joined
           (Server.OfferTo (Some "B") Examples.offer)).
  - reflexivity.
  - apply list_elem_of_In. vm_compute. auto 10.
Defined.

Lemma joinRoom_joins_or_stays_silent_witness :
  (forall pc,
      PublicScript.joinRoom Examples.room (Some pc) Examples.live_loaded
      = (Done tt, PublicScript.joined Examples.room pc,
         [Net (Server.JoinRoom Examples.room)]))
  /\ (forall events : list Server.ServerEvent,
         trace_of (PublicScript.joinRoom Examples.room None
                   ≫= fun _ => PublicScript.handle_all events)
                  Examples.live_loaded
         = []).
Proof.
  apply (joinRoom_joins_or_stays_silent (H:=resolving_connection)
           Examples.room Examples.live_loaded).
  - reflexivity.
  - reflexivity.
Defined.

Lemma live_handshake_completes_witness :
  let joined := Server.run Server.init
                  (PublicScript.two_joins "A" "B" Examples.room) in
  let a1 := PublicScript.handle_all (Server.inbox "A" (snd joined))
                                    Examples.live_joined in
  let offered := Server.run (fst joined) (PublicScript.sent "A" (snd a1)) in
  let b1 := PublicScript.handle_all (Server.inbox "B" (snd offered))
                                    Examples.live_joined in
  let answered := Server.run (fst offered) (PublicScript.sent "B" (snd b1)) in
  let a2 := PublicScript.handle_all (Server.inbox "A" (snd answered))
                                    (snd (fst a1)) in
  snd joined = [("A", Server.NewParticipant "B")]
  /\ snd a1 = [Pc CreateOffer; Pc (SetLocalDescription Examples.offer);
               Net (Server.OfferTo (Some "B") Examples.offer)]
  /\ snd offered = [("B", Server.Offer "A" Examples.offer)]
  /\ snd b1 = [Pc (SetRemoteDescription Examples.offer); Pc CreateAnswer;
               Pc (SetLocalDescription (session_description "answer"));
               Net (Server.AnswerTo (Some "A") (session_description "answer"))]
  /\ snd answered = [("A", Server.Answer "B" (session_description "answer"))]
  /\ snd a2 = [Pc (SetRemoteDescription (session_description "answer"))]
  /\ PublicScript.otherPeerId (snd (fst a2)) = Some "B"
  /\ PublicScript.otherPeerId (snd (fst b1)) = Some "A"
  /\ fst answered = fst joined.
Proof.
  apply (live_handshake_completes (H:=resolving_connection)
           Examples.room "A" "B" tt tt tt tt tt tt tt tt
           Examples.offer (session_description "answer"));
    (discriminate || reflexivity).
Defined.

(** ** Asynchronous functions run without interruption *)

Section AsyncProperties.

Context {S E : Type}.

Lemma bind_ext {A B : Type} (c c' : Eff S E A) (k k' : A -> Eff S E B)
      (s : S) :
  (forall s, c s = c' s) ->
  (forall a s, k a s = k' a s) ->
  (c ≫= k) s = (c' ≫= k') s.
Proof.
  intros Hc Hk. rewrite !bind_run, Hc.
  destruct (c' s) as [[[a|] s1] t1]; [|done]. by rewrite Hk.
Qed.

Lemma try_catch_ext (c c' : Eff S E unit) (s : S) :
  (forall s, c s = c' s) -> try_catch c s = try_catch c' s.
Proof. intros Hc. unfold try_catch. by rewrite Hc. Qed.

Lemma for_each_ext {A : Type} (body body' : A -> Eff S E unit) (l : list A) :
  (forall x s, body x s = body' x s) ->
  forall s, for_each body l s = for_each body' l s.
Proof.
  intros Hbody. induction l as [|x l IH]; intros s; [done|].
  rewrite !for_each_cons, Hbody.
  destruct (body' x s) as [[[[]|] s1] t1]; [|done]. by rewrite IH.
Qed.

Lemma uninterrupted_sync {A : Type} (c : Eff S E A) (s : S) :
  uninterrupted (sync c) s = c s.
Proof. cbn. by destruct (c s) as [[r s1] t]. Qed.

Lemma uninterrupted_await {A : Type} (c : Eff S E A) (s : S) :
  uninterrupted (await c) s = c s.
Proof. cbn. destruct (c s) as [[r s1] t]. cbn. by rewrite app_nil_r. Qed.

Lemma finish_prepend {A : Type} (t : list E) (p : Paused S E A) :
  finish (prepend t p)
  = (fst (fst (finish p)), snd (fst (finish p)), t ++ snd (finish p)).
Proof.
  destruct p as [r s t1|s t1 rest]; cbn; [done|].
  destruct (uninterrupted rest s) as [[r s1] t2]. cbn. by rewrite app_assoc.
Qed.

(** Sequencing asynchronous functions that nothing interrupts is
    sequencing them. *)
Lemma uninterrupted_abind {A B : Type} (k : A -> Async S E B)
      (c : Async S E A) (s : S) :
  uninterrupted (abind c k) s
  = (uninterrupted c ≫= fun a => uninterrupted (k a)) s.
Proof.
  revert s.
  induction c using Async_mut with
    (P0 := fun p =>
             finish (abind_paused p k)
             = match finish p with
               | (Done a, s1, t1) =>
                   match uninterrupted (k a) s1 with
                   | (r, s2, t2) => (r, s2, t1 ++ t2)
                   end
               | (Thrown, s1, t1) => (Thrown, s1, t1)
               end).
  - intros s. rewrite bind_run. cbn [abind uninterrupted]. apply H.
  - destruct r as [a|]; cbn [abind_paused finish]; [|done].
    destruct (k a) as [run]. rewrite finish_prepend. cbn [uninterrupted].
    by destruct (finish (run s)) as [[r s2] t2].
  - cbn [abind_paused finish]. rewrite IHc, bind_run.
    destruct (uninterrupted c s) as [[[a|] s1] t1]; [|done].
    destruct (uninterrupted (k a) s1) as [[r s2] t2].
    by rewrite app_assoc.
Qed.

Lemma uninterrupted_atry (c : Async S E unit) (s : S) :
  uninterrupted (atry c) s = try_catch (uninterrupted c) s.
Proof.
  revert s.
  induction c using Async_mut with
    (P0 := fun p =>
             finish (atry_paused p)
             = match finish p with
               | (_, s1, t1) => (Done tt, s1, t1)
               end).
  - intros s. unfold try_catch. cbn [atry uninterrupted]. rewrite H.
    by destruct (finish (run s)) as [[[[]|] s1] t1].
  - done.
  - cbn [atry_paused finish]. rewrite IHc. unfold try_catch.
    by destruct (uninterrupted c s) as [[[[]|] s1] t1].
Qed.

Lemma uninterrupted_awhen (b : bool) (c : Async S E unit) (s : S) :
  uninterrupted (awhen b c) s = when b (uninterrupted c) s.
Proof. by destruct b. Qed.

Lemma uninterrupted_afor_each {A : Type} (body : A -> Async S E unit)
      (l : list A) :
  forall s,
    uninterrupted (afor_each body l) s
    = for_each (fun x => uninterrupted (body x)) l s.
Proof.
  induction l as [|x l IH]; intros s; [done|].
  cbn [afor_each]. rewrite uninterrupted_abind, for_each_cons, bind_run.
  destruct (uninterrupted (body x) s) as [[[[]|] s1] t1]; [|done].
  by rewrite IH.
Qed.

End AsyncProperties.

(** ** The polling client, turn by turn *)

Section ScriptTurns.

Context `{RTCPeerConnection}.

Ltac uninterrupt :=
  repeat first
    [ rewrite uninterrupted_atry; apply try_catch_ext; intros
    | rewrite uninterrupted_abind; apply bind_ext; intros
    | rewrite uninterrupted_await
    | rewrite uninterrupted_sync
    | rewrite uninterrupted_awhen
    | reflexivity ].

Lemma sendSignal_turns_uninterrupted (m : Api.Message) (c : Script.Client) :
  uninterrupted (Script.sendSignal_turns m) c = Script.sendSignal m c.
Proof.
  unfold Script.sendSignal_turns. rewrite uninterrupted_atry.
  unfold try_catch. by rewrite uninterrupted_await.
Qed.

Lemma createAndSendOffer_turns_uninterrupted (other : string)
      (c : Script.Client) :
  uninterrupted (Script.createAndSendOffer_turns other) c
  = Script.createAndSendOffer other c.
Proof.
  unfold Script.createAndSendOffer_turns, Script.createAndSendOffer.
  uninterrupt.
Qed.

Lemma on_join_turns_uninterrupted (from : string) (c : Script.Client) :
  uninterrupted (Script.on_join_turns from) c = Script.on_join from c.
Proof.
  unfold Script.on_join_turns, Script.on_join. uninterrupt.
  destruct (negb (Script.hasSentOffer a0)
            && Nat.eqb (length (Script.peersInRoom a0)) 1); [|reflexivity].
  unfold when. destruct (Script.peersInRoom a0) as [|other rest];
    [reflexivity|].
  rewrite uninterrupted_awhen.
  destruct (js_lt (Script.clientId a0) other); [|reflexivity].
  unfold when. uninterrupt. apply createAndSendOffer_turns_uninterrupted.
Qed.

Lemma on_offer_turns_uninterrupted (data : JsValue) (c : Script.Client) :
  uninterrupted (Script.on_offer_turns data) c = Script.on_offer data c.
Proof.
  unfold Script.on_offer_turns, Script.on_offer. uninterrupt.
Qed.

Lemma handle_envelope_turns_uninterrupted (env : Script.Envelope)
      (c : Script.Client) :
  uninterrupted (Script.handle_envelope_turns env) c
  = Script.handle_envelope env c.
Proof.
  unfold Script.handle_envelope_turns, Script.handle_envelope. uninterrupt.
  destruct (String.eqb (Script.fromPeer env) (Script.clientId a));
    [reflexivity|].
  uninterrupt.
  - destruct (String.eqb (Script.type env) "join"); [|reflexivity].
    apply on_join_turns_uninterrupted.
  - destruct (String.eqb (Script.type env) "offer"); [|reflexivity].
    apply on_offer_turns_uninterrupted.
  - destruct (String.eqb (Script.type env) "answer"); [|reflexivity].
    unfold when, Script.on_answer_turns, Script.on_answer.
    apply uninterrupted_await.
  - destruct (String.eqb (Script.type env) "ice-candidate"); [|reflexivity].
    unfold when, Script.on_ice_candidate_turns, Script.on_ice_candidate.
    uninterrupt.
Qed.

(** The functions of the script, run turn by turn with no turn of another
    function in between, are the functions run in one step. *)
Lemma handleIncomingSignals_turns_uninterrupted
      (envelopes : list Script.Envelope) (c : Script.Client) :
  uninterrupted (Script.handleIncomingSignals_turns envelopes) c
  = Script.handleIncomingSignals envelopes c.
Proof.
  unfold Script.handleIncomingSignals_turns, Script.handleIncomingSignals.
  rewrite uninterrupted_afor_each.
  apply for_each_ext, handle_envelope_turns_uninterrupted.
Qed.

Lemma poll_turns_uninterrupted (signals : list Script.Envelope)
      (c : Script.Client) :
  uninterrupted (Script.poll_turns signals) c = Script.poll signals c.
Proof.
  unfold Script.poll_turns, Script.poll. uninterrupt.
  destruct (Nat.eqb (length signals) 0); [reflexivity|].
  apply handleIncomingSignals_turns_uninterrupted.
Qed.

End ScriptTurns.

Section ScriptTicks.

Context `{RTCPeerConnection}.

(** X22. Calls of the interval's callback that do not overlap (each runs
    to its end before the next begins) send at most one offer, whatever
    they read: none once [hasSentOffer] is set, and after calls that sent
    an offer no later call sends one. *)
Theorem ticks_without_overlap_send_one_offer
        (batches : list (list Script.Envelope)) (c : Script.Client) :
  (Script.offers_sent
     (trace_of (for_each (fun signals =>
                            uninterrupted (Script.poll_turns signals))
                         batches) c) <= 1)%nat
  /\ (Script.hasSentOffer c = true ->
      Script.offers_sent
        (trace_of (for_each (fun signals =>
                               uninterrupted (Script.poll_turns signals))
                            batches) c) = 0%nat)
  /\ forall later : list (list Script.Envelope),
      (1 <= Script.offers_sent
              (trace_of (for_each (fun signals =>
                                     uninterrupted (Script.poll_turns signals))
                                  batches) c))%nat ->
      Script.offers_sent
        (trace_of (for_each (fun signals =>
                               uninterrupted (Script.poll_turns signals))
                            later)
                  (state_of (for_each (fun signals =>
                                         uninterrupted
                                           (Script.poll_turns signals))
                                      batches) c))
      = 0%nat.
Proof.
  assert (Hticks : forall (l : list (list Script.Envelope)) s,
             for_each (fun signals =>
                         uninterrupted (Script.poll_turns signals)) l s
             = Script.polling l s).
  { intros l s. unfold Script.polling.
    apply for_each_ext, poll_turns_uninterrupted. }
  unfold trace_of, state_of. rewrite Hticks.
  destruct (polling_within_budget batches c) as [_ Hb].
  unfold trace_of, state_of, Script.budget in Hb.
  split; [destruct (Script.hasSentOffer c),
            (Script.hasSentOffer (snd (fst (Script.polling batches c))));
          lia|].
  split; [intros Hs; rewrite Hs in Hb; lia|].
  intros later Hsent. rewrite Hticks.
  destruct (polling_within_budget later
              (snd (fst (Script.polling batches c)))) as [_ Hl].
  unfold trace_of, state_of, Script.budget in Hl.
  destruct (Script.hasSentOffer (snd (fst (Script.polling batches c))));
    destruct (Script.hasSentOffer c); lia.
Qed.

End ScriptTicks.

Lemma ticks_without_overlap_send_one_offer_witness :
  Script.offers_sent
    (trace_of (for_each (fun signals =>
                           uninterrupted (Script.poll_turns signals))
                        Examples.repeated_join)
              Examples.script_latched)
  = 0%nat.
Proof.
  destruct (ticks_without_overlap_send_one_offer
              (H:=resolving_connection)
              Examples.repeated_join Examples.script_latched)
    as (_ & Hlatched & _).
  apply Hlatched. reflexivity.
Defined.

(** ** Invariants of the event loop *)

Section AsyncInvariants.

Context {S E : Type} (I : S -> Prop) (G : E -> Prop).









End AsyncInvariants.

(** ** The live-channel client, turn by turn *)

Section LiveTurns.

Context `{RTCPeerConnection}.

Lemma uninterrupted_await_pc {A : Type}
      (c : Eff PublicScript.Client (Action Server.ClientEvent) A)
      (s : PublicScript.Client) :
  uninterrupted (PublicScript.await_pc c) s = c s.
Proof.
  unfold PublicScript.await_pc. cbn [uninterrupted].
  destruct (PublicScript.peerConnection s).
  - apply (uninterrupted_await c s).
  - apply (uninterrupted_sync c s).
Qed.

Ltac uninterrupt :=
  repeat first
    [ rewrite uninterrupted_atry; apply try_catch_ext; intros
    | rewrite uninterrupted_abind; apply bind_ext; intros
    | rewrite uninterrupted_await_pc
    | rewrite uninterrupted_sync
    | rewrite uninterrupted_awhen
    | reflexivity ].



Lemma sum_list_delete (ms : list nat) (i m : nat) :
  ms !! i = Some m -> (sum_list (delete i ms) + m = sum_list ms)%nat.
Proof.
  revert i. induction ms as [|x ms IH]; intros [|i] Hi; try done.
  - injection Hi as ->. simpl. lia.
  - simpl in *. specialize (IH i Hi). lia.
Qed.

Lemma sum_list_insert (ms : list nat) (i m m1 : nat) :
  ms !! i = Some m ->
  (sum_list (<[i := m1]> ms) + m = sum_list ms + m1)%nat.
Proof.
  revert i. induction ms as [|x ms IH]; intros [|i] Hi; try done.
  - injection Hi as ->. simpl. lia.
  - simpl in *. specialize (IH i Hi). lia.
Qed.

Lemma sum_list_snoc (ms : list nat) (m : nat) :
  sum_list (ms ++ [m]) = (sum_list ms + m)%nat.
Proof. induction ms as [|x ms IH]; simpl; lia. Qed.

(** The offers that the event loop emits are within the budget of the
    script and what the functions in flight owe. *)
Lemma event_loop_owes
      (wakes : list (Wake PublicScript.Client (Action Server.ClientEvent)))
      (in_flight : list (Async PublicScript.Client
                               (Action Server.ClientEvent) unit))
      (ms : list nat) (s : PublicScript.Client) :
  Forall2 PublicScript.owes ms in_flight ->
  (forall c, Call c ∈ wakes -> PublicScript.owes 0 c) ->
  (PublicScript.offers_sent (snd (fst (event_loop wakes in_flight s)))
   + PublicScript.budget (fst (fst (event_loop wakes in_flight s)))
   <= sum_list ms + PublicScript.budget s)%nat.
Proof.
  revert in_flight ms s.
  induction wakes as [|w wakes IH]; intros in_flight ms s Hms Hcalls.
  - cbn. lia.
  - assert (Hrest : forall c, Call c ∈ wakes -> PublicScript.owes 0 c)
      by (intros c Hc; apply Hcalls; by right).
    destruct w as [c|i]; cbn [event_loop].
    + assert (Hc : PublicScript.owes 0 c) by (apply Hcalls; left).
      destruct c as [run]. cbn [take_turn]. cbn [PublicScript.owes] in Hc.
      specialize (Hc s). destruct (run s) as [r s1 t1|s1 t1 c1];
        cbn [PublicScript.owes_paused] in Hc.
      * specialize (IH in_flight ms s1 Hms Hrest).
        destruct (event_loop wakes in_flight s1) as [[s2 t2] pending].
        cbn [fst snd] in *. rewrite live_offers_sent_app. lia.
      * destruct Hc as (m & Hm & Hc1).
        assert (Hms1 : Forall2 PublicScript.owes (ms ++ [m]) (in_flight ++ [c1]))
          by (apply Forall2_app; [done|by constructor]).
        specialize (IH (in_flight ++ [c1]) (ms ++ [m]) s1 Hms1 Hrest).
        rewrite sum_list_snoc in IH.
        destruct (event_loop wakes (in_flight ++ [c1]) s1)
          as [[s2 t2] pending].
        cbn [fst snd] in *. rewrite live_offers_sent_app. lia.
    + destruct (in_flight !! i) as [c|] eqn:Hi; [|by apply IH].
      destruct (Forall2_lookup_r _ _ _ _ _ Hms Hi) as (m & Hmi & Hc).
      destruct c as [run]. cbn [take_turn]. cbn [PublicScript.owes] in Hc.
      specialize (Hc s). destruct (run s) as [r s1 t1|s1 t1 c1];
        cbn [PublicScript.owes_paused] in Hc.
      * assert (Hms1 : Forall2 PublicScript.owes (delete i ms) (delete i in_flight))
          by by apply Forall2_delete.
        specialize (IH _ _ s1 Hms1 Hrest).
        pose proof (sum_list_delete ms i m Hmi).
        destruct (event_loop wakes (delete i in_flight) s1)
          as [[s2 t2] pending].
        cbn [fst snd] in *. rewrite live_offers_sent_app. lia.
      * destruct Hc as (m1 & Hm & Hc1).
        assert (Hms1 : Forall2 PublicScript.owes (<[i := m1]> ms) (<[i := c1]> in_flight))
          by by apply Forall2_insert.
        specialize (IH _ _ s1 Hms1 Hrest).
        pose proof (sum_list_insert ms i m m1 Hmi).
        destruct (event_loop wakes (<[i := c1]> in_flight) s1)
          as [[s2 t2] pending].
        cbn [fst snd] in *. rewrite live_offers_sent_app. lia.
Qed.

Lemma owes_sync {A : Type} (n : nat)
      (c : Eff PublicScript.Client (Action Server.ClientEvent) A) :
  (forall s, (PublicScript.offers_sent (trace_of c s)
              + PublicScript.budget (state_of c s)
              <= n + PublicScript.budget s)%nat) ->
  PublicScript.owes n (sync c).
Proof.
  intros Hc s. specialize (Hc s). unfold state_of, trace_of in Hc.
  cbn. destruct (c s) as [[r s1] t]. exact Hc.
Qed.

Lemma owes_await {A : Type}
      (c : Eff PublicScript.Client (Action Server.ClientEvent) A) :
  respects PublicScript.within_budget c -> PublicScript.owes 0 (await c).
Proof.
  intros Hc s. specialize (Hc s). unfold state_of, trace_of in Hc.
  cbn. destruct (c s) as [[r s1] t]. exists 0%nat. split.
  - unfold PublicScript.within_budget in Hc. cbn [fst snd] in Hc. lia.
  - intros s2. cbn. lia.
Qed.

Lemma owes_await_pc {A : Type}
      (c : Eff PublicScript.Client (Action Server.ClientEvent) A) :
  respects PublicScript.within_budget c ->
  PublicScript.owes 0 (PublicScript.await_pc c).
Proof.
  intros Hc s. unfold PublicScript.await_pc.
  destruct (PublicScript.peerConnection s).
  - apply (owes_await c Hc s).
  - apply (owes_sync 0 c); intros s1; apply (Hc s1).
Qed.

Lemma owes_paused_prepend {A : Type} (n k : nat) (s s1 : PublicScript.Client)
      (t : list (Action Server.ClientEvent))
      (p : Paused PublicScript.Client (Action Server.ClientEvent) A) :
  PublicScript.owes_paused k s1 p ->
  (PublicScript.offers_sent t + k + PublicScript.budget s1
   <= n + PublicScript.budget s)%nat ->
  PublicScript.owes_paused n s (prepend t p).
Proof.
  destruct p as [r s2 t2|s2 t2 rest]; cbn [prepend PublicScript.owes_paused].
  - intros Hp Hle. rewrite live_offers_sent_app. lia.
  - intros (m & Hm & Hrest) Hle. exists m. split; [|done].
    rewrite live_offers_sent_app. lia.
Qed.

Lemma owes_abind {A B : Type} (n1 n2 : nat)
      (c : Async PublicScript.Client (Action Server.ClientEvent) A)
      (k : A -> Async PublicScript.Client (Action Server.ClientEvent) B) :
  PublicScript.owes n1 c -> (forall a, PublicScript.owes n2 (k a)) -> PublicScript.owes (n1 + n2) (abind c k).
Proof.
  intros Hc Hk. revert n1 Hc.
  induction c as [run IH|r s1 t|s1 t rest IH]
    using Async_mut
    with (P0 := fun p =>
                  forall n1 s, PublicScript.owes_paused n1 s p ->
                               PublicScript.owes_paused (n1 + n2) s (abind_paused p k)).
  - intros n1 Hc s. cbn [abind]. apply IH, Hc.
  - intros n1 s Hp. cbn [PublicScript.owes_paused] in Hp. destruct r as [a|].
    + cbn [abind_paused]. specialize (Hk a). destruct (k a) as [run].
      apply (owes_paused_prepend _ n2 s s1); [apply Hk | lia].
    + cbn [abind_paused PublicScript.owes_paused]. lia.
  - intros n1 s (m & Hm & Hrest). cbn [abind_paused PublicScript.owes_paused].
    exists (m + n2)%nat. split; [lia|]. by apply IH.
Qed.

Lemma owes_atry (n : nat)
      (c : Async PublicScript.Client (Action Server.ClientEvent) unit) :
  PublicScript.owes n c -> PublicScript.owes n (atry c).
Proof.
  revert n.
  induction c as [run IH|r s1 t|s1 t rest IH]
    using Async_mut
    with (P0 := fun p =>
                  forall n s, PublicScript.owes_paused n s p ->
                              PublicScript.owes_paused n s (atry_paused p)).
  - intros n Hc s. cbn [atry]. apply IH, Hc.
  - intros n s Hp. exact Hp.
  - intros n s (m & Hm & Hrest). cbn [atry_paused PublicScript.owes_paused].
    exists m. split; [done|]. by apply IH.
Qed.

Lemma owes_createAndSendOffer : PublicScript.owes 1 PublicScript.createAndSendOffer_turns.
Proof.
  unfold PublicScript.createAndSendOffer_turns. apply owes_atry.
  apply (owes_abind 0 1); [apply owes_await_pc, live_pc_value|]. intros offer.
  apply (owes_abind 0 1); [apply owes_await_pc, live_pc_unit|]. intros _.
  apply (owes_abind 0 1); [apply owes_sync; intros s; cbn; lia|]. intros c.
  apply owes_sync. intros s. cbn. lia.
Qed.

Lemma owes_on_offer (callerId : string) (offer : JsValue) :
  callerId ≠ "" -> PublicScript.owes 0 (PublicScript.on_offer_turns callerId offer).
Proof.
  intros Hid. unfold PublicScript.on_offer_turns.
  apply (owes_abind 0 0).
  { apply owes_sync. intros s. cbn.
    apply truthy_Some in Hid. unfold truthy in Hid.
    unfold PublicScript.budget. simpl.
    rewrite Hid. destruct (PublicScript.peerConnection s); simpl; lia. }
  intros _. apply owes_atry.
  apply (owes_abind 0 0); [apply owes_await_pc, live_pc_unit|]. intros _.
  apply (owes_abind 0 0); [apply owes_await_pc, live_pc_value|]. intros answer.
  apply (owes_abind 0 0); [apply owes_await_pc, live_pc_unit|]. intros _.
  apply (owes_abind 0 0); [apply owes_sync; intros s; cbn; lia|]. intros c.
  apply owes_sync. intros s. cbn. lia.
Qed.

Lemma owes_on_new_participant (socketId : string) :
  socketId ≠ "" -> PublicScript.owes 0 (PublicScript.on_new_participant_turns socketId).
Proof.
  intros Hid s. apply truthy_Some in Hid.
  unfold PublicScript.on_new_participant_turns. cbn [abind sync].
  cbn [get abind_paused].
  destruct (truthy (PublicScript.otherPeerId s)) eqn:Hother;
    cbn [negb awhen sync]; [cbn; lia|].
  cbn [abind abind_paused modify prepend].
  set (s0 := PublicScript.set_otherPeerId (Some socketId) s).
  assert (Hs0 : PublicScript.budget s0 = 0%nat).
  { unfold truthy in Hid. unfold PublicScript.budget, s0. simpl.
    rewrite Hid. by destruct (PublicScript.peerConnection s). }
  destruct (PublicScript.peerConnection s) as [pc|] eqn:Hpc.
  - assert (Hs : PublicScript.budget s = 1%nat)
      by (unfold PublicScript.budget; by rewrite Hpc, Hother).
    pose proof owes_createAndSendOffer as Hoffer.
    destruct PublicScript.createAndSendOffer_turns as [run].
    apply (owes_paused_prepend 0 1 s s0); [|simpl; lia].
    apply (owes_paused_prepend 1 1 s0 s0); [apply Hoffer | simpl; lia].
  - unfold PublicScript.createAndSendOffer_turns, PublicScript.await_pc.
    cbn [atry abind]. subst s0.
    cbn [PublicScript.peerConnection PublicScript.set_otherPeerId].
    rewrite Hpc. unfold PublicScript.pc_value.
    cbn [take_turn sync PublicScript.peerConnection
         PublicScript.set_otherPeerId].
    rewrite Hpc. cbn. unfold PublicScript.budget. simpl. rewrite Hpc. lia.
Qed.

Lemma handle_turns_owes (e : Server.ServerEvent) :
  PublicScript.carries_socket_id e -> PublicScript.owes 0 (PublicScript.handle_turns e).
Proof.
  destruct e; cbn [PublicScript.carries_socket_id PublicScript.handle_turns];
    intros Hid.
  - by apply owes_on_new_participant.
  - by apply owes_on_offer.
  - unfold PublicScript.on_answer_turns.
    apply owes_atry, owes_await_pc, live_pc_unit.
  - unfold PublicScript.on_ice_candidate_turns.
    apply owes_atry, owes_await_pc, live_pc_unit.
  - apply owes_sync. intros s.
    apply (on_peer_disconnected_within_budget socketId s).
Qed.

(** X24. In the live-channel binding a script emits at most one offer
    also when its listeners overlap: however the events of the server
    and the settling of the operations that the listeners await are
    interleaved, the script emits at most one offer, and none when it
    starts with a counterpart or without a connection object. The ids
    that the server's events carry are socket ids, which are not
    empty. *)
Theorem live_at_most_one_offer_in_turns
        (wakes : list (Wake PublicScript.Client (Action Server.ClientEvent)))
        (c : PublicScript.Client) :
  Forall PublicScript.from_server wakes ->
  (PublicScript.offers_sent (snd (fst (event_loop wakes [] c))) <= 1)%nat
  /\ (truthy (PublicScript.otherPeerId c) = true ->
      PublicScript.offers_sent (snd (fst (event_loop wakes [] c))) = 0%nat)
  /\ (PublicScript.peerConnection c = None ->
      PublicScript.offers_sent (snd (fst (event_loop wakes [] c))) = 0%nat).
Proof.
  intros Hwakes.
  assert (Hcalls : forall a, Call a ∈ wakes -> PublicScript.owes 0 a).
  { intros a Ha. rewrite Forall_forall in Hwakes.
    destruct (Hwakes _ Ha) as (e & He & ->). by apply handle_turns_owes. }
  pose proof (event_loop_owes wakes [] [] c (Forall2_nil_2 _ _ _) Hcalls)
    as Hb.
  simpl sum_list in Hb. unfold PublicScript.budget in Hb at 2.
  split; [|split].
  - destruct (PublicScript.peerConnection c),
      (truthy (PublicScript.otherPeerId c)); lia.
  - intros Hknown. rewrite Hknown in Hb.
    destruct (PublicScript.peerConnection c); lia.
  - intros Hnone. rewrite Hnone in Hb. lia.
Qed.

End LiveTurns.


(** *** To whom the listeners emit *)

Section LiveAddressed.

Context `{RTCPeerConnection}.

Variable ok : option string -> Prop.





Hypothesis ok_null : ok None.





End LiveAddressed.

Section LiveAddressedTheorem.

Context `{RTCPeerConnection}.


End LiveAddressedTheorem.

(** X25. The offer that a [new-participant] starts is addressed to the
    counterpart of the turn that emits it. [C] is in the room when [A]
    joins, and [B] joins after [A]: the server sends [A] the
    [new-participant] of [B] and the offer of [C]. When the offer of [C]
    arrives before the [createOffer] of [A] has settled, the offer that
    [A] makes for [B] goes to [C], and [B] is sent nothing; when the
    listeners do not overlap it goes to [B]. *)
Theorem offer_addressed_when_emitted :
  Server.inbox "A" (snd (Server.run Server.init Examples.three_join))
  = [Server.NewParticipant "B"; Server.Offer "C" Examples.offer]
  /\ PublicScript.sent "A"
       (snd (fst (event_loop Examples.offer_overtakes []
                             Examples.live_joined)))
     = [Server.FromClient "A" (Server.OfferTo (Some "C") Examples.offer);
        Server.FromClient "A"
          (Server.AnswerTo (Some "C") (session_description "answer"))]
  /\ PublicScript.sent "A"
       (snd (fst (event_loop Examples.listeners_in_turn []
                             Examples.live_joined)))
     = [Server.FromClient "A" (Server.OfferTo (Some "B") Examples.offer);
        Server.FromClient "A"
          (Server.AnswerTo (Some "C") (session_description "answer"))].
Proof. vm_compute. repeat split. Qed.


Lemma offer_overtakes_from_server :
  Forall PublicScript.from_server Examples.offer_overtakes.
Proof.
  repeat constructor.
  - exists (Server.NewParticipant "B"). split; [discriminate | reflexivity].
  - exists (Server.Offer "C" Examples.offer).
    split; [discriminate | reflexivity].
Qed.

Lemma live_at_most_one_offer_in_turns_witness :
  (PublicScript.offers_sent
     (snd (fst (event_loop Examples.offer_overtakes []
                           Examples.live_joined))) <= 1)%nat
  /\ PublicScript.offers_sent
       (snd (fst (event_loop Examples.offer_overtakes []
                             Examples.script_knowing_A))) = 0%nat.
Proof.
  split.
  - by destruct (live_at_most_one_offer_in_turns (H:=resolving_connection)
                   Examples.offer_overtakes Examples.live_joined
                   offer_overtakes_from_server).
  - destruct (live_at_most_one_offer_in_turns (H:=resolving_connection)
                Examples.offer_overtakes Examples.script_knowing_A
                offer_overtakes_from_server) as (_ & Hknown & _).
    apply Hknown. reflexivity.
Defined.

